(** * Gas usage analyzer: a shallow embedding of [gas-analyzer.py]

    The analyzer scans the text of a Solidity contract with regular
    expressions, turns match counts into heuristic gas figures and folds
    them into a report.  The embedding has three layers:

    - [Re]: the part of Python's [re] module the analyzer relies on
      (a backtracking matcher with greedy quantifiers, groups, [^] in
      MULTILINE mode, [\b], negative lookahead, [findall], [search]);
    - [Patterns]: the regular expressions of the source, one definition
      per pattern string;
    - [GasAnalyzer]: the class, with its two running lists as explicit
      state, and the report it builds;
    - [Spec]: the vocabulary of the statements;
    - [Props], [Append] and [Categories]: what is proved of the analyzer;
    - [Console]: what a run prints, the file it writes and how it ends,
      with [Terms], [Indexing], [Further] and [Printing] for the totals
      of the report, the overlap of the detectors and the printed text;
    - [Calls]: what a call of [analyze_contract] leaves and gives back.

    Source text is a string of code points below 256 (Latin-1), which
    covers every Solidity source written in ASCII. *)

From Stdlib Require Import List String Ascii Bool Arith NArith ZArith Lia.
From Stdlib Require Import DecimalString.
Import ListNotations.
Open Scope string_scope.
Open Scope list_scope.

Set Implicit Arguments.

(* ================================================================== *)
(** ** Python's [re], as far as the analyzer uses it *)
(* ================================================================== *)

Module Re.

(** *** Character classes

    For [str] patterns the classes are the Unicode ones; below code point
    256 they are as follows. *)

Definition in_range (lo hi : N) (c : ascii) : bool :=
  let n := N_of_ascii c in (N.leb lo n && N.leb n hi)%bool.

(** [\d]: decimal digits. *)
Definition is_digit (c : ascii) : bool := in_range 48 57 c.

(** [\s]: [str.isspace], i.e. TAB..CR, FS..US, space, NEL and NBSP. *)
Definition is_space (c : ascii) : bool :=
  (in_range 9 13 c || in_range 28 32 c || in_range 133 133 c
   || in_range 160 160 c)%bool.

(** [\w]: [str.isalnum] or underscore. *)
Definition is_word (c : ascii) : bool :=
  (in_range 48 57 c || in_range 65 90 c || in_range 97 122 c
   || in_range 95 95 c
   || in_range 170 170 c || in_range 178 179 c || in_range 181 181 c
   || in_range 185 186 c || in_range 188 190 c
   || in_range 192 214 c || in_range 216 246 c || in_range 248 255 c)%bool.

(** [[0-9a-fA-F]]. *)
Definition is_hex (c : ascii) : bool :=
  (in_range 48 57 c || in_range 65 70 c || in_range 97 102 c)%bool.

Inductive cset : Type :=
| Word                  (* \w *)
| Space                 (* \s *)
| Digit                 (* \d *)
| Hex                   (* [0-9a-fA-F] *)
| Not (c : ascii).      (* [^c] *)

Definition in_cset (cs : cset) (c : ascii) : bool :=
  match cs with
  | Word => is_word c
  | Space => is_space c
  | Digit => is_digit c
  | Hex => is_hex c
  | Not x => negb (Ascii.eqb c x)
  end.

(** *** Patterns

    The constructors are the constructs that occur in the analyzer's
    pattern strings.  Quantifiers are only ever applied to a character
    class there, and [?] to a group. *)

Inductive regex : Type :=
| Lit (l : string)             (* literal text *)
| Set_ (cs : cset)             (* one character of a class *)
| Star (cs : cset)             (* cs*  greedy *)
| Plus (cs : cset)             (* cs+  greedy *)
| Seq (r1 r2 : regex)          (* r1 r2 *)
| Alt (r1 r2 : regex)          (* r1|r2, left first *)
| Opt (r : regex)              (* (?:r)? greedy *)
| Group (n : nat) (r : regex)  (* capturing group number n *)
| Bol                          (* ^ with re.MULTILINE *)
| WordB                        (* \b *)
| NegLook (r : regex).         (* (?!r) *)

(** A position in the subject is the character before it (if any) and the
    text from it on. *)
Definition caps : Type := list (nat * list ascii).
Definition cont (A : Type) : Type :=
  option ascii -> list ascii -> caps -> option A.

Definition word_before (p : option ascii) : bool :=
  match p with Some c => is_word c | None => false end.

Definition word_after (s : list ascii) : bool :=
  match s with c :: _ => is_word c | [] => false end.

Definition at_bol (p : option ascii) : bool :=
  match p with None => true | Some c => Ascii.eqb c "010"%char end.

Section Matcher.
Variable A : Type.

(** Literal text, character by character. *)
Fixpoint m_lit (l : list ascii) (p : option ascii) (s : list ascii)
         (c : caps) (k : cont A) : option A :=
  match l with
  | [] => k p s c
  | x :: l' =>
      match s with
      | y :: s' => if Ascii.eqb x y then m_lit l' (Some y) s' c k else None
      | [] => None
      end
  end.

(** Greedy [cs*]: take the longest run first and give characters back
    one at a time while the rest of the pattern fails. *)
Fixpoint m_star (cs : cset) (p : option ascii) (s : list ascii)
         (c : caps) (k : cont A) : option A :=
  match s with
  | y :: s' =>
      if in_cset cs y then
        match m_star cs (Some y) s' c k with
        | Some a => Some a
        | None => k p s c
        end
      else k p s c
  | [] => k p s c
  end.
End Matcher.

(** The backtracking matcher, in continuation-passing style: [k] is the
    rest of the pattern, and [None] makes the caller try its next
    alternative. *)
Fixpoint m (r : regex) (A : Type) (p : option ascii) (s : list ascii)
         (c : caps) (k : cont A) {struct r} : option A :=
  match r with
  | Lit l => m_lit (list_ascii_of_string l) p s c k
  | Set_ cs =>
      match s with
      | y :: s' => if in_cset cs y then k (Some y) s' c else None
      | [] => None
      end
  | Star cs => m_star cs p s c k
  | Plus cs =>
      match s with
      | y :: s' => if in_cset cs y then m_star cs (Some y) s' c k else None
      | [] => None
      end
  | Seq r1 r2 => m r1 p s c (fun p' s' c' => m r2 p' s' c' k)
  | Alt r1 r2 =>
      match m r1 p s c k with
      | Some a => Some a
      | None => m r2 p s c k
      end
  | Opt r1 =>
      match m r1 p s c k with
      | Some a => Some a
      | None => k p s c
      end
  | Group n r1 =>
      m r1 p s c
        (fun p' s' c' => k p' s' ((n, firstn (List.length s - List.length s') s) :: c'))
  | Bol => if at_bol p then k p s c else None
  | WordB => if xorb (word_before p) (word_after s) then k p s c else None
  | NegLook r1 =>
      match m r1 p s c (fun _ _ _ => Some tt) with
      | Some _ => None
      | None => k p s c
      end
  end.

(** *** Match objects, [search] and [findall] *)

Record rmatch : Type := mkMatch {
  m_text : list ascii;      (* group 0 *)
  m_caps : caps
}.

Fixpoint lookup_cap (n : nat) (c : caps) : list ascii :=
  match c with
  | [] => []
  | (i, t) :: c' => if Nat.eqb i n then t else lookup_cap n c'
  end.

(** [group n mt]: the text of group [n], empty when the group took no part
    in the match (as in [findall]'s result). *)
Definition group (n : nat) (mt : rmatch) : list ascii :=
  lookup_cap n (m_caps mt).

(** One match attempt at a position.  With [must_advance] an empty match is
    refused, which is how the scan steps over an empty match. *)
Definition match_here (r : regex) (must_advance : bool)
           (p : option ascii) (s : list ascii) : option (nat * rmatch) :=
  m r p s []
    (fun _ s' c' =>
       let n := List.length s - List.length s' in
       if (must_advance && Nat.eqb n 0)%bool then None
       else Some (n, mkMatch (firstn n s) c')).

(** [re.search]: the leftmost position where the pattern matches. *)
Fixpoint search_from (r : regex) (p : option ascii) (s : list ascii)
  : option rmatch :=
  match match_here r false p s with
  | Some (_, mt) => Some mt
  | None =>
      match s with
      | [] => None
      | y :: s' => search_from r (Some y) s'
      end
  end.

Definition search (r : regex) (s : list ascii) : bool :=
  match search_from r None s with Some _ => true | None => false end.

(** [re.findall]: non-overlapping matches, left to right.  [skip] counts
    the characters of the previous match still to be stepped over.  After
    an empty match the next attempt at the same position must be longer. *)
Fixpoint findall_from (r : regex) (skip : nat) (p : option ascii)
         (s : list ascii) {struct s} : list rmatch :=
  match s with
  | [] =>
      match skip with
      | S _ => []
      | O =>
          match match_here r false p [] with
          | Some (_, mt) => [mt]
          | None => []
          end
      end
  | y :: s' =>
      match skip with
      | S n => findall_from r n (Some y) s'
      | O =>
          match match_here r false p s with
          | None => findall_from r 0 (Some y) s'
          | Some (S n, mt) => mt :: findall_from r n (Some y) s'
          | Some (O, mt) =>
              mt :: match match_here r true p s with
                    | Some (n2, mt2) => mt2 :: findall_from r (n2 - 1) (Some y) s'
                    | None => findall_from r 0 (Some y) s'
                    end
          end
      end
  end.

Definition findall (r : regex) (s : list ascii) : list rmatch :=
  findall_from r 0 None s.

End Re.

(* ================================================================== *)
(** ** The pattern strings of the analyzer *)
(* ================================================================== *)

Module Patterns.
Import Re.

Notation "r1 >> r2" := (Seq r1 r2) (at level 60, right associativity).

(** [r1|r2|...|rn], tried from the left. *)
Fixpoint any_of (r : regex) (rs : list regex) : regex :=
  match rs with
  | [] => r
  | r' :: rs' => Alt r (any_of r' rs')
  end.

Definition dquote : ascii := "034"%char.
Definition quote : regex := Lit (String dquote EmptyString).

(** [(?:public\s+|private\s+|internal\s+)?] *)
Definition visibility_opt : regex :=
  Opt (any_of (Lit "public" >> Plus Space)
              [Lit "private" >> Plus Space; Lit "internal" >> Plus Space]).

(** [^\s*(uint\d*|int\d*|bool|address|bytes\d*|string)\s+
     (?:public\s+|private\s+|internal\s+)?(\w+)], re.MULTILINE *)
Definition storage_vars_re : regex :=
  Bol >> Star Space >>
  Group 1 (any_of (Lit "uint" >> Star Digit)
                  [Lit "int" >> Star Digit; Lit "bool"; Lit "address";
                   Lit "bytes" >> Star Digit; Lit "string"]) >>
  Plus Space >> visibility_opt >> Group 2 (Plus Word).

(** [\w+\s*=\s*[^=]] *)
Definition storage_writes_re : regex :=
  Plus Word >> Star Space >> Lit "=" >> Star Space >> Set_ (Not "=").

(** [for\s*\([^)]+\)\s*{([^}]+)}] *)
Definition for_loops_re : regex :=
  Lit "for" >> Star Space >> Lit "(" >> Plus (Not ")") >> Lit ")" >>
  Star Space >> Lit "{" >> Group 1 (Plus (Not "}")) >> Lit "}".

(** [while\s*\([^)]+\)\s*{([^}]+)}] *)
Definition while_loops_re : regex :=
  Lit "while" >> Star Space >> Lit "(" >> Plus (Not ")") >> Lit ")" >>
  Star Space >> Lit "{" >> Group 1 (Plus (Not "}")) >> Lit "}".

(** [\w+\s*\[\s*\w+\s*\]\s*=] *)
Definition indexed_assign_re : regex :=
  Plus Word >> Star Space >> Lit "[" >> Star Space >> Plus Word >>
  Star Space >> Lit "]" >> Star Space >> Lit "=".

(** [\w+\.\w+\s*\(] *)
Definition dotted_call_re : regex :=
  Plus Word >> Lit "." >> Plus Word >> Star Space >> Lit "(".

(** [function\s+(\w+)\s*\([^)]*\)\s*(external|public|internal|private)?\s*
     (view|pure|payable)?\s*(?:returns\s*\([^)]*\))?\s*{] *)
Definition functions_re : regex :=
  Lit "function" >> Plus Space >> Group 1 (Plus Word) >> Star Space >>
  Lit "(" >> Star (Not ")") >> Lit ")" >> Star Space >>
  Opt (Group 2 (any_of (Lit "external")
                       [Lit "public"; Lit "internal"; Lit "private"])) >>
  Star Space >>
  Opt (Group 3 (any_of (Lit "view") [Lit "pure"; Lit "payable"])) >>
  Star Space >>
  Opt (Lit "returns" >> Star Space >> Lit "(" >> Star (Not ")") >> Lit ")") >>
  Star Space >> Lit "{".

(** [delegatecall\s*\(] *)
Definition delegatecall_re : regex :=
  Lit "delegatecall" >> Star Space >> Lit "(".

(** [\buint256\b], [\buint128\b], [\buint64\b], [\buint32\b], [\bstring\b] *)
Definition whole_word (w : string) : regex := WordB >> Lit w >> WordB.

(** [\buint\b(?!\d)] *)
Definition uint_re : regex :=
  WordB >> Lit "uint" >> WordB >> NegLook (Set_ Digit).

(** [\bbytes\d*\b] *)
Definition bytes_re : regex :=
  WordB >> Lit "bytes" >> Star Digit >> WordB.

(** [(\w+(?:\[\])?\s+(?:public\s+|private\s+|internal\s+)?(\w+)(?:\[\])?)] *)
Definition arrays_re : regex :=
  Group 1 (Plus Word >> Opt (Lit "[]") >> Plus Space >> visibility_opt >>
           Group 2 (Plus Word) >> Opt (Lit "[]")).

(** [\.push\s*\(] and [\.pop\s*\(] *)
Definition array_push_re : regex := Lit ".push" >> Star Space >> Lit "(".
Definition array_pop_re : regex := Lit ".pop" >> Star Space >> Lit "(".

(** [\w+\s*\[\s*\d+\s*\]] *)
Definition array_access_re : regex :=
  Plus Word >> Star Space >> Lit "[" >> Star Space >> Plus Digit >>
  Star Space >> Lit "]".

(** [mapping\s*\([^)]+\)\s*(?:public\s+|private\s+|internal\s+)?(\w+)] *)
Definition mappings_re : regex :=
  Lit "mapping" >> Star Space >> Lit "(" >> Plus (Not ")") >> Lit ")" >>
  Star Space >> visibility_opt >> Group 1 (Plus Word).

(** [\w+\s*\[\s*\w+\s*\](?!\s*=)] *)
Definition mapping_reads_re : regex :=
  Plus Word >> Star Space >> Lit "[" >> Star Space >> Plus Word >>
  Star Space >> Lit "]" >> NegLook (Star Space >> Lit "=").

(** [\w+\s*\[\s*\w+\s*\]\s*=] *)
Definition mapping_writes_re : regex := indexed_assign_re.

(** [(\w+)\s*=\s*([^;]+);] *)
Definition variable_assignments_re : regex :=
  Group 1 (Plus Word) >> Star Space >> Lit "=" >> Star Space >>
  Group 2 (Plus (Not ";")) >> Lit ";".

(** [\b(0x[0-9a-fA-F]+|\d+|true|false|Q[^Q]*Q)\b], where Q stands for the
    double-quote character *)
Definition literal_re : regex :=
  WordB >>
  Group 1 (any_of (Lit "0x" >> Plus Hex)
                  [Plus Digit; Lit "true"; Lit "false";
                   quote >> Star (Not dquote) >> quote]) >>
  WordB.

(** [function\s+\w+\s*\([^)]*\)\s*public] *)
Definition public_functions_re : regex :=
  Lit "function" >> Plus Space >> Plus Word >> Star Space >>
  Lit "(" >> Star (Not ")") >> Lit ")" >> Star Space >> Lit "public".

(** [require\s*\(] *)
Definition require_re : regex := Lit "require" >> Star Space >> Lit "(".

(** [error\s+\w+], [event\s+\w+], [emit\s+\w+] *)
Definition keyword_name (kw : string) : regex :=
  Lit kw >> Plus Space >> Plus Word.

(** [struct\s+\w+\s*{([^}]+)}] *)
Definition structs_re : regex :=
  Lit "struct" >> Plus Space >> Plus Word >> Star Space >> Lit "{" >>
  Group 1 (Plus (Not "}")) >> Lit "}".

(** [uint256] *)
Definition uint256_plain_re : regex := Lit "uint256".

(** [uint(?:8|16|32|64|128)] *)
Definition smaller_uint_re : regex :=
  Lit "uint" >> any_of (Lit "8") [Lit "16"; Lit "32"; Lit "64"; Lit "128"].

End Patterns.

(* ================================================================== *)
(** ** The analyzer *)
(* ================================================================== *)

Module GasAnalyzer.
Import Re Patterns.
Local Open Scope Z_scope.

(** *** Records of the report *)

Inductive severity : Type := LOW | MEDIUM | HIGH.

Inductive hotspot_type : Type :=
| STORAGE_USAGE | LOOP_OPERATIONS | FUNCTION_CALLS
| ARRAY_OPERATIONS | MAPPING_OPERATIONS.

Inductive optimization_type : Type :=
| DATA_TYPE_OPTIMIZATION | CONSTANT_OPTIMIZATION | VISIBILITY_OPTIMIZATION
| ERROR_OPTIMIZATION | EVENT_OPTIMIZATION | STRUCT_PACKING.

(** An entry of [gas_hotspots]; the field [h_hint] is the dictionary key
    ['optimization']. *)
Record Hotspot : Type := mkHotspot {
  h_type : hotspot_type;
  h_severity : severity;
  h_description : string;
  estimated_cost : Z;
  h_hint : string
}.

(** An entry of [optimizations]. *)
Record Optimization : Type := mkOptimization {
  o_type : optimization_type;
  o_description : string;
  gas_savings : Z
}.

Record Summary : Type := mkSummary {
  total_estimated_cost : Z;
  total_potential_savings : Z;
  efficiency_score : Z;
  hotspot_count : Z;
  optimization_count : Z
}.

Record Report : Type := mkReport {
  file_path : string;
  analysis_timestamp : string;
  summary : Summary;
  report_hotspots : list Hotspot;            (* 'gas_hotspots' *)
  report_optimizations : list Optimization   (* 'optimizations' *)
}.

(** *** The instance

    [self.optimizations] and [self.gas_hotspots] are the two lists every
    detector appends to.  [gas_patterns] is a constant table that no
    method reads and [analysis_results] is never written; neither is part
    of the state here. *)
Record State : Type := mkState {
  optimizations : list Optimization;
  gas_hotspots : list Hotspot
}.

(** [GasAnalyzer()] *)
Definition init : State := mkState [] [].

Definition add_hotspot (h : Hotspot) (self : State) : State :=
  mkState (optimizations self) (gas_hotspots self ++ [h]).

Definition add_optimization (o : Optimization) (self : State) : State :=
  mkState (optimizations self ++ [o]) (gas_hotspots self).

(** *** Helpers for the Python idioms *)

Notation "a ^^ b" := (String.append a b) (at level 50, left associativity).

(** [len(...)] as a Python integer. *)
Definition len {T : Type} (l : list T) : Z := Z.of_nat (List.length l).

(** An integer inside an f-string. *)
Definition fmt (z : Z) : string :=
  match z with
  | Z0 => "0"
  | Zpos _ => NilEmpty.string_of_uint (N.to_uint (Z.to_N z))
  | Zneg _ => "-" ^^ NilEmpty.string_of_uint (N.to_uint (Z.to_N (- z)))
  end.

(** [re.findall(pattern, code)] and [re.search(pattern, text)] on text. *)
Definition findall (r : regex) (code : string) : list rmatch :=
  Re.findall r (list_ascii_of_string code).

Definition count (r : regex) (code : string) : Z := len (findall r code).

(** *** Detectors *)

(** [analyze_storage_usage] *)
Definition storage_cost (vars writes : Z) : Z := vars * 20000 + writes * 5000.

Definition analyze_storage_usage (code : string) (self : State) : State :=
  let storage_vars := findall storage_vars_re code in
  let storage_writes := count storage_writes_re code in
  let estimated_storage_cost := storage_cost (len storage_vars) storage_writes in
  add_hotspot
    (mkHotspot STORAGE_USAGE
       (if Z.ltb 10 (len storage_vars) then MEDIUM else LOW)
       ("Found " ^^ fmt (len storage_vars) ^^ " storage variables, " ^^
        fmt storage_writes ^^ " assignments")
       estimated_storage_cost
       "Consider packing variables, using memory for temporary data")
    self.

(** The loop of [analyze_loop_patterns] over the loop bodies: two
    independent tests per body, each adding one. *)
Definition count_expensive (loops : list (list ascii)) : Z :=
  fold_left
    (fun expensive_in_loops loop =>
       let e1 := if Re.search indexed_assign_re loop
                 then expensive_in_loops + 1 else expensive_in_loops in
       if Re.search dotted_call_re loop then e1 + 1 else e1)
    loops 0.

(** [analyze_loop_patterns] *)
Definition analyze_loop_patterns (code : string) (self : State) : State :=
  let for_loops := map (group 1) (findall for_loops_re code) in
  let while_loops := map (group 1) (findall while_loops_re code) in
  let expensive_in_loops := count_expensive (for_loops ++ while_loops) in
  match for_loops, while_loops with
  | [], [] => self
  | _, _ =>
      let total_loops := len for_loops + len while_loops in
      let estimated_cost := total_loops * 1000 + expensive_in_loops * 10000 in
      add_hotspot
        (mkHotspot LOOP_OPERATIONS
           (if Z.ltb 0 expensive_in_loops then HIGH else MEDIUM)
           ("Found " ^^ fmt total_loops ^^ " loops, " ^^
            fmt expensive_in_loops ^^ " with expensive operations")
           estimated_cost
           "Minimize storage operations and external calls in loops")
        self
  end.

(** [analyze_function_patterns] *)
Definition analyze_function_patterns (code : string) (self : State) : State :=
  let functions := findall functions_re code in
  let external_calls := count dotted_call_re code in
  let delegate_calls := count delegatecall_re code in
  let estimated_cost :=
    len functions * 500 + external_calls * 700 + delegate_calls * 700 in
  add_hotspot
    (mkHotspot FUNCTION_CALLS MEDIUM
       ("Found " ^^ fmt (len functions) ^^ " functions, " ^^
        fmt external_calls ^^ " external calls, " ^^
        fmt delegate_calls ^^ " delegate calls")
       estimated_cost
       "Use internal functions when possible, batch external calls")
    self.

(** [analyze_data_types]; of the seven counts only three are read. *)
Definition analyze_data_types (code : string) (self : State) : State :=
  let n_uint256 := count (whole_word "uint256") code in
  let n_uint := count uint_re code in
  let n_string := count (whole_word "string") code in
  let n_bytes := count bytes_re code in
  let self1 :=
    if Z.ltb n_bytes n_string then
      add_optimization
        (mkOptimization DATA_TYPE_OPTIMIZATION
           ("Consider using bytes32 instead of string for fixed-length data ("
            ^^ fmt n_string ^^ " string usages found)")
           (n_string * 20))
        self
    else self in
  if Z.ltb (n_uint * 2) n_uint256 then
    add_optimization
      (mkOptimization DATA_TYPE_OPTIMIZATION
         ("Consider using uint instead of uint256 where possible ("
          ^^ fmt n_uint256 ^^ " uint256 usages found)")
         (n_uint256 * 5))
      self1
  else self1.

(** [analyze_array_operations]; the list [arrays] of declarations is
    computed and not used. *)
Definition analyze_array_operations (code : string) (self : State) : State :=
  let array_push := count array_push_re code in
  let array_pop := count array_pop_re code in
  let array_access := count array_access_re code in
  if Z.ltb 0 (array_push + array_pop + array_access) then
    let estimated_cost :=
      array_push * 20000 + array_pop * 5000 + array_access * 800 in
    add_hotspot
      (mkHotspot ARRAY_OPERATIONS
         (if Z.ltb 50000 estimated_cost then MEDIUM else LOW)
         ("Array operations: " ^^ fmt array_push ^^ " push, " ^^
          fmt array_pop ^^ " pop, " ^^ fmt array_access ^^ " access")
         estimated_cost
         "Consider using mappings for large datasets, batch array operations")
      self
  else self.

(** [analyze_mapping_operations]; the list [mappings] of declarations is
    computed and not used. *)
Definition analyze_mapping_operations (code : string) (self : State) : State :=
  let mapping_reads := count mapping_reads_re code in
  let mapping_writes := count mapping_writes_re code in
  if Z.ltb 0 (mapping_reads + mapping_writes) then
    let estimated_cost := mapping_reads * 800 + mapping_writes * 20000 in
    add_hotspot
      (mkHotspot MAPPING_OPERATIONS LOW
         ("Mapping operations: " ^^ fmt mapping_reads ^^ " reads, " ^^
          fmt mapping_writes ^^ " writes")
         estimated_cost
         "Mappings are generally gas-efficient for key-value storage")
      self
  else self.

(** [_check_constant_variables]: one suggestion per captured
    [(var, value)] pair whose value contains a literal. *)
Definition constant_suggestion (var : list ascii) : Optimization :=
  mkOptimization CONSTANT_OPTIMIZATION
    ("Variable " ^^ String dquote (string_of_list_ascii var) ^^
     String dquote " could be marked as constant if not modified")
    2300.

Definition _check_constant_variables (code : string) (self : State) : State :=
  let variable_assignments := findall variable_assignments_re code in
  fold_left
    (fun self mt =>
       if Re.search literal_re (group 2 mt)
       then add_optimization (constant_suggestion (group 1 mt)) self
       else self)
    variable_assignments self.

(** [_check_function_visibility] *)
Definition _check_function_visibility (code : string) (self : State) : State :=
  let public_functions := count public_functions_re code in
  if Z.ltb 0 public_functions then
    add_optimization
      (mkOptimization VISIBILITY_OPTIMIZATION
         ("Consider making functions internal/private if not called externally ("
          ^^ fmt public_functions ^^ " public functions found)")
         (public_functions * 50))
      self
  else self.

(** [_check_require_statements] *)
Definition _check_require_statements (code : string) (self : State) : State :=
  let require_statements := count require_re code in
  if (Z.ltb 0 require_statements
      && negb (Re.search (keyword_name "error") (list_ascii_of_string code)))%bool
  then
    add_optimization
      (mkOptimization ERROR_OPTIMIZATION
         ("Consider using custom errors instead of require strings ("
          ^^ fmt require_statements ^^ " require statements found)")
         (require_statements * 100))
      self
  else self.

(** [_check_event_usage] *)
Definition _check_event_usage (code : string) (self : State) : State :=
  let events := count (keyword_name "event") code in
  let emits := count (keyword_name "emit") code in
  if Z.ltb emits events then
    add_optimization
      (mkOptimization EVENT_OPTIMIZATION
         ("Some events are declared but not emitted (" ^^ fmt events ^^
          " events, " ^^ fmt emits ^^ " emits)")
         ((events - emits) * 375))
      self
  else self.

(** [_check_struct_packing] *)
Definition _check_struct_packing (code : string) (self : State) : State :=
  let structs := map (group 1) (findall structs_re code) in
  fold_left
    (fun self struct =>
       let uint256_count := len (Re.findall uint256_plain_re struct) in
       let smaller_uint_count := len (Re.findall smaller_uint_re struct) in
       if (Z.ltb 0 uint256_count && Z.ltb 0 smaller_uint_count)%bool then
         add_optimization
           (mkOptimization STRUCT_PACKING
              "Struct may benefit from variable packing (reorder smaller types together)"
              2000)
           self
       else self)
    structs self.

(** [suggest_optimizations] *)
Definition suggest_optimizations (code : string) (self : State) : State :=
  let self := _check_constant_variables code self in
  let self := _check_function_visibility code self in
  let self := _check_require_statements code self in
  let self := _check_event_usage code self in
  _check_struct_packing code self.

(** The detector pass of [analyze_contract], in the order of the calls. *)
Definition run_detectors (code : string) (self : State) : State :=
  let self := analyze_storage_usage code self in
  let self := analyze_loop_patterns code self in
  let self := analyze_function_patterns code self in
  let self := analyze_data_types code self in
  let self := analyze_array_operations code self in
  let self := analyze_mapping_operations code self in
  suggest_optimizations code self.

(** *** The report *)

(** [sum(...)] over a list of integers. *)
Definition sum (l : list Z) : Z := fold_left Z.add l 0.

(** The dictionary that [generate_gas_report] builds, as it reads when it
    is built; [now] is the text [datetime.now().isoformat()] gives. *)
Definition gas_report (path now : string) (self : State) : Report :=
  let total_estimated_cost := sum (map estimated_cost (gas_hotspots self)) in
  let total_potential_savings := sum (map gas_savings (optimizations self)) in
  mkReport path now
    (mkSummary total_estimated_cost total_potential_savings
       (Z.max 0 (100 - total_estimated_cost / 1000))
       (len (gas_hotspots self))
       (len (optimizations self)))
    (gas_hotspots self)
    (optimizations self).

(** Under the keys ['gas_hotspots'] and ['optimizations'] the dictionary
    holds the two list objects of the instance, not copies of them: they
    read as what the lists of the instance hold at the time of the
    reading, while the path, the timestamp and the summary are the
    dictionary's own.  A [Report] is a dictionary as it reads at one
    moment; [read_report self report] is the dictionary [report], built
    by the instance earlier, as it reads once the instance has reached
    [self]. *)
Definition read_report (self : State) (report : Report) : Report :=
  mkReport (file_path report) (analysis_timestamp report) (summary report)
           (gas_hotspots self) (optimizations self).

(** *** Reading the file, writing the report, running

    [open] and [read] either give the text of the file or raise;
    [analyze_contract] catches [FileNotFoundError] only.  Once the report
    is built it is printed and written to a JSON file, and that write
    can raise as well. *)
Inductive read_result : Type :=
| FileText (code : string)
| FileNotFound                 (* FileNotFoundError *)
| ReadFailure.                 (* any other exception of open() or read() *)

Inductive outcome : Type :=
| Returned (r : Report)        (* the report *)
| ReturnedEmpty                (* the empty dictionary *)
| Raised                       (* reading the source raised *)
| SaveFailed (r : Report).     (* report built and printed, its file not written *)

(** [generate_gas_report]: build, print, save, return. *)
Definition generate_gas_report (can_save : bool) (path now : string)
           (self : State) : outcome :=
  let report := gas_report path now self in
  if can_save then Returned report else SaveFailed report.

(** [analyze_contract]: the new state of the instance and what the call
    gives back. *)
Definition analyze_contract (fs : string -> read_result) (can_save : bool)
           (now : string) (path : string) (self : State) : State * outcome :=
  match fs path with
  | FileNotFound => (self, ReturnedEmpty)
  | ReadFailure => (self, Raised)
  | FileText contract_code =>
      let self := run_detectors contract_code self in
      (self, generate_gas_report can_save path now self)
  end.

(** [main] with a well-formed command line: a fresh analyzer, one call. *)
Definition main (fs : string -> read_result) (can_save : bool)
           (now : string) (contract_file : string) : State * outcome :=
  analyze_contract fs can_save now contract_file init.

(** The report of a run on source text [code]: what [main] builds when
    the file holds [code]. *)
Definition analyze (path now code : string) : Report :=
  gas_report path now (run_detectors code init).

End GasAnalyzer.

(* ================================================================== *)
(** ** Vocabulary of the statements *)
(* ================================================================== *)

Module Spec.
Import Re Patterns GasAnalyzer.
Local Open Scope Z_scope.

(** A method only appends to the two lists, and what it appends does not
    depend on what is already there. *)
Definition appends (f : State -> State) : Prop :=
  forall self,
    gas_hotspots (f self) = gas_hotspots self ++ gas_hotspots (f init) /\
    optimizations (f self) = optimizations self ++ optimizations (f init).

(** No recorded cost or saving is negative. *)
Definition nonneg (self : State) : Prop :=
  Forall (fun h => 0 <= estimated_cost h) (gas_hotspots self) /\
  Forall (fun o => 0 <= gas_savings o) (optimizations self).

(** [clamp(lo, hi, x)] of the aggregator's score formula. *)
Definition clamp (lo hi x : Z) : Z := Z.max lo (Z.min hi x).

(** Text made of lines. *)
Definition nl : string := String "010"%char EmptyString.

Definition unlines (l : list string) : string :=
  fold_right (fun line rest => String.append line (String.append nl rest))
             EmptyString l.

(** A contract with fifteen [uint256] state variables and five assignment
    statements. *)
Definition storage_heavy_contract : string :=
  unlines
    [ "contract Vault {";
      "    uint256 a1;"; "    uint256 a2;"; "    uint256 a3;";
      "    uint256 a4;"; "    uint256 a5;"; "    uint256 a6;";
      "    uint256 a7;"; "    uint256 a8;"; "    uint256 a9;";
      "    uint256 a10;"; "    uint256 a11;"; "    uint256 a12;";
      "    uint256 a13;"; "    uint256 a14;"; "    uint256 a15;";
      "    function reset() public {";
      "        a1 = 1;"; "        a2 = 2;"; "        a3 = 3;";
      "        a4 = 4;"; "        a5 = 5;";
      "    }";
      "}" ].

(** The report of the empty text; [path] and [now] are carried through. *)
Definition empty_report (path now : string) : Report :=
  mkReport path now
    (mkSummary 0 0 100 2 0)
    [ mkHotspot STORAGE_USAGE LOW
        "Found 0 storage variables, 0 assignments" 0
        "Consider packing variables, using memory for temporary data";
      mkHotspot FUNCTION_CALLS MEDIUM
        "Found 0 functions, 0 external calls, 0 delegate calls" 0
        "Use internal functions when possible, batch external calls" ]
    [].

(** The bodies of the loops found, [for_loops + while_loops]. *)
Definition loop_bodies (code : string) : list (list ascii) :=
  map (group 1) (findall for_loops_re code) ++
  map (group 1) (findall while_loops_re code).

(** A loop is expensive when either inner pattern matches in its body. *)
Definition is_expensive (body : list ascii) : bool :=
  (Re.search indexed_assign_re body || Re.search dotted_call_re body)%bool.

(** The loop cost with every expensive loop counted once. *)
Definition claimed_loop_cost (code : string) : Z :=
  len (loop_bodies code) * 1000 +
  len (filter is_expensive (loop_bodies code)) * 10000.

(** A [for] loop whose body has one dotted call, and one whose body has
    an indexed assignment as well. *)
Definition loop_with_call : string :=
  "for (uint i = 0; i < n; i++) { token.transfer(to, 1); }".

Definition loop_with_both : string :=
  "for (uint i = 0; i < n; i++) { balances[i] = token.balanceOf(i); }".

(** The character before the position reached after reading [l] from a
    position whose previous character is [p]. *)
Fixpoint last_char (p : option ascii) (l : list ascii) : option ascii :=
  match l with
  | [] => p
  | x :: l' => last_char (Some x) l'
  end.

(** Literals, as texts: [0x] and hex digits, decimal digits, [true] or
    [false], a double-quoted string. *)
Definition text_eqb (v : list ascii) (w : string) : bool :=
  if list_eq_dec ascii_dec v (list_ascii_of_string w) then true else false.

Definition is_hex_literal (v : list ascii) : bool :=
  match v with
  | a :: b :: h :: hs =>
      (Ascii.eqb a "0" && Ascii.eqb b "x" && forallb is_hex (h :: hs))%bool
  | _ => false
  end.

Definition is_decimal_literal (v : list ascii) : bool :=
  match v with
  | d :: ds => forallb is_digit (d :: ds)
  | [] => false
  end.

Definition is_boolean_literal (v : list ascii) : bool :=
  (text_eqb v "true" || text_eqb v "false")%bool.

Definition is_string_literal (v : list ascii) : bool :=
  match v with
  | q :: rest =>
      (Ascii.eqb q dquote &&
       match rev rest with
       | q' :: body => (Ascii.eqb q' dquote &&
                        forallb (fun c => negb (Ascii.eqb c dquote)) body)%bool
       | [] => false
       end)%bool
  | [] => false
  end.

(** The right-hand side is a literal. *)
Definition is_literal_text (v : list ascii) : bool :=
  (is_hex_literal v || is_decimal_literal v || is_boolean_literal v
   || is_string_literal v)%bool.

(** A hex, decimal or boolean literal. *)
Definition is_plain_token (v : list ascii) : bool :=
  (is_hex_literal v || is_decimal_literal v || is_boolean_literal v)%bool.

(** The assignment statements whose right-hand side is a literal. *)
Definition literal_assignments (code : string) : list rmatch :=
  filter (fun mt => is_literal_text (group 2 mt))
         (findall variable_assignments_re code).

(** An assignment whose right-hand side is a sum. *)
Definition sum_statement : string := "x = y + 1;".

(** What a pattern can consume: [matches r p t] holds of every text [t]
    that [r] can match from a position whose previous character is [p].
    Of [\b] and of a lookahead it only records that they consume
    nothing. *)
Fixpoint matches (r : regex) (p : option ascii) (t : list ascii) : Prop :=
  match r with
  | Lit l => t = list_ascii_of_string l
  | Set_ cs => exists y, t = [y] /\ in_cset cs y = true
  | Star cs => forallb (in_cset cs) t = true
  | Plus cs => t <> [] /\ forallb (in_cset cs) t = true
  | Seq r1 r2 =>
      exists t1 t2,
        t = t1 ++ t2 /\ matches r1 p t1 /\ matches r2 (last_char p t1) t2
  | Alt r1 r2 => matches r1 p t \/ matches r2 p t
  | Opt r1 => matches r1 p t \/ t = []
  | Group _ r1 => matches r1 p t
  | Bol => t = [] /\ at_bol p = true
  | WordB => t = []
  | NegLook _ => t = []
  end.

(** A pattern is local when it never looks at the text after the
    position it has reached: no [\b], no lookahead. *)
Fixpoint local (r : regex) : bool :=
  match r with
  | WordB | NegLook _ => false
  | Seq r1 r2 | Alt r1 r2 => (local r1 && local r2)%bool
  | Opt r1 | Group _ r1 => local r1
  | Lit _ | Set_ _ | Star _ | Plus _ | Bol => true
  end.

(** Two results, one on a text and one on the text with more appended,
    agree when both fail, both succeed alike, or the second one has gone
    past the end of the shorter text. *)
Definition agree {A A' : Type} (same : A -> A' -> Prop) (beyond : A' -> Prop)
           (x : option A) (x' : option A') : Prop :=
  (x = None /\ x' = None) \/
  (exists a a', x = Some a /\ x' = Some a' /\ same a a') \/
  (exists a', x' = Some a' /\ beyond a').

Definition overrun {A' : Type} (beyond : A' -> Prop) (x' : option A') : Prop :=
  x' = None \/ exists a', x' = Some a' /\ beyond a'.

(** The rest of the pattern behaves alike on a text and on the text
    with [ext] appended. *)
Definition k_agree {A A' : Type} (same : A -> A' -> Prop)
           (beyond : A' -> Prop) (ext : list ascii)
           (k : cont A) (k' : cont A') : Prop :=
  forall p s c, agree same beyond (k p s c) (k' p (s ++ ext) c).

(** Inside the appended text, the rest of the pattern fails or ends
    beyond the shorter text. *)
Definition k_overrun {A' : Type} (beyond : A' -> Prop) (ext : list ascii)
           (k' : cont A') : Prop :=
  forall p s c,
    (List.length s < List.length ext)%nat -> overrun beyond (k' p s c).

(** A marker reads a text from left to right with one bit of memory and
    marks some of its characters: [mk_mark q p y] looks at the memory [q],
    the previous character [p] and the character [y]; [mk_step] updates
    the memory. *)
Record marker : Type := mkMarker {
  mk_step : bool -> ascii -> bool;
  mk_mark : bool -> option ascii -> ascii -> bool
}.

Fixpoint run (mk : marker) (q : bool) (t : list ascii) : bool :=
  match t with
  | [] => q
  | y :: t' => run mk (mk_step mk q y) t'
  end.

Fixpoint marks (mk : marker) (q : bool) (p : option ascii)
         (t : list ascii) : nat :=
  match t with
  | [] => 0
  | y :: t' =>
      (if mk_mark mk q p y then 1 else 0)
      + marks mk (mk_step mk q y) (Some y) t'
  end.

(** The occurrences of one character. *)
Definition char_marker (d : ascii) : marker :=
  mkMarker (fun q _ => q) (fun _ _ y => Ascii.eqb y d).

(** The first characters of words. *)
Definition word_start_marker : marker :=
  mkMarker (fun q _ => q)
           (fun _ p y => (is_word y && negb (word_before p))%bool).

(** The closing braces that come after a closing parenthesis. *)
Definition block_end_marker : marker :=
  mkMarker (fun q y => (q || Ascii.eqb y ")"%char)%bool)
           (fun q _ y => (q && Ascii.eqb y "}"%char)%bool).

(** The opening braces that follow a closing parenthesis with nothing but
    blanks and lower-case letters in between. *)
Definition is_lower (c : ascii) : bool := in_range 97 122 c.

Definition zone_char (c : ascii) : bool := (is_space c || is_lower c)%bool.

Definition body_start_marker : marker :=
  mkMarker (fun q y => if Ascii.eqb y ")"%char then true
                       else if zone_char y then q else false)
           (fun q _ y => (q && Ascii.eqb y "{"%char)%bool).

(** A set of characters is quiet for a marker in memory state [q] when
    its characters are not marked there and leave the memory alone. *)
Definition quiet (mk : marker) (q : bool) (f : ascii -> bool) : Prop :=
  forall p y, f y = true -> mk_mark mk q p y = false /\ mk_step mk q y = q.

(** The number of occurrences of a character in a text. *)
Fixpoint occurrences (d : ascii) (t : list ascii) : nat :=
  match t with
  | [] => 0
  | y :: t' => (if Ascii.eqb y d then 1 else 0) + occurrences d t'
  end.

(** The two loop patterns have one shape. *)
Definition loop_re (keyword : string) : regex :=
  Lit keyword >> Star Space >> Lit "(" >> Plus (Not ")") >> Lit ")" >>
  Star Space >> Lit "{" >> Group 1 (Plus (Not "}")) >> Lit "}".

(** Index accesses.  The pattern of reads and the pattern of writes are
    one pattern, [\w+\s*\[\s*\w+\s*\]], followed by a lookahead or by
    [\s*=]. *)
Definition bracket_access_re : regex :=
  Plus Word >> Star Space >> Lit "[" >> Star Space >> Plus Word >>
  Star Space >> Lit "]".

Inductive access_kind : Type := AnyAccess | ReadAccess | WriteAccess.

Definition access_re (X : access_kind) : regex :=
  match X with
  | AnyAccess => bracket_access_re
  | ReadAccess => mapping_reads_re
  | WriteAccess => mapping_writes_re
  end.

(** The longest run of a class at the head of a text, and what follows. *)
Fixpoint take_class (cs : cset) (s : list ascii) : list ascii :=
  match s with
  | y :: s' => if in_cset cs y then y :: take_class cs s' else []
  | [] => []
  end.

Fixpoint drop_class (cs : cset) (s : list ascii) : list ascii :=
  match s with
  | y :: s' => if in_cset cs y then drop_class cs s' else s
  | [] => []
  end.

Definition head_in (cs : cset) (s : list ascii) : bool :=
  match s with y :: _ => in_cset cs y | [] => false end.

(** What is left of a text after [\s*\[\s*\w+\s*\]], after [\s*=], and
    after an access of each kind, read without going back. *)
Definition bracket_tail (v : list ascii) : option (list ascii) :=
  match drop_class Space v with
  | x :: v2 =>
      if Ascii.eqb "[" x then
        match drop_class Space v2 with
        | z :: v4 =>
            if in_cset Word z then
              match drop_class Space (drop_class Word v4) with
              | x' :: s' => if Ascii.eqb "]" x' then Some s' else None
              | [] => None
              end
            else None
        | [] => None
        end
      else None
  | [] => None
  end.

Definition assign_tail (s : list ascii) : option (list ascii) :=
  match drop_class Space s with
  | x :: s' => if Ascii.eqb "=" x then Some s' else None
  | [] => None
  end.

Definition access_tail (X : access_kind) (v : list ascii)
  : option (list ascii) :=
  match bracket_tail v with
  | Some s' =>
      match X with
      | AnyAccess => Some s'
      | ReadAccess =>
          match assign_tail s' with Some _ => None | None => Some s' end
      | WriteAccess => assign_tail s'
      end
  | None => None
  end.

Definition access_end (X : access_kind) (s : list ascii)
  : option (list ascii) :=
  match s with
  | y :: r => if in_cset Word y then access_tail X (drop_class Word r) else None
  | [] => None
  end.

(** The result of a match attempt whose match leaves [e] of the text. *)
Definition access_result (adv : bool) (s : list ascii)
           (e : option (list ascii)) : option (nat * rmatch) :=
  match e with
  | Some s' =>
      let n := (List.length s - List.length s')%nat in
      if (adv && Nat.eqb n 0)%bool then None
      else Some (n, mkMatch (firstn n s) [])
  | None => None
  end.

(** A text is steady for a marker when, the memory being set, it holds no
    mark and leaves the memory set. *)
Definition steady (mk : marker) (t : list ascii) : Prop :=
  (forall p, marks mk true p t = 0%nat) /\ run mk true t = true.

(** The estimated cost of a category in a list of hotspots. *)
Definition type_eqb (a b : hotspot_type) : bool :=
  match a, b with
  | STORAGE_USAGE, STORAGE_USAGE
  | LOOP_OPERATIONS, LOOP_OPERATIONS
  | FUNCTION_CALLS, FUNCTION_CALLS
  | ARRAY_OPERATIONS, ARRAY_OPERATIONS
  | MAPPING_OPERATIONS, MAPPING_OPERATIONS => true
  | _, _ => false
  end.

Definition category_cost (T : hotspot_type) (hs : list Hotspot) : Z :=
  sum (map estimated_cost (filter (fun h => type_eqb (h_type h) T) hs)).

(** A quoted string as a right-hand side, and a variable assigned twice. *)
Definition quoted_abc : list ascii :=
  dquote :: list_ascii_of_string "abc" ++ [dquote].

Definition assigned_twice : string := "x = 1; x = 2;".

(** A file system that holds one text under every name. *)
Definition one_file (code : string) : string -> read_result :=
  fun _ => FileText code.

End Spec.

(* ================================================================== *)
(** ** What a run prints, writes and ends with *)
(* ================================================================== *)

Module Console.
Import Re Patterns GasAnalyzer Spec.
Local Open Scope Z_scope.

(** *** Pieces of the printed text *)

(** ['='*60] and ['-'*40]. *)
Definition rule (c : ascii) (n : nat) : string :=
  string_of_list_ascii (repeat c n).

(** [f"{n:,}"].  The digits are grouped by three from the right: on the
    reversed digits a comma goes after every third digit that has a digit
    after it. *)
Fixpoint group3 (rev_digits : list ascii) : list ascii :=
  match rev_digits with
  | a :: b :: c :: ((_ :: _) as rest) => a :: b :: c :: ","%char :: group3 rest
  | _ => rev_digits
  end.

Definition with_commas (digits : string) : string :=
  string_of_list_ascii (rev (group3 (rev (list_ascii_of_string digits)))).

Definition thousands (z : Z) : string :=
  (if Z.ltb z 0 then "-" else "") ^^ with_commas (fmt (Z.abs z)).

(** The values of the keys ['severity'] and ['type'] are strings in the
    source; this is their text. *)
Definition severity_name (s : severity) : string :=
  match s with LOW => "LOW" | MEDIUM => "MEDIUM" | HIGH => "HIGH" end.

Definition hotspot_type_name (t : hotspot_type) : string :=
  match t with
  | STORAGE_USAGE => "STORAGE_USAGE"
  | LOOP_OPERATIONS => "LOOP_OPERATIONS"
  | FUNCTION_CALLS => "FUNCTION_CALLS"
  | ARRAY_OPERATIONS => "ARRAY_OPERATIONS"
  | MAPPING_OPERATIONS => "MAPPING_OPERATIONS"
  end.

Definition optimization_type_name (t : optimization_type) : string :=
  match t with
  | DATA_TYPE_OPTIMIZATION => "DATA_TYPE_OPTIMIZATION"
  | CONSTANT_OPTIMIZATION => "CONSTANT_OPTIMIZATION"
  | VISIBILITY_OPTIMIZATION => "VISIBILITY_OPTIMIZATION"
  | ERROR_OPTIMIZATION => "ERROR_OPTIMIZATION"
  | EVENT_OPTIMIZATION => "EVENT_OPTIMIZATION"
  | STRUCT_PACKING => "STRUCT_PACKING"
  end.

(** [enumerate(l, start)] *)
Fixpoint enumerate (T : Type) (start : Z) (l : list T) : list (Z * T) :=
  match l with
  | [] => []
  | x :: l' => (start, x) :: enumerate (start + 1) l'
  end.

(** *** [print_gas_report]

    The output is the list of the texts given to [print], one entry per
    call, in order. *)

(** The [if]/[elif] chain on the score. *)
Definition rating_line (score : Z) : string :=
  if Z.leb 90 score then " Gas Efficiency: EXCELLENT"
  else if Z.leb 75 score then "  Gas Efficiency: GOOD"
  else if Z.leb 50 score then " Gas Efficiency: NEEDS IMPROVEMENT"
  else " Gas Efficiency: CRITICAL OPTIMIZATION NEEDED".

Definition hotspot_lines (ih : Z * Hotspot) : list string :=
  let (i, hotspot) := ih in
  [ fmt i ^^ ". [" ^^ severity_name (h_severity hotspot) ^^ "] " ^^
      hotspot_type_name (h_type hotspot);
    "   Description: " ^^ h_description hotspot;
    "   Estimated Cost: " ^^ thousands (estimated_cost hotspot) ^^ " gas";
    "   Optimization: " ^^ h_hint hotspot;
    "" ].

Definition optimization_lines (io : Z * Optimization) : list string :=
  let (i, opt) := io in
  [ fmt i ^^ ". " ^^ optimization_type_name (o_type opt);
    "   Description: " ^^ o_description opt;
    "   Potential Savings: " ^^ thousands (gas_savings opt) ^^ " gas";
    "" ].

Definition head_lines (report : Report) : list string :=
  [ nl ^^ rule "=" 60;
    " GAS USAGE ANALYSIS REPORT";
    rule "=" 60;
    " File: " ^^ file_path report;
    " Analysis Date: " ^^ analysis_timestamp report;
    " Estimated Total Cost: " ^^
      thousands (total_estimated_cost (summary report)) ^^ " gas";
    " Potential Savings: " ^^
      thousands (total_potential_savings (summary report)) ^^ " gas";
    " Efficiency Score: " ^^ fmt (efficiency_score (summary report)) ^^ "/100";
    rating_line (efficiency_score (summary report)) ].

Definition best_practices : list string :=
  [ nl ^^ " GAS OPTIMIZATION BEST PRACTICES:";
    rule "-" 40;
    "1. Use appropriate data types (uint instead of uint256)";
    "2. Pack structs efficiently (group smaller types)";
    "3. Use constant and immutable for unchanging values";
    "4. Prefer internal/private over public functions";
    "5. Use custom errors instead of require strings";
    "6. Minimize storage operations, especially in loops";
    "7. Use events instead of storing non-critical data";
    "8. Consider using mappings over arrays for large datasets";
    "9. Batch operations when possible";
    "10. Use view/pure functions when not modifying state" ].

(** The two lists that are walked are the lists of the instance; the
    head of the report is read from the dictionary. *)
Definition print_gas_report (self : State) (report : Report) : list string :=
  head_lines report ++
  (match gas_hotspots self with
   | [] => []
   | _ :: _ =>
       [ nl ^^ " GAS HOTSPOTS:"; rule "-" 40 ] ++
       flat_map hotspot_lines (enumerate 1 (gas_hotspots self))
   end) ++
  (match optimizations self with
   | [] => []
   | _ :: _ =>
       [ nl ^^ " OPTIMIZATION SUGGESTIONS:"; rule "-" 40 ] ++
       flat_map optimization_lines (enumerate 1 (optimizations self))
   end) ++
  best_practices.

(** *** [save_gas_report]

    [stamp] is the text [datetime.now().strftime('%Y%m%d-%H%M%S')] gives.
    The file holds [json.dump(report)]; it is kept here as the report it
    is the dump of. *)
Definition save_name (stamp : string) : string :=
  "gas-analysis-" ^^ stamp ^^ ".json".

Definition saved_line (stamp : string) : string :=
  nl ^^ " Gas analysis report saved to: " ^^ save_name stamp.

(** *** A run of the program *)

(** How the process ends: [main] returns (exit status 0), [sys.exit(1)]
    after the usage text, or an exception that nothing catches (a
    traceback and exit status 1). *)
Inductive ending : Type := Completed | UsageExit | Uncaught.

Record Run : Type := mkRun {
  stdout : list string;
  run_end : ending;
  saved : option (string * Report)   (* the name of the file, its content *)
}.

Definition usage_lines : list string :=
  [ "Usage: python gas-analyzer.py <contract-file>";
    "Example: python gas-analyzer.py ./contracts/MyContract.sol" ].

(** The lines the detector pass prints, one per method. *)
Definition progress_lines : list string :=
  [ " Analyzing storage usage...";
    " Analyzing loop patterns...";
    " Analyzing function patterns...";
    " Analyzing data types...";
    " Analyzing array operations...";
    " Analyzing mapping operations...";
    " Generating optimization suggestions..." ].

(** [main], from [sys.argv] on: the usage test, then a fresh analyzer and
    one call of [analyze_contract], whose result is dropped. *)
Definition run_program (argv : list string) (fs : string -> read_result)
           (can_save : bool) (now stamp : string) : Run :=
  match argv with
  | [_; contract_file] =>
      let first := " Analyzing gas usage: " ^^ contract_file in
      match main fs can_save now contract_file with
      | (_, ReturnedEmpty) =>
          mkRun [first; " File not found: " ^^ contract_file] Completed None
      | (_, Raised) => mkRun [first] Uncaught None
      | (self, SaveFailed report) =>
          mkRun (first :: progress_lines ++ print_gas_report self report)
                Uncaught None
      | (self, Returned report) =>
          mkRun (first :: progress_lines ++ print_gas_report self report ++
                 [saved_line stamp])
                Completed (Some (save_name stamp, report))
      end
  | _ => mkRun usage_lines UsageExit None
  end.

End Console.

(* ================================================================== *)
(** ** Vocabulary of the further statements *)
(* ================================================================== *)

Module Terms.
Import Re Patterns GasAnalyzer Spec Console.
Local Open Scope Z_scope.

(** What is left of a text after [\s*\[\s*\d+\s*\]], read without going
    back, and after a word followed by such a tail. *)
Definition literal_index_tail (v : list ascii) : option (list ascii) :=
  match drop_class Space v with
  | x :: v2 =>
      if Ascii.eqb "[" x then
        match drop_class Space v2 with
        | z :: v4 =>
            if in_cset Digit z then
              match drop_class Space (drop_class Digit v4) with
              | x' :: s' => if Ascii.eqb "]" x' then Some s' else None
              | [] => None
              end
            else None
        | [] => None
        end
      else None
  | [] => None
  end.

Definition word_then (T : list ascii -> option (list ascii))
           (s : list ascii) : option (list ascii) :=
  match s with
  | y :: r => if in_cset Word y then T (drop_class Word r) else None
  | [] => None
  end.

(** The constant candidates and the structs that get a suggestion. *)
Definition constant_candidates_of (code : string) : list rmatch :=
  filter (fun mt => Re.search literal_re (group 2 mt))
         (findall variable_assignments_re code).

Definition mixed_struct (struct : list ascii) : bool :=
  (Z.ltb 0 (len (Re.findall uint256_plain_re struct)) &&
   Z.ltb 0 (len (Re.findall smaller_uint_re struct)))%bool.

Definition mixed_structs_of (code : string) : list (list ascii) :=
  filter mixed_struct (map (group 1) (findall structs_re code)).

(** Commas put in from the left: a comma follows a digit when the number
    of digits after it is a multiple of three and not zero. *)
Fixpoint commas_from_left (digits : list ascii) : list ascii :=
  match digits with
  | [] => []
  | d :: rest =>
      d :: (if (Nat.eqb (List.length rest mod 3) 0
                && negb (Nat.eqb (List.length rest) 0))%bool
            then ","%char :: commas_from_left rest
            else commas_from_left rest)
  end.

Definition strip_commas (s : string) : string :=
  string_of_list_ascii
    (filter (fun c => negb (Ascii.eqb c ",")) (list_ascii_of_string s)).

(** The rating, from the total cost. *)
Definition rating_of_cost (total : Z) : string :=
  if Z.ltb total 11000 then " Gas Efficiency: EXCELLENT"
  else if Z.ltb total 26000 then "  Gas Efficiency: GOOD"
  else if Z.ltb total 51000 then " Gas Efficiency: NEEDS IMPROVEMENT"
  else " Gas Efficiency: CRITICAL OPTIMIZATION NEEDED".

(** The first line of the block of the entry at index [k], counted from
    zero, in what [print_gas_report] prints. *)
Definition hotspot_line_index (k : nat) : nat := 11 + 5 * k.

Definition optimization_line_index (self : State) (k : nat) : nat :=
  (match gas_hotspots self with
   | [] => 9
   | _ :: _ => 11 + 5 * List.length (gas_hotspots self)
   end + 2 + 4 * k)%nat.

(** The characters that come first on a line. *)
Definition line_start_marker : marker :=
  mkMarker (fun q _ => q) (fun _ p _ => at_bol p).

Definition newline : ascii := "010"%char.

(** Two contracts and a file system for the examples. *)
Definition two_hotspots : State :=
  run_detectors "x = 1;" init.

Definition no_file : string -> read_result := fun _ => FileNotFound.

End Terms.

(* ================================================================== *)
(** ** Properties of the analyzer *)
(* ================================================================== *)

Module Props.
Import Re Patterns GasAnalyzer Spec.
Local Open Scope Z_scope.

(** *** Sums and counts *)

Lemma len_nonneg (T : Type) (l : list T) : 0 <= len l.
Proof. unfold len. apply Nat2Z.is_nonneg. Qed.

Lemma len_app (T : Type) (l1 l2 : list T) : len (l1 ++ l2) = len l1 + len l2.
Proof. unfold len. rewrite length_app. lia. Qed.

Lemma count_nonneg (r : regex) (code : string) : 0 <= count r code.
Proof. apply len_nonneg. Qed.

Lemma fold_add_shift (l : list Z) (a : Z) :
  fold_left Z.add l a = a + fold_left Z.add l 0.
Proof.
  revert a. induction l as [|x l IH]; intros a; simpl.
  - lia.
  - rewrite IH. rewrite (IH x). lia.
Qed.

Lemma sum_cons (x : Z) (l : list Z) : sum (x :: l) = x + sum l.
Proof. unfold sum. simpl. apply fold_add_shift. Qed.

Lemma sum_app (l1 l2 : list Z) : sum (l1 ++ l2) = sum l1 + sum l2.
Proof.
  induction l1 as [|x l1 IH]; simpl.
  - reflexivity.
  - rewrite !sum_cons, IH. lia.
Qed.

Lemma sum_nonneg (l : list Z) : Forall (fun x => 0 <= x) l -> 0 <= sum l.
Proof.
  induction 1 as [|x l Hx _ IH].
  - reflexivity.
  - rewrite sum_cons. lia.
Qed.

(** *** Every detector only appends, and what it appends depends on the
    text alone *)

Lemma appends_id : appends (fun self => self).
Proof. intros self. simpl. rewrite !app_nil_r. auto. Qed.

Lemma appends_add_hotspot (h : Hotspot) : appends (add_hotspot h).
Proof. intros self. simpl. rewrite app_nil_r. auto. Qed.

Lemma appends_add_optimization (o : Optimization) :
  appends (add_optimization o).
Proof. intros self. simpl. rewrite app_nil_r. auto. Qed.

Lemma appends_comp (f g : State -> State) :
  appends f -> appends g -> appends (fun self => g (f self)).
Proof.
  intros Hf Hg self.
  destruct (Hg (f self)) as [H1 H2]. destruct (Hf self) as [H3 H4].
  destruct (Hg (f init)) as [H5 H6].
  rewrite H1, H2, H3, H4, H5, H6, !app_assoc. auto.
Qed.

Lemma appends_if (b : bool) (f g : State -> State) :
  appends f -> appends g -> appends (fun self => if b then f self else g self).
Proof. destruct b; auto. Qed.

(** The two loops that append suggestions ([_check_constant_variables],
    [_check_struct_packing]): one suggestion per element that passes the
    test, in order. *)
Lemma fold_suggestions (T : Type) (test : T -> bool) (mk : T -> Optimization)
      (l : list T) (self : State) :
  let self' :=
    fold_left
      (fun self x => if test x then add_optimization (mk x) self else self)
      l self in
  optimizations self' = optimizations self ++ map mk (filter test l) /\
  gas_hotspots self' = gas_hotspots self.
Proof.
  revert self. induction l as [|x l IH]; intros self; simpl.
  - rewrite app_nil_r. auto.
  - destruct (IH (if test x then add_optimization (mk x) self else self))
      as [H1 H2].
    rewrite H1, H2. destruct (test x); simpl; auto.
    rewrite <- app_assoc. auto.
Qed.

Lemma appends_fold (T : Type) (test : T -> bool) (mk : T -> Optimization)
      (l : list T) :
  appends
    (fold_left
       (fun self x => if test x then add_optimization (mk x) self else self)
       l).
Proof.
  intros self.
  destruct (fold_suggestions test mk l self) as [H1 H2].
  destruct (fold_suggestions test mk l init) as [H3 H4].
  simpl in *. rewrite H1, H2, H3, H4. simpl. rewrite app_nil_r. auto.
Qed.

Lemma appends_storage code : appends (analyze_storage_usage code).
Proof. apply appends_add_hotspot. Qed.

Lemma appends_loops code : appends (analyze_loop_patterns code).
Proof.
  unfold analyze_loop_patterns.
  destruct (map (group 1) (findall for_loops_re code));
    [destruct (map (group 1) (findall while_loops_re code))|];
    try apply appends_id; apply appends_add_hotspot.
Qed.

Lemma appends_functions code : appends (analyze_function_patterns code).
Proof. apply appends_add_hotspot. Qed.

Lemma appends_data_types code : appends (analyze_data_types code).
Proof.
  unfold analyze_data_types. intros self.
  destruct (Z.ltb (count bytes_re code) (count (whole_word "string") code));
    destruct (Z.ltb (count uint_re code * 2)
                    (count (whole_word "uint256") code));
    simpl; rewrite ?app_nil_r, <- ?app_assoc; auto.
Qed.

Lemma appends_arrays code : appends (analyze_array_operations code).
Proof.
  unfold analyze_array_operations.
  apply appends_if; [apply appends_add_hotspot | apply appends_id].
Qed.

Lemma appends_mappings code : appends (analyze_mapping_operations code).
Proof.
  unfold analyze_mapping_operations.
  apply appends_if; [apply appends_add_hotspot | apply appends_id].
Qed.

Lemma appends_constants code : appends (_check_constant_variables code).
Proof.
  exact (appends_fold (fun mt => Re.search literal_re (group 2 mt))
           (fun mt => constant_suggestion (group 1 mt)) _).
Qed.

Lemma appends_visibility code : appends (_check_function_visibility code).
Proof.
  unfold _check_function_visibility.
  apply appends_if; [apply appends_add_optimization | apply appends_id].
Qed.

Lemma appends_require code : appends (_check_require_statements code).
Proof.
  unfold _check_require_statements.
  apply appends_if; [apply appends_add_optimization | apply appends_id].
Qed.

Lemma appends_events code : appends (_check_event_usage code).
Proof.
  unfold _check_event_usage.
  apply appends_if; [apply appends_add_optimization | apply appends_id].
Qed.

Lemma appends_structs code : appends (_check_struct_packing code).
Proof.
  unfold _check_struct_packing.
  exact (appends_fold _ (fun _ => mkOptimization STRUCT_PACKING _ 2000) _).
Qed.

Lemma appends_suggest code : appends (suggest_optimizations code).
Proof.
  pose proof (appends_comp (appends_constants code)
                (appends_visibility code)) as H1.
  pose proof (appends_comp H1 (appends_require code)) as H2.
  pose proof (appends_comp H2 (appends_events code)) as H3.
  exact (appends_comp H3 (appends_structs code)).
Qed.

Lemma appends_run code : appends (run_detectors code).
Proof.
  pose proof (appends_comp (appends_storage code) (appends_loops code)) as H1.
  pose proof (appends_comp H1 (appends_functions code)) as H2.
  pose proof (appends_comp H2 (appends_data_types code)) as H3.
  pose proof (appends_comp H3 (appends_arrays code)) as H4.
  pose proof (appends_comp H4 (appends_mappings code)) as H5.
  exact (appends_comp H5 (appends_suggest code)).
Qed.

(** Detectors that only suggest leave the hotspots alone. *)
Lemma data_types_hotspots code self :
  gas_hotspots (analyze_data_types code self) = gas_hotspots self.
Proof.
  unfold analyze_data_types.
  destruct (Z.ltb (count bytes_re code) (count (whole_word "string") code));
    destruct (Z.ltb (count uint_re code * 2)
                    (count (whole_word "uint256") code));
    reflexivity.
Qed.

Lemma suggest_hotspots code self :
  gas_hotspots (suggest_optimizations code self) = gas_hotspots self.
Proof.
  unfold suggest_optimizations, _check_struct_packing. cbv zeta.
  rewrite (proj2 (fold_suggestions _ (fun _ => mkOptimization _ _ _) _ _)).
  unfold _check_event_usage.
  destruct (Z.ltb _ _); cbn [gas_hotspots add_optimization];
    unfold _check_require_statements;
    destruct (andb _ _); cbn [gas_hotspots add_optimization];
    unfold _check_function_visibility;
    destruct (Z.ltb _ _); cbn [gas_hotspots add_optimization];
    unfold _check_constant_variables;
    apply (proj2 (fold_suggestions
                    (fun mt => Re.search literal_re (group 2 mt))
                    (fun mt => constant_suggestion (group 1 mt)) _ _)).
Qed.

(** The hotspots of a run on a fresh analyzer, detector by detector. *)
Lemma run_hotspots code :
  gas_hotspots (run_detectors code init) =
  gas_hotspots (analyze_storage_usage code init) ++
  gas_hotspots (analyze_loop_patterns code init) ++
  gas_hotspots (analyze_function_patterns code init) ++
  gas_hotspots (analyze_array_operations code init) ++
  gas_hotspots (analyze_mapping_operations code init).
Proof.
  unfold run_detectors. cbv zeta.
  rewrite suggest_hotspots.
  rewrite (proj1 (appends_mappings code _)).
  rewrite (proj1 (appends_arrays code _)).
  rewrite data_types_hotspots.
  rewrite (proj1 (appends_functions code _)).
  rewrite (proj1 (appends_loops code _)).
  rewrite <- !app_assoc. reflexivity.
Qed.

(** *** Costs and savings are never negative *)

Lemma nonneg_init : nonneg init.
Proof. split; constructor. Qed.

Lemma nonneg_add_hotspot h self :
  0 <= estimated_cost h -> nonneg self -> nonneg (add_hotspot h self).
Proof.
  intros Hh [H1 H2]. split; cbn [gas_hotspots optimizations add_hotspot]; auto.
  apply Forall_app. auto.
Qed.

Lemma nonneg_add_optimization o self :
  0 <= gas_savings o -> nonneg self -> nonneg (add_optimization o self).
Proof.
  intros Ho [H1 H2].
  split; cbn [gas_hotspots optimizations add_optimization]; auto.
  apply Forall_app. auto.
Qed.

Lemma nonneg_fold (T : Type) (test : T -> bool) (mk : T -> Optimization)
      (l : list T) (self : State) :
  (forall x, 0 <= gas_savings (mk x)) -> nonneg self ->
  nonneg (fold_left
            (fun self x => if test x then add_optimization (mk x) self else self)
            l self).
Proof.
  intros Hmk. revert self. induction l as [|x l IH]; intros self H; simpl; auto.
  apply IH. destruct (test x); auto using nonneg_add_optimization.
Qed.

Lemma count_expensive_from (loops : list (list ascii)) (acc : Z) :
  0 <= acc ->
  0 <= fold_left
         (fun expensive_in_loops loop =>
            let e1 := if Re.search indexed_assign_re loop
                      then expensive_in_loops + 1 else expensive_in_loops in
            if Re.search dotted_call_re loop then e1 + 1 else e1)
         loops acc.
Proof.
  revert acc. induction loops as [|b loops IH]; intros acc H; simpl; auto.
  apply IH.
  destruct (Re.search indexed_assign_re b), (Re.search dotted_call_re b); lia.
Qed.

Lemma count_expensive_nonneg loops : 0 <= count_expensive loops.
Proof. apply count_expensive_from. lia. Qed.

Ltac counts_nonneg :=
  repeat match goal with
         | |- context [count ?r ?c] =>
             let n := fresh "n" in
             pose proof (count_nonneg r c);
             generalize dependent (count r c); intros n ?
         | |- context [@len ?T ?l] =>
             let n := fresh "n" in
             pose proof (@len_nonneg T l);
             generalize dependent (@len T l); intros n ?
         | |- context [count_expensive ?l] =>
             let n := fresh "n" in
             pose proof (count_expensive_nonneg l);
             generalize dependent (count_expensive l); intros n ?
         end.

Lemma nonneg_storage code self :
  nonneg self -> nonneg (analyze_storage_usage code self).
Proof.
  intros H. apply nonneg_add_hotspot; auto.
  cbn [estimated_cost]. unfold storage_cost. counts_nonneg. lia.
Qed.

Lemma nonneg_loops code self :
  nonneg self -> nonneg (analyze_loop_patterns code self).
Proof.
  intros H. unfold analyze_loop_patterns.
  destruct (map (group 1) (findall for_loops_re code)) as [|b bs];
    [destruct (map (group 1) (findall while_loops_re code)) as [|b' bs']|];
    auto; apply nonneg_add_hotspot; auto;
    cbn [estimated_cost]; counts_nonneg; lia.
Qed.

Lemma nonneg_functions code self :
  nonneg self -> nonneg (analyze_function_patterns code self).
Proof.
  intros H. apply nonneg_add_hotspot; auto.
  cbn [estimated_cost]. counts_nonneg. lia.
Qed.

Lemma nonneg_data_types code self :
  nonneg self -> nonneg (analyze_data_types code self).
Proof.
  intros H. unfold analyze_data_types.
  destruct (Z.ltb (count bytes_re code) (count (whole_word "string") code));
    destruct (Z.ltb (count uint_re code * 2)
                    (count (whole_word "uint256") code));
    auto; repeat (apply nonneg_add_optimization; auto);
    cbn [gas_savings]; counts_nonneg; lia.
Qed.

Lemma nonneg_arrays code self :
  nonneg self -> nonneg (analyze_array_operations code self).
Proof.
  intros H. unfold analyze_array_operations.
  destruct (Z.ltb 0 _); auto. apply nonneg_add_hotspot; auto.
  cbn [estimated_cost]. counts_nonneg. lia.
Qed.

Lemma nonneg_mappings code self :
  nonneg self -> nonneg (analyze_mapping_operations code self).
Proof.
  intros H. unfold analyze_mapping_operations.
  destruct (Z.ltb 0 _); auto. apply nonneg_add_hotspot; auto.
  cbn [estimated_cost]. counts_nonneg. lia.
Qed.

Lemma nonneg_constants code self :
  nonneg self -> nonneg (_check_constant_variables code self).
Proof.
  intros H.
  apply (nonneg_fold (fun mt => Re.search literal_re (group 2 mt))
           (fun mt => constant_suggestion (group 1 mt))); auto.
  intros. cbn [gas_savings constant_suggestion]. lia.
Qed.

Lemma nonneg_visibility code self :
  nonneg self -> nonneg (_check_function_visibility code self).
Proof.
  intros H. unfold _check_function_visibility.
  destruct (Z.ltb 0 _); auto. apply nonneg_add_optimization; auto.
  cbn [gas_savings]. counts_nonneg. lia.
Qed.

Lemma nonneg_require code self :
  nonneg self -> nonneg (_check_require_statements code self).
Proof.
  intros H. unfold _check_require_statements.
  destruct (andb _ _); auto. apply nonneg_add_optimization; auto.
  cbn [gas_savings]. counts_nonneg. lia.
Qed.

(** The difference [events - emits] is only taken when it is positive. *)
Lemma nonneg_events code self :
  nonneg self -> nonneg (_check_event_usage code self).
Proof.
  intros H. unfold _check_event_usage.
  destruct (Z.ltb_spec (count (keyword_name "emit") code)
                       (count (keyword_name "event") code)) as [Hlt|Hge];
    auto.
  apply nonneg_add_optimization; auto. cbn [gas_savings]. lia.
Qed.

Lemma nonneg_structs code self :
  nonneg self -> nonneg (_check_struct_packing code self).
Proof.
  intros H. unfold _check_struct_packing.
  apply (nonneg_fold _ (fun _ => mkOptimization STRUCT_PACKING _ 2000)); auto.
  intros. cbn [gas_savings]. lia.
Qed.

Lemma nonneg_suggest code self :
  nonneg self -> nonneg (suggest_optimizations code self).
Proof.
  intros H. unfold suggest_optimizations. cbv zeta.
  apply nonneg_structs, nonneg_events, nonneg_require, nonneg_visibility,
    nonneg_constants, H.
Qed.

Lemma nonneg_run code self : nonneg self -> nonneg (run_detectors code self).
Proof.
  intros H. unfold run_detectors. cbv zeta.
  apply nonneg_suggest, nonneg_mappings, nonneg_arrays, nonneg_data_types,
    nonneg_functions, nonneg_loops, nonneg_storage, H.
Qed.

Lemma total_cost_nonneg code :
  0 <= sum (map estimated_cost (gas_hotspots (run_detectors code init))).
Proof.
  apply sum_nonneg. apply Forall_map.
  apply (proj1 (nonneg_run code nonneg_init)).
Qed.

Lemma run_nonneg code : nonneg (run_detectors code init).
Proof. apply nonneg_run, nonneg_init. Qed.

(** *** The claims about the report *)

(** C6.  For every source text, the empty one included, every
    [estimated_cost] of a hotspot and every [gas_savings] of a suggestion
    in the report is a non-negative integer. *)
Theorem costs_and_savings_nonneg (path now code : string) :
  Forall (fun h => 0 <= estimated_cost h)
         (report_hotspots (analyze path now code)) /\
  Forall (fun o => 0 <= gas_savings o)
         (report_optimizations (analyze path now code)).
Proof.
  unfold analyze, gas_report.
  cbn [report_hotspots report_optimizations].
  exact (run_nonneg code).
Qed.

(** C1.  For every source text the efficiency score of the summary is
    [clamp(0, 100, 100 - floor(total_estimated_cost / 1000))], and so lies
    between 0 and 100. *)
Theorem efficiency_score_clamped (path now code : string) :
  let s := summary (analyze path now code) in
  efficiency_score s = clamp 0 100 (100 - total_estimated_cost s / 1000) /\
  0 <= efficiency_score s <= 100.
Proof.
  unfold analyze, gas_report, clamp.
  cbn [summary efficiency_score total_estimated_cost].
  pose proof (total_cost_nonneg code) as H.
  set (t := sum (map estimated_cost (gas_hotspots (run_detectors code init))))
    in *.
  assert (0 <= t / 1000) by (apply Z.div_pos; lia).
  lia.
Qed.

(** C10.  For every source text the hotspot sequence starts with the
    STORAGE_USAGE record and contains the FUNCTION_CALLS record, so that
    there are at least two hotspots; LOOP_OPERATIONS, ARRAY_OPERATIONS and
    MAPPING_OPERATIONS records, when present, stand in the order storage,
    loops, functions, arrays, mappings. *)
Theorem hotspot_order (path now code : string) :
  exists loops arrays mappings : bool,
    map h_type (report_hotspots (analyze path now code)) =
      STORAGE_USAGE :: (if loops then [LOOP_OPERATIONS] else []) ++
      FUNCTION_CALLS :: (if arrays then [ARRAY_OPERATIONS] else []) ++
      (if mappings then [MAPPING_OPERATIONS] else []) /\
    2 <= hotspot_count (summary (analyze path now code)).
Proof.
  unfold analyze, gas_report.
  cbn [report_hotspots summary hotspot_count].
  rewrite run_hotspots.
  unfold analyze_storage_usage, analyze_function_patterns.
  cbn [gas_hotspots add_hotspot init app].
  assert (Hl : exists b : bool,
             map h_type (gas_hotspots (analyze_loop_patterns code init)) =
             if b then [LOOP_OPERATIONS] else []).
  { unfold analyze_loop_patterns.
    destruct (map (group 1) (findall for_loops_re code));
      [destruct (map (group 1) (findall while_loops_re code))|];
      [exists false | exists true | exists true]; reflexivity. }
  assert (Ha : exists b : bool,
             map h_type (gas_hotspots (analyze_array_operations code init)) =
             if b then [ARRAY_OPERATIONS] else []).
  { unfold analyze_array_operations.
    destruct (Z.ltb 0 _); [exists true | exists false]; reflexivity. }
  assert (Hm : exists b : bool,
             map h_type (gas_hotspots (analyze_mapping_operations code init)) =
             if b then [MAPPING_OPERATIONS] else []).
  { unfold analyze_mapping_operations.
    destruct (Z.ltb 0 _); [exists true | exists false]; reflexivity. }
  destruct Hl as [bl Hl], Ha as [ba Ha], Hm as [bm Hm].
  exists bl, ba, bm. split.
  - cbn [map]. rewrite !map_app. cbn [map]. rewrite !map_app.
    rewrite Hl, Ha, Hm. reflexivity.
  - unfold len. rewrite length_cons, !length_app, length_cons. lia.
Qed.

(** C4.  The empty text gives the two unconditional hotspots with cost 0
    and nothing else: no loop, array or mapping hotspot, no visibility,
    error-style, event or struct-packing suggestion, and an efficiency
    score of exactly 100. *)
Theorem empty_source_report (path now : string) :
  analyze path now "" = empty_report path now.
Proof. vm_compute. reflexivity. Qed.

(** An instance serves one call: a second call on the same instance
    appends to the lists the first one has left. *)
Lemma second_call_accumulates (fs : string -> read_result) (now path code : string) :
  fs path = FileText code ->
  let once := fst (analyze_contract fs true now path init) in
  let twice := fst (analyze_contract fs true now path once) in
  gas_hotspots twice = gas_hotspots once ++ gas_hotspots once /\
  optimizations twice = optimizations once ++ optimizations once.
Proof.
  intros H. unfold analyze_contract. rewrite H. cbn [fst].
  apply appends_run.
Qed.

(** C3.  The storage hotspot costs 20000 per declaration match and 5000
    per assignment match, and is MEDIUM above ten declarations, LOW
    otherwise; the contract with fifteen [uint256] declarations and five
    assignments gives 325000 and MEDIUM. *)
Theorem storage_usage_hotspot :
  (forall code self,
      exists h,
        analyze_storage_usage code self = add_hotspot h self /\
        h_type h = STORAGE_USAGE /\
        estimated_cost h =
          count storage_vars_re code * 20000 +
          count storage_writes_re code * 5000 /\
        h_severity h =
          if Z.ltb 10 (count storage_vars_re code) then MEDIUM else LOW) /\
  (count storage_vars_re storage_heavy_contract = 15 /\
   count storage_writes_re storage_heavy_contract = 5 /\
   map (fun h => (h_type h, h_severity h, estimated_cost h))
       (gas_hotspots (analyze_storage_usage storage_heavy_contract init)) =
     [(STORAGE_USAGE, MEDIUM, 325000)]).
Proof.
  split.
  - intros code self. eexists. split; [reflexivity|].
    cbn [h_type estimated_cost h_severity]. auto.
  - repeat split; vm_compute; reflexivity.
Qed.

(** *** Loops *)

Lemma len_cons (T : Type) (x : T) (l : list T) : len (x :: l) = 1 + len l.
Proof. unfold len. rewrite length_cons, Nat2Z.inj_succ. lia. Qed.

Lemma count_expensive_acc (loops : list (list ascii)) (acc : Z) :
  fold_left
    (fun expensive_in_loops loop =>
       let e1 := if Re.search indexed_assign_re loop
                 then expensive_in_loops + 1 else expensive_in_loops in
       if Re.search dotted_call_re loop then e1 + 1 else e1)
    loops acc =
  acc + len (filter (Re.search indexed_assign_re) loops)
      + len (filter (Re.search dotted_call_re) loops).
Proof.
  revert acc. induction loops as [|b loops IH]; intros acc.
  - unfold len. simpl. lia.
  - cbn [fold_left filter]. rewrite IH.
    destruct (Re.search indexed_assign_re b), (Re.search dotted_call_re b);
      rewrite ?len_cons; lia.
Qed.

Lemma count_expensive_split (loops : list (list ascii)) :
  count_expensive loops =
  len (filter (Re.search indexed_assign_re) loops) +
  len (filter (Re.search dotted_call_re) loops).
Proof. unfold count_expensive. rewrite count_expensive_acc. lia. Qed.

Lemma tests_bounds (loops : list (list ascii)) :
  len (filter is_expensive loops) <=
    len (filter (Re.search indexed_assign_re) loops) +
    len (filter (Re.search dotted_call_re) loops)
    <= 2 * len (filter is_expensive loops).
Proof.
  induction loops as [|b loops IH].
  - unfold len. simpl. lia.
  - unfold is_expensive in *. cbn [filter].
    destruct (Re.search indexed_assign_re b), (Re.search dotted_call_re b);
      cbn [orb]; rewrite ?len_cons; lia.
Qed.

Lemma tests_positive (loops : list (list ascii)) :
  Z.ltb 0 (count_expensive loops) = existsb is_expensive loops.
Proof.
  rewrite count_expensive_split.
  induction loops as [|b loops IH].
  - reflexivity.
  - unfold is_expensive in *. cbn [filter existsb].
    pose proof (len_nonneg (filter (Re.search indexed_assign_re) loops)).
    pose proof (len_nonneg (filter (Re.search dotted_call_re) loops)).
    destruct (Re.search indexed_assign_re b), (Re.search dotted_call_re b);
      cbn [orb]; rewrite ?len_cons; auto;
      apply Z.ltb_lt; lia.
Qed.

(** C2.  At the loop [for (...) { balances[i] = token.balanceOf(i); }]
    the detector finds one loop and reports two "with expensive
    operations": the body passes both tests and is counted once by each.
    The hotspot costs 21000, where one loop, expensive or not, costs at
    most 11000 by the claim and by the wording of the description. *)
Theorem one_loop_counted_twice :
  gas_hotspots (analyze_loop_patterns loop_with_both init) =
    [ mkHotspot LOOP_OPERATIONS HIGH
        "Found 1 loops, 2 with expensive operations" 21000
        "Minimize storage operations and external calls in loops" ] /\
  len (loop_bodies loop_with_both) = 1 /\
  len (filter is_expensive (loop_bodies loop_with_both)) = 1 /\
  claimed_loop_cost loop_with_both = 11000.
Proof. vm_compute. repeat split. Qed.

(** What the loop detector computes, on every text.  No hotspot when no
    loop is found; otherwise 1000 per loop plus 10000 per inner test
    passed, HIGH when some loop is expensive and MEDIUM otherwise.  The
    count of tests passed lies between the number of expensive loops and
    twice that number, and is that number when no body passes both
    tests, as for the [for] loop with one dotted call: 11000 and HIGH. *)
Lemma loop_hotspot :
  (forall code self,
      let loops := loop_bodies code in
      let tests := len (filter (Re.search indexed_assign_re) loops) +
                   len (filter (Re.search dotted_call_re) loops) in
      match loops with
      | [] => analyze_loop_patterns code self = self
      | _ :: _ =>
          exists h,
            analyze_loop_patterns code self = add_hotspot h self /\
            h_type h = LOOP_OPERATIONS /\
            estimated_cost h = len loops * 1000 + tests * 10000 /\
            h_severity h =
              if existsb is_expensive loops then HIGH else MEDIUM
      end /\
      len (filter is_expensive loops) <= tests
        <= 2 * len (filter is_expensive loops)) /\
  map (fun h => (h_type h, h_severity h, estimated_cost h))
      (gas_hotspots (analyze_loop_patterns loop_with_call init)) =
    [(LOOP_OPERATIONS, HIGH, 11000)].
Proof.
  split; [|vm_compute; reflexivity].
  intros code self loops tests. split; [|apply tests_bounds].
  unfold analyze_loop_patterns.
  fold (loop_bodies code). fold loops.
  rewrite tests_positive, count_expensive_split. fold tests.
  unfold loops at 1, loop_bodies.
  destruct (map (group 1) (findall for_loops_re code)) as [|b bs] eqn:Ef;
    [destruct (map (group 1) (findall while_loops_re code)) as [|b' bs'] eqn:Ew|];
    cbn [app]; auto.
  - eexists. split; [reflexivity|].
    cbn [h_type estimated_cost h_severity]. repeat split.
    unfold loops, loop_bodies. rewrite Ef, Ew. rewrite len_app. reflexivity.
  - eexists. split; [reflexivity|].
    cbn [h_type estimated_cost h_severity]. repeat split.
    unfold loops, loop_bodies. rewrite Ef. rewrite len_app. reflexivity.
Qed.

(** *** The matcher on text of a known shape *)

Ltac each_ascii c :=
  destruct c as [[|] [|] [|] [|] [|] [|] [|] [|]].

Lemma digit_is_word (c : ascii) : is_digit c = true -> is_word c = true.
Proof. each_ascii c; vm_compute; intro; congruence. Qed.

Lemma hex_is_word (c : ascii) : is_hex c = true -> is_word c = true.
Proof. each_ascii c; vm_compute; intro; congruence. Qed.

Lemma forallb_impl (T : Type) (f g : T -> bool) (l : list T) :
  (forall x, f x = true -> g x = true) ->
  forallb f l = true -> forallb g l = true.
Proof.
  intros Hfg. induction l as [|x l IH]; simpl; auto.
  intros H. apply andb_true_iff in H. destruct H as [H1 H2].
  rewrite (Hfg _ H1), (IH H2). reflexivity.
Qed.

Lemma last_char_app (p : option ascii) (t1 t2 : list ascii) :
  last_char p (t1 ++ t2) = last_char (last_char p t1) t2.
Proof. revert p. induction t1 as [|x t1 IH]; intros p; simpl; auto. Qed.

Lemma last_char_word (p : option ascii) (t : list ascii) :
  t <> [] -> forallb is_word t = true -> word_before (last_char p t) = true.
Proof.
  revert p. induction t as [|x t IH]; intros p Hne H; [congruence|].
  simpl in H. apply andb_true_iff in H. destruct H as [Hx Ht].
  destruct t as [|y t]; [exact Hx|].
  apply (IH (Some x)); [discriminate | exact Ht].
Qed.

Lemma m_lit_app (A : Type) (l : list ascii) (p : option ascii)
      (rest : list ascii) (c : caps) (k : cont A) :
  m_lit l p (l ++ rest) c k = k (last_char p l) rest c.
Proof.
  revert p. induction l as [|x l IH]; intros p; simpl; auto.
  rewrite Ascii.eqb_refl. apply IH.
Qed.

(** A greedy run succeeds as soon as the rest of the pattern succeeds
    after some run of the class. *)
Lemma m_star_some (A : Type) (cs : cset) (run : list ascii) :
  forall (p : option ascii) (rest : list ascii) (c : caps) (k : cont A),
    forallb (in_cset cs) run = true ->
    k (last_char p run) rest c <> None ->
    m_star cs p (run ++ rest) c k <> None.
Proof.
  induction run as [|x run IH]; intros p rest c k Hrun Hk.
  - simpl in *. destruct rest as [|y rest]; simpl; auto.
    destruct (in_cset cs y); auto.
    destruct (m_star cs (Some y) rest c k); [discriminate | exact Hk].
  - simpl in Hrun. apply andb_true_iff in Hrun. destruct Hrun as [Hx Hrun].
    simpl. rewrite Hx.
    specialize (IH (Some x) rest c k Hrun Hk).
    destruct (m_star cs (Some x) (run ++ rest) c k); [discriminate|congruence].
Qed.

Lemma alt_first (A : Type) (r1 r2 : regex) p s c (k : cont A) :
  m r1 p s c k <> None -> m (Alt r1 r2) p s c k <> None.
Proof. simpl. destruct (m r1 p s c k); [discriminate | congruence]. Qed.

Lemma alt_second (A : Type) (r1 r2 : regex) p s c (k : cont A) :
  m r2 p s c k <> None -> m (Alt r1 r2) p s c k <> None.
Proof. simpl. destruct (m r1 p s c k); [discriminate | auto]. Qed.

Lemma search_from_eq (r : regex) (p : option ascii) (s : list ascii) :
  search_from r p s =
  match match_here r false p s with
  | Some (_, mt) => Some mt
  | None =>
      match s with
      | [] => None
      | y :: s' => search_from r (Some y) s'
      end
  end.
Proof. destruct s; reflexivity. Qed.

(** [search] finds a match that starts after any prefix. *)
Lemma search_from_app (r : regex) (pre : list ascii) :
  forall (p : option ascii) (s : list ascii),
    match_here r false (last_char p pre) s <> None ->
    search_from r p (pre ++ s) <> None.
Proof.
  induction pre as [|x pre IH]; intros p s H.
  - simpl in *. rewrite search_from_eq.
    destruct (match_here r false p s) as [[n mt]|]; [discriminate|congruence].
  - simpl app. rewrite search_from_eq.
    destruct (match_here r false p (x :: pre ++ s)) as [[n mt]|];
      [discriminate|].
    apply IH. exact H.
Qed.

(** *** Constant candidates *)

Lemma plain_token_word (tok : list ascii) :
  is_plain_token tok = true -> tok <> [] /\ forallb is_word tok = true.
Proof.
  unfold is_plain_token. intros H.
  apply orb_true_iff in H. destruct H as [H|H];
    [apply orb_true_iff in H; destruct H as [H|H]|].
  - destruct tok as [|a [|b [|h hs]]]; try discriminate. split; [discriminate|].
    unfold is_hex_literal in H.
    apply andb_true_iff in H. destruct H as [H Hh].
    apply andb_true_iff in H. destruct H as [Ha Hb].
    apply Ascii.eqb_eq in Ha. apply Ascii.eqb_eq in Hb. subst a b.
    change (forallb is_word ("0"%char :: "x"%char :: h :: hs))
      with (forallb is_word (h :: hs)).
    exact (forallb_impl _ _ _ hex_is_word Hh).
  - destruct tok as [|d ds]; try discriminate. split; [discriminate|].
    exact (forallb_impl _ _ _ digit_is_word H).
  - unfold is_boolean_literal, text_eqb in H.
    destruct (list_eq_dec ascii_dec tok (list_ascii_of_string "true"));
      [subst tok; split; [discriminate | reflexivity]|].
    destruct (list_eq_dec ascii_dec tok (list_ascii_of_string "false"));
      [subst tok; split; [discriminate | reflexivity]|].
    discriminate.
Qed.

(** The alternatives of [literal_re] on a hex, decimal or boolean token
    followed by anything. *)
Lemma literal_alternatives (A : Type) (tok post : list ascii)
      (p : option ascii) (c : caps) (k : cont A) :
  is_plain_token tok = true ->
  k (last_char p tok) post c <> None ->
  m (any_of (Lit "0x" >> Plus Hex)
            [Plus Digit; Lit "true"; Lit "false";
             quote >> Star (Not dquote) >> quote])
    p (tok ++ post) c k <> None.
Proof.
  unfold is_plain_token. intros H Hk.
  apply orb_true_iff in H. destruct H as [H|H];
    [apply orb_true_iff in H; destruct H as [H|H]|].
  - destruct tok as [|a [|b [|h hs]]]; try discriminate.
    unfold is_hex_literal in H.
    apply andb_true_iff in H. destruct H as [H Hh].
    apply andb_true_iff in H. destruct H as [Ha Hb].
    apply Ascii.eqb_eq in Ha. apply Ascii.eqb_eq in Hb. subst a b.
    cbn [any_of]. apply alt_first. cbn [m].
    change (list_ascii_of_string "0x") with ["0"%char; "x"%char].
    change (("0"%char :: "x"%char :: h :: hs) ++ post)
      with (["0"%char; "x"%char] ++ (h :: hs ++ post)).
    rewrite m_lit_app.
    simpl in Hh. apply andb_true_iff in Hh. destruct Hh as [Hh Hhs].
    cbn [in_cset]. rewrite Hh.
    apply m_star_some; [exact Hhs | exact Hk].
  - destruct tok as [|d ds]; try discriminate.
    cbn [any_of]. apply alt_second, alt_first. cbn [m app].
    simpl in H. apply andb_true_iff in H. destruct H as [Hd Hds].
    cbn [in_cset]. rewrite Hd.
    apply m_star_some; [exact Hds | exact Hk].
  - unfold is_boolean_literal, text_eqb in H.
    destruct (list_eq_dec ascii_dec tok (list_ascii_of_string "true"));
      [subst tok|
       destruct (list_eq_dec ascii_dec tok (list_ascii_of_string "false"));
       [subst tok | discriminate]].
    + cbn [any_of]. apply alt_second, alt_second, alt_first. cbn [m].
      rewrite m_lit_app. exact Hk.
    + cbn [any_of]. apply alt_second, alt_second, alt_second, alt_first.
      cbn [m]. rewrite m_lit_app. exact Hk.
Qed.

(** A hex, decimal or boolean token that stands alone as a word is found
    by [literal_re] wherever it is. *)
Lemma literal_token_found (pre tok post : list ascii) :
  is_plain_token tok = true ->
  word_before (last_char None pre) = false ->
  word_after post = false ->
  Re.search literal_re (pre ++ tok ++ post) = true.
Proof.
  intros Htok Hpre Hpost.
  destruct (plain_token_word tok Htok) as [Hne Hw].
  assert (Hfound : search_from literal_re None (pre ++ tok ++ post) <> None).
  { apply search_from_app.
    unfold match_here, literal_re. cbn [m].
    assert (Hafter : word_after (tok ++ post) = true).
    { destruct tok as [|x tok]; [congruence|].
      simpl in Hw. apply andb_true_iff in Hw. exact (proj1 Hw). }
    rewrite Hpre, Hafter. cbn [xorb].
    apply literal_alternatives; [exact Htok|].
    rewrite (last_char_word _ Hne Hw), Hpost. cbn [xorb andb].
    discriminate. }
  unfold Re.search.
  destruct (search_from literal_re None (pre ++ tok ++ post));
    [reflexivity | congruence].
Qed.

(** C9, counterexample.  For [x = y + 1;] the detector emits a
    suggestion, although the right-hand side [y + 1] is not a literal: no
    assignment of this text has a literal on its right. *)
Lemma sum_is_no_literal :
  map gas_savings
      (optimizations (_check_constant_variables sum_statement init)) = [2300] /\
  literal_assignments sum_statement = [] /\
  len (optimizations (_check_constant_variables sum_statement init))
    <> len (literal_assignments sum_statement).
Proof. vm_compute. repeat split. discriminate. Qed.

(** The suggestion is per assignment statement: a variable assigned twice
    is suggested twice.  And the quote alternative of [literal_re] sits
    between two [\b], so that a plain quoted string is not found. *)
Lemma assigned_twice_suggested_twice :
  map gas_savings
      (optimizations (_check_constant_variables assigned_twice init))
    = [2300; 2300].
Proof. vm_compute. reflexivity. Qed.

Lemma quoted_string_not_found :
  is_literal_text quoted_abc = true /\
  Re.search literal_re quoted_abc = false.
Proof. vm_compute. split; reflexivity. Qed.

(** C9, amended.  The detector emits one CONSTANT_OPTIMIZATION suggestion,
    each with the flat saving 2300, per match of the assignment pattern
    [name = value;] in whose value [literal_re] finds a literal; in
    particular per match whose value contains a hex, decimal or boolean
    literal standing as a word of its own.  The value need not be the
    literal alone. *)
Theorem constant_candidates (code : string) :
  let found := optimizations (_check_constant_variables code init) in
  found =
    map (fun mt => constant_suggestion (group 1 mt))
        (filter (fun mt => Re.search literal_re (group 2 mt))
                (findall variable_assignments_re code)) /\
  Forall (fun o => o_type o = CONSTANT_OPTIMIZATION /\ gas_savings o = 2300)
         found /\
  (forall mt pre tok post,
      In mt (findall variable_assignments_re code) ->
      group 2 mt = pre ++ tok ++ post ->
      is_plain_token tok = true ->
      word_before (last_char None pre) = false ->
      word_after post = false ->
      In (constant_suggestion (group 1 mt)) found).
Proof.
  intros found.
  assert (Hfound :
            found =
            map (fun mt => constant_suggestion (group 1 mt))
                (filter (fun mt => Re.search literal_re (group 2 mt))
                        (findall variable_assignments_re code))).
  { unfold found, _check_constant_variables.
    rewrite (proj1 (fold_suggestions
                      (fun mt => Re.search literal_re (group 2 mt))
                      (fun mt => constant_suggestion (group 1 mt)) _ init)).
    reflexivity. }
  split; [exact Hfound|]. split.
  - rewrite Hfound. apply Forall_map. apply Forall_forall.
    intros mt _. split; reflexivity.
  - intros mt pre tok post Hin Hval Htok Hpre Hpost.
    rewrite Hfound.
    apply (in_map (fun mt => constant_suggestion (group 1 mt))).
    apply filter_In. split; [exact Hin|].
    rewrite Hval. apply literal_token_found; assumption.
Qed.

Lemma constant_candidates_witness :
  In (constant_suggestion (list_ascii_of_string "x"))
     (optimizations (_check_constant_variables sum_statement init)).
Proof.
  apply (proj2 (proj2 (constant_candidates sum_statement))
           (hd (mkMatch [] []) (findall variable_assignments_re sum_statement))
           (list_ascii_of_string "y + ")
           (list_ascii_of_string "1")
           []).
  - vm_compute. left. reflexivity.
  - vm_compute. reflexivity.
  - vm_compute. reflexivity.
  - vm_compute. reflexivity.
  - vm_compute. reflexivity.
Defined.

(** *** The matcher only accepts what the pattern describes *)

Lemma m_lit_sound (A : Type) (l : list ascii) :
  forall p s c (k : cont A) a,
    m_lit l p s c k = Some a ->
    exists s', s = l ++ s' /\ k (last_char p l) s' c = Some a.
Proof.
  induction l as [|x l IH]; intros p s c k a H; simpl in *.
  - exists s. auto.
  - destruct s as [|y s]; [discriminate|].
    destruct (Ascii.eqb x y) eqn:E; [|discriminate].
    apply Ascii.eqb_eq in E. subst y.
    destruct (IH _ _ _ _ _ H) as [s' [Hs Hk]]. exists s'. subst s. auto.
Qed.

Lemma m_star_sound (A : Type) (cs : cset) (s : list ascii) :
  forall p c (k : cont A) a,
    m_star cs p s c k = Some a ->
    exists t s',
      s = t ++ s' /\ forallb (in_cset cs) t = true /\
      k (last_char p t) s' c = Some a.
Proof.
  induction s as [|y s IH]; intros p c k a H; simpl in H.
  - exists [], []. auto.
  - destruct (in_cset cs y) eqn:E.
    + destruct (m_star cs (Some y) s c k) as [a0|] eqn:E2.
      * inversion H; subst a0.
        destruct (IH _ _ _ _ E2) as [t [s' [Hs [Ht Hk]]]].
        exists (y :: t), s'. subst s. simpl. rewrite E, Ht. auto.
      * exists [], (y :: s). auto.
    + exists [], (y :: s). auto.
Qed.

Lemma m_sound (r : regex) :
  forall (A : Type) p s c (k : cont A) a,
    m r p s c k = Some a ->
    exists t s' c',
      s = t ++ s' /\ matches r p t /\ k (last_char p t) s' c' = Some a.
Proof.
  induction r as [l|cs|cs|cs|r1 IH1 r2 IH2|r1 IH1 r2 IH2|r1 IH1|n r1 IH1
                 | | |r1 IH1];
    intros A p s c k a H; simpl in H.
  - destruct (m_lit_sound _ _ _ _ _ H) as [s' [Hs Hk]].
    exists (list_ascii_of_string l), s', c. simpl. auto.
  - destruct s as [|y s]; [discriminate|].
    destruct (in_cset cs y) eqn:E; [|discriminate].
    exists [y], s, c. simpl. repeat split; auto. exists y. auto.
  - destruct (m_star_sound _ _ _ _ _ H) as [t [s' [Hs [Ht Hk]]]].
    exists t, s', c. simpl. auto.
  - destruct s as [|y s]; [discriminate|].
    destruct (in_cset cs y) eqn:E; [|discriminate].
    destruct (m_star_sound _ _ _ _ _ H) as [t [s' [Hs [Ht Hk]]]].
    exists (y :: t), s', c. subst s. simpl. rewrite E, Ht.
    repeat split; auto. discriminate.
  - destruct (IH1 _ _ _ _ _ _ H) as [t1 [s1 [c1 [Hs [Hm1 Hk1]]]]].
    destruct (IH2 _ _ _ _ _ _ Hk1) as [t2 [s2 [c2 [Hs2 [Hm2 Hk2]]]]].
    exists (t1 ++ t2), s2, c2. subst s s1.
    rewrite app_assoc, last_char_app. repeat split; auto.
    simpl. exists t1, t2. auto.
  - destruct (m r1 p s c k) as [a0|] eqn:E.
    + inversion H; subst a0.
      destruct (IH1 _ _ _ _ _ _ E) as [t [s' [c' [Hs [Hm Hk]]]]].
      exists t, s', c'. simpl. auto.
    + destruct (IH2 _ _ _ _ _ _ H) as [t [s' [c' [Hs [Hm Hk]]]]].
      exists t, s', c'. simpl. auto.
  - destruct (m r1 p s c k) as [a0|] eqn:E.
    + inversion H; subst a0.
      destruct (IH1 _ _ _ _ _ _ E) as [t [s' [c' [Hs [Hm Hk]]]]].
      exists t, s', c'. simpl. auto.
    + exists [], s, c. simpl. auto.
  - destruct (IH1 _ _ _ _ _ _ H) as [t [s' [c' [Hs [Hm Hk]]]]].
    eexists t, s', _. simpl. repeat split; eauto.
  - destruct (at_bol p) eqn:E; [|discriminate].
    exists [], s, c. simpl. auto.
  - destruct (xorb (word_before p) (word_after s)); [|discriminate].
    exists [], s, c. simpl. auto.
  - destruct (m r1 p s c (fun _ _ _ => Some tt)); [discriminate|].
    exists [], s, c. simpl. auto.
Qed.

(** A match of length [n] at a position is a text the pattern describes,
    made of the next [n] characters. *)
Lemma match_here_sound (r : regex) (adv : bool) p s n mt :
  match_here r adv p s = Some (n, mt) ->
  exists t s', s = t ++ s' /\ n = List.length t /\ matches r p t.
Proof.
  unfold match_here. intros H.
  destruct (m_sound _ _ _ _ _ H) as [t [s' [c' [Hs [Hm Hk]]]]].
  exists t, s'. repeat split; auto.
  cbv zeta in Hk.
  destruct (adv && Nat.eqb (List.length s - List.length s') 0)%bool;
    [discriminate|].
  inversion Hk. subst s. rewrite length_app. lia.
Qed.

End Props.

(* ================================================================== *)
(** ** Appending text to the source *)
(* ================================================================== *)

Module Append.
Import Re Patterns GasAnalyzer Spec Props.
Local Open Scope nat_scope.

(** *** Appending text and local patterns

    A match attempt of a local pattern on [s ++ ext] does what it does on
    [s], unless it runs past the end of [s]. *)

Lemma firstn_sub_app (s s' ext : list ascii) :
  firstn (List.length (s ++ ext) - List.length (s' ++ ext)) (s ++ ext) =
  firstn (List.length s - List.length s') s.
Proof.
  rewrite !length_app.
  replace (List.length s + List.length ext
           - (List.length s' + List.length ext))
    with (List.length s - List.length s') by lia.
  rewrite firstn_app.
  replace (List.length s - List.length s' - List.length s) with 0 by lia.
  rewrite firstn_O, app_nil_r. reflexivity.
Qed.

Section Stability.
Variables (A A' : Type) (same : A -> A' -> Prop) (beyond : A' -> Prop).
Variable ext : list ascii.

Lemma agree_overrun (x' : option A') :
  overrun beyond x' -> agree same beyond None x'.
Proof.
  intros [H|[a' [H Ha]]].
  - left. auto.
  - right. right. exists a'. auto.
Qed.

Lemma m_lit_over (l : list ascii) :
  forall p s c (k' : cont A'),
    k_overrun beyond ext k' -> List.length s < List.length ext ->
    overrun beyond (m_lit l p s c k').
Proof.
  induction l as [|x l IH]; intros p s c k' Hk Hs; simpl.
  - apply Hk. exact Hs.
  - destruct s as [|y s]; [left; reflexivity|].
    destruct (Ascii.eqb x y); [|left; reflexivity].
    apply IH; auto. simpl in Hs. lia.
Qed.

Lemma m_star_over (cs : cset) (s : list ascii) :
  forall p c (k' : cont A'),
    k_overrun beyond ext k' -> List.length s < List.length ext ->
    overrun beyond (m_star cs p s c k').
Proof.
  induction s as [|y s IH]; intros p c k' Hk Hs; simpl.
  - apply Hk. exact Hs.
  - destruct (in_cset cs y); [|apply Hk; exact Hs].
    assert (Hin : overrun beyond (m_star cs (Some y) s c k')).
    { apply IH; auto. simpl in Hs. lia. }
    destruct (m_star cs (Some y) s c k'); [exact Hin|].
    apply Hk. exact Hs.
Qed.

Lemma m_over (r : regex) :
  forall p s c (k' : cont A'),
    k_overrun beyond ext k' -> List.length s < List.length ext ->
    overrun beyond (m r p s c k').
Proof.
  induction r as [l|cs|cs|cs|r1 IH1 r2 IH2|r1 IH1 r2 IH2|r1 IH1|n r1 IH1
                 | | |r1 IH1];
    intros p s c k' Hk Hs; simpl.
  - apply m_lit_over; auto.
  - destruct s as [|y s]; [left; reflexivity|].
    destruct (in_cset cs y); [|left; reflexivity].
    apply Hk. simpl in Hs. lia.
  - apply m_star_over; auto.
  - destruct s as [|y s]; [left; reflexivity|].
    destruct (in_cset cs y); [|left; reflexivity].
    apply m_star_over; auto. simpl in Hs. lia.
  - apply IH1; auto. intros p1 s1 c1 H1. apply IH2; auto.
  - assert (H1 : overrun beyond (m r1 p s c k')) by (apply IH1; auto).
    destruct (m r1 p s c k'); [exact H1|]. apply IH2; auto.
  - assert (H1 : overrun beyond (m r1 p s c k')) by (apply IH1; auto).
    destruct (m r1 p s c k'); [exact H1|]. apply Hk; auto.
  - apply IH1; auto. intros p1 s1 c1 H1. apply Hk; auto.
  - destruct (at_bol p); [apply Hk; auto | left; reflexivity].
  - destruct (xorb (word_before p) (word_after s));
      [apply Hk; auto | left; reflexivity].
  - destruct (m r1 p s c (fun _ _ _ => Some tt));
      [left; reflexivity | apply Hk; auto].
Qed.

(** What consumes a character at the end of the shorter text ends in the
    appended text. *)
Lemma m_lit_over_end (x : ascii) (l : list ascii) p s c (k' : cont A') :
  k_overrun beyond ext k' -> List.length s <= List.length ext ->
  overrun beyond (m_lit (x :: l) p s c k').
Proof.
  intros Hk Hs. simpl. destruct s as [|y s]; [left; reflexivity|].
  destruct (Ascii.eqb x y); [|left; reflexivity].
  apply m_lit_over; auto; simpl in Hs; lia.
Qed.

Lemma set_over_end (cs : cset) p s c (k' : cont A') :
  k_overrun beyond ext k' -> List.length s <= List.length ext ->
  overrun beyond (m (Set_ cs) p s c k').
Proof.
  intros Hk Hs. simpl. destruct s as [|y s]; [left; reflexivity|].
  destruct (in_cset cs y); [|left; reflexivity].
  apply Hk; simpl in Hs; lia.
Qed.

Lemma plus_over_end (cs : cset) p s c (k' : cont A') :
  k_overrun beyond ext k' -> List.length s <= List.length ext ->
  overrun beyond (m (Plus cs) p s c k').
Proof.
  intros Hk Hs. simpl. destruct s as [|y s]; [left; reflexivity|].
  destruct (in_cset cs y); [|left; reflexivity].
  apply m_star_over; auto; simpl in Hs; lia.
Qed.

(** At the end of the shorter text a greedy run either gives way to the
    rest of the pattern there, or ends beyond. *)
Lemma m_star_at_end (cs : cset) p s c (k' : cont A') :
  k_overrun beyond ext k' -> List.length s <= List.length ext ->
  m_star cs p s c k' = k' p s c \/
  exists a', m_star cs p s c k' = Some a' /\ beyond a'.
Proof.
  intros Hk Hs. destruct s as [|y s]; [left; reflexivity|].
  simpl. destruct (in_cset cs y); [|left; reflexivity].
  assert (Hin : overrun beyond (m_star cs (Some y) s c k')).
  { apply m_star_over; auto; simpl in Hs; lia. }
  destruct Hin as [Hin|[a' [Hin Ha]]]; rewrite Hin.
  - left. reflexivity.
  - right. exists a'. auto.
Qed.

Lemma m_lit_stable (l : list ascii) :
  forall p s c (k : cont A) (k' : cont A'),
    k_agree same beyond ext k k' -> k_overrun beyond ext k' ->
    agree same beyond (m_lit l p s c k) (m_lit l p (s ++ ext) c k').
Proof.
  induction l as [|x l IH]; intros p s c k k' Hk Hov.
  - simpl. apply Hk.
  - destruct s as [|y s].
    + apply agree_overrun. apply m_lit_over_end; auto.
    + simpl. destruct (Ascii.eqb x y); [apply IH; auto|].
      left. auto.
Qed.

Lemma m_star_stable (cs : cset) (s : list ascii) :
  forall p c (k : cont A) (k' : cont A'),
    k_agree same beyond ext k k' -> k_overrun beyond ext k' ->
    agree same beyond (m_star cs p s c k) (m_star cs p (s ++ ext) c k').
Proof.
  induction s as [|y s IH]; intros p c k k' Hk Hov.
  - cbn [app].
    destruct (@m_star_at_end cs p ext c k' Hov (le_n (List.length ext)))
      as [H|[a' [H Ha]]]; rewrite H.
    + simpl. apply (Hk p [] c).
    + right. right. exists a'. auto.
  - simpl. destruct (in_cset cs y); [|apply (Hk p (y :: s) c)].
    destruct (IH (Some y) c k k' Hk Hov)
      as [[H1 H2]|[[a [a' [H1 [H2 H3]]]]|[a' [H2 H3]]]].
    + rewrite H1, H2. apply (Hk p (y :: s) c).
    + rewrite H1, H2. right. left. exists a, a'. auto.
    + rewrite H2. right. right. exists a'. auto.
Qed.

Lemma m_stable (r : regex) :
  local r = true ->
  forall p s c (k : cont A) (k' : cont A'),
    k_agree same beyond ext k k' -> k_overrun beyond ext k' ->
    agree same beyond (m r p s c k) (m r p (s ++ ext) c k').
Proof.
  induction r as [l|cs|cs|cs|r1 IH1 r2 IH2|r1 IH1 r2 IH2|r1 IH1|n r1 IH1
                 | | |r1 IH1];
    intros Hloc p s c k k' Hk Hov; simpl in Hloc; try discriminate.
  - simpl. apply m_lit_stable; auto.
  - destruct s as [|y s].
    + apply agree_overrun. apply set_over_end; auto.
    + simpl. destruct (in_cset cs y); [apply Hk|]. left. auto.
  - simpl. apply m_star_stable; auto.
  - destruct s as [|y s].
    + apply agree_overrun. apply plus_over_end; auto.
    + simpl. destruct (in_cset cs y); [apply m_star_stable; auto|].
      left. auto.
  - apply andb_true_iff in Hloc. destruct Hloc as [L1 L2].
    simpl. apply IH1; auto.
    + intros p1 s1 c1. apply IH2; auto.
    + intros p1 s1 c1 H1. apply m_over; auto.
  - apply andb_true_iff in Hloc. destruct Hloc as [L1 L2].
    simpl.
    destruct (IH1 L1 p s c k k' Hk Hov)
      as [[H1 H2]|[[a [a' [H1 [H2 H3]]]]|[a' [H2 H3]]]].
    + rewrite H1, H2. apply IH2; auto.
    + rewrite H1, H2. right. left. exists a, a'. auto.
    + rewrite H2. right. right. exists a'. auto.
  - simpl.
    destruct (IH1 Hloc p s c k k' Hk Hov)
      as [[H1 H2]|[[a [a' [H1 [H2 H3]]]]|[a' [H2 H3]]]].
    + rewrite H1, H2. apply Hk.
    + rewrite H1, H2. right. left. exists a, a'. auto.
    + rewrite H2. right. right. exists a'. auto.
  - simpl. apply IH1; auto.
    + intros p1 s1 c1. rewrite firstn_sub_app. apply Hk.
    + intros p1 s1 c1 H1. apply Hov. exact H1.
  - simpl. destruct (at_bol p); [apply Hk|]. left. auto.
Qed.

End Stability.

(** One attempt at a position: on the longer text it fails alike, gives
    the same match, or gives a match longer than what was left of the
    shorter text. *)
Lemma match_here_stable (r : regex) (adv : bool) p (s ext : list ascii) :
  local r = true ->
  agree (fun x x' : nat * rmatch => x = x')
        (fun x' : nat * rmatch => List.length s < fst x')
        (match_here r adv p s) (match_here r adv p (s ++ ext)).
Proof.
  intros Hloc. unfold match_here. apply m_stable; auto.
  - intros p1 s1 c1. cbv zeta. rewrite firstn_sub_app.
    replace (List.length (s ++ ext) - List.length (s1 ++ ext))
      with (List.length s - List.length s1)
      by (rewrite !length_app; lia).
    destruct (adv && Nat.eqb (List.length s - List.length s1) 0)%bool.
    + left. auto.
    + right. left. eexists. eexists. repeat split.
  - intros p1 s1 c1 H1. cbv zeta.
    assert (Hn : List.length s < List.length (s ++ ext) - List.length s1)
      by (rewrite length_app; lia).
    destruct (Nat.eqb (List.length (s ++ ext) - List.length s1) 0) eqn:E.
    + apply Nat.eqb_eq in E. lia.
    + rewrite andb_false_r. right. eexists. split; [reflexivity|]. exact Hn.
Qed.

(** *** Counting matches by marked positions *)

Lemma marks_app mk q p (t1 t2 : list ascii) :
  marks mk q p (t1 ++ t2) =
  marks mk q p t1 + marks mk (run mk q t1) (last_char p t1) t2.
Proof.
  revert q p. induction t1 as [|x t1 IH]; intros q p; simpl; auto.
  rewrite IH. lia.
Qed.

Lemma run_app mk q (t1 t2 : list ascii) :
  run mk q (t1 ++ t2) = run mk (run mk q t1) t2.
Proof. revert q. induction t1 as [|x t1 IH]; intros q; simpl; auto. Qed.

Section Counting.
Variable r : regex.
Variable mk : marker.
Variable a : nat.
Hypothesis r_local : local r = true.
Hypothesis r_lower : forall q p t, matches r p t -> a <= marks mk q p t.
Hypothesis a_pos : 1 <= a.

Lemma match_text adv p s n mt :
  match_here r adv p s = Some (n, mt) ->
  matches r p (firstn n s) /\ 1 <= n <= List.length s.
Proof.
  intros H. destruct (match_here_sound _ _ _ _ H) as [t [s' [Hs [Hn Hm]]]].
  subst s n.
  rewrite firstn_app, Nat.sub_diag, firstn_O, app_nil_r, firstn_all.
  split; [exact Hm|]. rewrite length_app. split; [|lia].
  pose proof (r_lower false p _ Hm) as Hl.
  destruct t; simpl in *; lia.
Qed.

(** Every match pays [a] marks of its own. *)
Lemma count_le_marks (s : list ascii) :
  forall skip p q,
    a * List.length (findall_from r skip p s) <=
    marks mk (run mk q (firstn skip s)) (last_char p (firstn skip s))
          (skipn skip s).
Proof.
  induction s as [|y s IH]; intros skip p q.
  - destruct skip; simpl; [|lia].
    destruct (match_here r false p []) as [[n mt]|] eqn:E; simpl; [|lia].
    apply match_text in E. simpl in E. lia.
  - destruct skip as [|skip].
    + cbn [findall_from firstn skipn last_char run].
      destruct (match_here r false p (y :: s)) as [[[|n] mt]|] eqn:E.
      * apply match_text in E. lia.
      * apply match_text in E. destruct E as [E _].
        apply (r_lower q) in E.
        specialize (IH n (Some y) (mk_step mk q y)).
        rewrite <- (firstn_skipn (S n) (y :: s)) at 1.
        rewrite marks_app. cbn [firstn skipn last_char run] in *.
        cbn [List.length]. lia.
      * specialize (IH 0 (Some y) (mk_step mk q y)).
        cbn [firstn skipn last_char run] in IH.
        cbn [marks]. lia.
    + cbn [findall_from firstn skipn last_char run]. apply IH.
Qed.

Lemma overrun_text p (s ext : list ascii) n' mt' :
  match_here r false p (s ++ ext) = Some (n', mt') ->
  List.length s < n' ->
  exists v, v <> [] /\ matches r p (s ++ v).
Proof.
  intros H Hn. apply match_text in H. destruct H as [H [_ Hle]].
  rewrite firstn_app in H. rewrite (firstn_all2 s) in H by lia.
  exists (firstn (n' - List.length s) ext). split; [|exact H].
  rewrite length_app in Hle.
  intro E. apply (f_equal (@List.length ascii)) in E.
  rewrite length_firstn in E. simpl in E. lia.
Qed.

Section Bounded.
Variable b : nat.
Hypothesis r_upper : forall p t, matches r p t -> marks mk false p t <= b.
Hypothesis a_b : b < 2 * a.

(** When a match on the longer text runs past the end of the shorter one,
    the shorter one holds at most one match from there on. *)
Lemma overrun_at_most_one p (s ext : list ascii) n' mt' :
  match_here r false p (s ++ ext) = Some (n', mt') ->
  List.length s < n' ->
  List.length (findall_from r 0 p s) <= 1.
Proof.
  intros H Hn. destruct (overrun_text _ _ _ H Hn) as [v [_ Hv]].
  apply r_upper in Hv. rewrite marks_app in Hv.
  pose proof (count_le_marks s 0 p false) as Hc.
  cbn [firstn skipn last_char run] in Hc. nia.
Qed.

(** Appending text never lowers the number of matches. *)
Lemma findall_from_mono (ext s : list ascii) :
  forall skip p,
    List.length (findall_from r skip p s) <=
    List.length (findall_from r skip p (s ++ ext)).
Proof.
  induction s as [|y s IH]; intros skip p.
  - destruct skip; simpl; [|lia].
    destruct (match_here r false p []) as [[n mt]|] eqn:E; simpl; [|lia].
    apply match_text in E. simpl in E. lia.
  - destruct skip as [|skip]; [|cbn [app findall_from]; apply IH].
    destruct (@match_here_stable r false p (y :: s) ext r_local)
      as [[H1 H2]|[[[n mt] [[n' mt'] [H1 [H2 H3]]]]|[[n' mt'] [H2 H3]]]].
    + cbn [app findall_from] in *. rewrite H1, H2. apply IH.
    + inversion H3; subst n' mt'.
      pose proof (match_text _ _ _ H1) as [_ [Hn _]].
      cbn [app findall_from] in *. rewrite H1, H2.
      destruct n as [|n]; [lia|]. cbn [List.length].
      apply le_n_S. apply IH.
    + cbn [fst] in H3.
      pose proof (overrun_at_most_one _ _ _ H2 H3) as Hone.
      cbn [app] in H2. cbn [app].
      assert (Hlong : 1 <= List.length (findall_from r 0 p (y :: s ++ ext))).
      { cbn [findall_from]. rewrite H2.
        destruct n' as [|n']; cbn [List.length]; lia. }
      lia.
Qed.

Lemma findall_mono (s ext : list ascii) :
  List.length (Re.findall r s) <= List.length (Re.findall r (s ++ ext)).
Proof. apply findall_from_mono. Qed.

End Bounded.

Section Sealed.
(** A match holds fewer than [a] marks before its last character. *)
Hypothesis r_sealed :
  forall p u v, matches r p (u ++ v) -> v <> [] -> marks mk false p u < a.

Lemma overrun_none p (s ext : list ascii) n' mt' :
  match_here r false p (s ++ ext) = Some (n', mt') ->
  List.length s < n' ->
  findall_from r 0 p s = [].
Proof.
  intros H Hn. destruct (overrun_text _ _ _ H Hn) as [v [Hne Hv]].
  pose proof (@r_sealed p s v Hv Hne) as Hs.
  pose proof (count_le_marks s 0 p false) as Hc.
  cbn [firstn skipn last_char run] in Hc.
  destruct (findall_from r 0 p s); [reflexivity|].
  cbn [List.length] in Hc. nia.
Qed.

(** The matches of the shorter text are the first matches of the longer
    one. *)
Lemma findall_from_prefix (ext s : list ascii) :
  forall skip p,
    exists more,
      findall_from r skip p (s ++ ext) = findall_from r skip p s ++ more.
Proof.
  induction s as [|y s IH]; intros skip p.
  - exists (findall_from r skip p ([] ++ ext)).
    destruct skip; simpl; auto.
    destruct (match_here r false p []) as [[n mt]|] eqn:E; simpl; auto.
    apply match_text in E. simpl in E. lia.
  - destruct skip as [|skip]; [|cbn [app findall_from]; apply IH].
    destruct (@match_here_stable r false p (y :: s) ext r_local)
      as [[H1 H2]|[[[n mt] [[n' mt'] [H1 [H2 H3]]]]|[[n' mt'] [H2 H3]]]].
    + cbn [app findall_from] in *. rewrite H1, H2. apply IH.
    + inversion H3; subst n' mt'.
      pose proof (match_text _ _ _ H1) as [_ [Hn _]].
      cbn [app findall_from] in *. rewrite H1, H2.
      destruct n as [|n]; [lia|].
      destruct (IH n (Some y)) as [more Hmore].
      exists more. rewrite Hmore. reflexivity.
    + cbn [fst] in H3.
      rewrite (overrun_none _ _ _ H2 H3).
      eexists. reflexivity.
Qed.

Lemma findall_prefix (s ext : list ascii) :
  exists more, Re.findall r (s ++ ext) = Re.findall r s ++ more.
Proof. apply findall_from_prefix. Qed.

End Sealed.

End Counting.

(** From marks to counts on source text. *)
Lemma list_ascii_of_string_app (s1 s2 : string) :
  list_ascii_of_string (String.append s1 s2) =
  list_ascii_of_string s1 ++ list_ascii_of_string s2.
Proof. induction s1 as [|c s1 IH]; simpl; auto. rewrite IH. reflexivity. Qed.

Lemma count_mono (r : regex) (mk : marker) (a b : nat) :
  local r = true ->
  (forall q p t, matches r p t -> a <= marks mk q p t) ->
  (forall p t, matches r p t -> marks mk false p t <= b) ->
  1 <= a -> b < 2 * a ->
  forall code extra : string,
    (count r code <= count r (String.append code extra))%Z.
Proof.
  intros Hloc Hlow Hup Ha Hab code extra.
  unfold count, len, findall. rewrite list_ascii_of_string_app.
  apply Nat2Z.inj_le. apply (@findall_mono r mk a Hloc Hlow Ha b Hup Hab).
Qed.

(** *** Marks of runs and of literal text *)

Lemma quiet_text mk q f (t : list ascii) p :
  quiet mk q f -> forallb f t = true ->
  marks mk q p t = 0 /\ run mk q t = q.
Proof.
  intros Hq. revert p. induction t as [|y t IH]; intros p H; simpl; auto.
  simpl in H. apply andb_true_iff in H. destruct H as [Hy Ht].
  destruct (Hq p y Hy) as [Hm Hs]. rewrite Hm, Hs. apply IH. exact Ht.
Qed.

Lemma marks_char d q p (t : list ascii) :
  marks (char_marker d) q p t = occurrences d t.
Proof.
  revert q p. induction t as [|y t IH]; intros q p; simpl; auto.
Qed.

Lemma occurrences_app d (t1 t2 : list ascii) :
  occurrences d (t1 ++ t2) = occurrences d t1 + occurrences d t2.
Proof. induction t1 as [|y t1 IH]; simpl; auto. rewrite IH. lia. Qed.

(** A run of a class that does not hold [d] has no occurrence of [d]. *)
Lemma occurrences_class d (cs : cset) (t : list ascii) :
  in_cset cs d = false -> forallb (in_cset cs) t = true ->
  occurrences d t = 0.
Proof.
  intros Hd. induction t as [|y t IH]; intros H; simpl; auto.
  simpl in H. apply andb_true_iff in H. destruct H as [Hy Ht].
  rewrite (IH Ht).
  destruct (Ascii.eqb y d) eqn:E; auto.
  apply Ascii.eqb_eq in E. subst y. congruence.
Qed.

Ltac occ_class H :=
  match type of H with
  | forallb (in_cset ?cs) ?t = true =>
      match goal with
      | |- context [occurrences ?d t] =>
          rewrite (@occurrences_class d cs t (eq_refl _) H)
      end
  end.

Ltac occ_solve :=
  rewrite ?occurrences_app;
  repeat match goal with
         | H : forallb (in_cset _) _ = true |- _ => progress (occ_class H)
         end;
  cbn [occurrences list_ascii_of_string Ascii.eqb Bool.eqb];
  try lia.

(** *** The patterns that hold one marking character *)

(** An assignment match holds exactly one equals sign. *)
Lemma writes_marks p t :
  matches storage_writes_re p t -> occurrences "=" t = 1.
Proof.
  unfold storage_writes_re. cbn [matches].
  intros (t1 & r1 & -> & [_ Hw] & t2 & r2 & -> & Hs1 & t3 & r3 & -> & ->
          & t4 & r4 & -> & Hs2 & y & -> & Hy).
  cbn [in_cset] in Hy. apply negb_true_iff in Hy.
  occ_solve. rewrite Hy. lia.
Qed.

(** An indexed assignment holds exactly one equals sign. *)
Lemma indexed_assign_marks p t :
  matches indexed_assign_re p t -> occurrences "=" t = 1.
Proof.
  unfold indexed_assign_re. cbn [matches].
  intros (t1 & r1 & -> & [_ H1] & t2 & r2 & -> & H2 & t3 & r3 & -> & ->
          & t4 & r4 & -> & H4 & t5 & r5 & -> & [_ H5] & t6 & r6 & -> & H6
          & t7 & r7 & -> & -> & t8 & t9 & -> & H8 & ->).
  occ_solve.
Qed.

(** A dotted call, a [delegatecall], a [push] and a [pop] hold exactly one
    opening parenthesis. *)
Lemma dotted_call_marks p t :
  matches dotted_call_re p t -> occurrences "(" t = 1.
Proof.
  unfold dotted_call_re. cbn [matches].
  intros (t1 & r1 & -> & [_ H1] & t2 & r2 & -> & -> & t3 & r3 & -> & [_ H3]
          & t4 & t5 & -> & H4 & ->).
  occ_solve.
Qed.

Lemma keyword_call_marks (kw : string) p t :
  occurrences "(" (list_ascii_of_string kw) = 0 ->
  matches (Lit kw >> Star Space >> Lit "(") p t -> occurrences "(" t = 1.
Proof.
  intros Hkw. cbn [matches].
  intros (t1 & r1 & -> & -> & t2 & t3 & -> & H2 & ->).
  occ_solve.
Qed.

(** A literal index access holds exactly one opening bracket. *)
Lemma array_access_marks p t :
  matches array_access_re p t -> occurrences "[" t = 1.
Proof.
  unfold array_access_re. cbn [matches].
  intros (t1 & r1 & -> & [_ H1] & t2 & r2 & -> & H2 & t3 & r3 & -> & ->
          & t4 & r4 & -> & H4 & t5 & r5 & -> & [_ H5] & t6 & t7 & -> & H6
          & ->).
  occ_solve.
Qed.

Lemma char_count_mono (r : regex) (d : ascii) :
  local r = true ->
  (forall p t, matches r p t -> occurrences d t = 1) ->
  forall code extra : string,
    (count r code <= count r (String.append code extra))%Z.
Proof.
  intros Hloc H.
  apply (@count_mono r (char_marker d) 1 1); auto; intros;
    rewrite marks_char; erewrite H by eassumption; lia.
Qed.

Lemma count_writes_mono (code extra : string) :
  (count storage_writes_re code
   <= count storage_writes_re (String.append code extra))%Z.
Proof. apply (@char_count_mono _ "="); [reflexivity|exact writes_marks]. Qed.

Lemma count_indexed_assign_mono (code extra : string) :
  (count indexed_assign_re code
   <= count indexed_assign_re (String.append code extra))%Z.
Proof.
  apply (@char_count_mono _ "="); [reflexivity|exact indexed_assign_marks].
Qed.

Lemma count_dotted_call_mono (code extra : string) :
  (count dotted_call_re code
   <= count dotted_call_re (String.append code extra))%Z.
Proof.
  apply (@char_count_mono _ "("); [reflexivity|exact dotted_call_marks].
Qed.

Lemma count_delegatecall_mono (code extra : string) :
  (count delegatecall_re code
   <= count delegatecall_re (String.append code extra))%Z.
Proof.
  apply (@char_count_mono _ "("); [reflexivity|].
  intros p t. apply keyword_call_marks. reflexivity.
Qed.

Lemma count_push_mono (code extra : string) :
  (count array_push_re code
   <= count array_push_re (String.append code extra))%Z.
Proof.
  apply (@char_count_mono _ "("); [reflexivity|].
  intros p t. apply keyword_call_marks. reflexivity.
Qed.

Lemma count_pop_mono (code extra : string) :
  (count array_pop_re code
   <= count array_pop_re (String.append code extra))%Z.
Proof.
  apply (@char_count_mono _ "("); [reflexivity|].
  intros p t. apply keyword_call_marks. reflexivity.
Qed.

Lemma count_access_mono (code extra : string) :
  (count array_access_re code
   <= count array_access_re (String.append code extra))%Z.
Proof.
  apply (@char_count_mono _ "["); [reflexivity|exact array_access_marks].
Qed.

(** *** Declarations of state variables: the starts of words *)

Lemma space_not_word (y : ascii) : is_space y = true -> is_word y = false.
Proof. each_ascii y; vm_compute; intro; congruence. Qed.

Lemma run_word_start q (t : list ascii) : run word_start_marker q t = q.
Proof. revert q. induction t as [|y t IH]; intros q; simpl; auto. Qed.

Lemma blanks_marks q p t :
  forallb is_space t = true -> marks word_start_marker q p t = 0.
Proof.
  revert p. induction t as [|y t IH]; intros p H; simpl; auto.
  simpl in H. apply andb_true_iff in H. destruct H as [Hy Ht].
  rewrite (space_not_word y Hy). simpl. apply IH. exact Ht.
Qed.

Lemma blanks_last p t :
  forallb is_space t = true -> word_before p = false ->
  word_before (last_char p t) = false.
Proof.
  revert p. induction t as [|y t IH]; intros p H Hp; simpl; auto.
  simpl in H. apply andb_true_iff in H. destruct H as [Hy Ht].
  apply IH; auto. simpl. apply space_not_word. exact Hy.
Qed.

Lemma blanks_last_nonempty p t :
  t <> [] -> forallb is_space t = true ->
  word_before (last_char p t) = false.
Proof.
  destruct t as [|y t]; [congruence|]. intros _ H.
  simpl in H. apply andb_true_iff in H. destruct H as [Hy Ht].
  simpl. apply blanks_last; auto. simpl. apply space_not_word. exact Hy.
Qed.

Lemma word_marks_inside q p t :
  forallb is_word t = true -> word_before p = true ->
  marks word_start_marker q p t = 0.
Proof.
  revert p. induction t as [|y t IH]; intros p H Hp; simpl; auto.
  simpl in H. apply andb_true_iff in H. destruct H as [Hy Ht].
  rewrite Hp, andb_false_r.
  rewrite (IH (Some y)); auto.
Qed.

Lemma word_marks q p t :
  t <> [] -> forallb is_word t = true -> word_before p = false ->
  marks word_start_marker q p t = 1.
Proof.
  destruct t as [|y t]; [congruence|]. intros _ H Hp.
  simpl in H. apply andb_true_iff in H. destruct H as [Hy Ht].
  simpl. rewrite Hp, Hy. cbn [negb andb].
  rewrite (word_marks_inside q (Some y) t); auto.
Qed.

Lemma digits_word t :
  forallb (in_cset Digit) t = true -> forallb is_word t = true.
Proof. apply forallb_impl. exact digit_is_word. Qed.

(** The type names of [storage_vars_re] are words. *)
Lemma type_name_word p t :
  matches (any_of (Lit "uint" >> Star Digit)
                  [Lit "int" >> Star Digit; Lit "bool"; Lit "address";
                   Lit "bytes" >> Star Digit; Lit "string"]) p t ->
  t <> [] /\ forallb is_word t = true.
Proof.
  cbn [any_of matches].
  intros [H|[H|[H|[H|[H|H]]]]];
    try (destruct H as (t1 & t2 & -> & -> & Hd);
         split; [discriminate|];
         rewrite forallb_app, (digits_word _ Hd); reflexivity);
    subst t; split; (discriminate || reflexivity).
Qed.

(** The optional visibility is a word and blanks, or nothing. *)
Lemma visibility_shape p t :
  matches visibility_opt p t ->
  t = [] \/
  exists w sp,
    t = w ++ sp /\ w <> [] /\ forallb is_word w = true /\
    sp <> [] /\ forallb is_space sp = true.
Proof.
  unfold visibility_opt. cbn [any_of matches].
  intros [[H|[H|H]]|H]; auto; right;
    destruct H as (t1 & t2 & -> & -> & Hne & Hsp);
    eexists; eexists; (split; [reflexivity|]);
      repeat split; auto; discriminate.
Qed.

Lemma bol_not_word p : at_bol p = true -> word_before p = false.
Proof.
  destruct p as [c|]; simpl; auto.
  intros H. apply Ascii.eqb_eq in H. subst c. reflexivity.
Qed.

(** A declaration match holds two or three starts of words: the type,
    the visibility when there is one, the name. *)
Lemma vars_marks q p t :
  matches storage_vars_re p t ->
  2 <= marks word_start_marker q p t <= 3.
Proof.
  unfold storage_vars_re.
  cbn [matches].
  intros (t0 & r0 & -> & [-> Hbol] & t1 & r1 & -> & Hs1 & t2 & r2 & -> & Hty
          & t3 & r3 & -> & [Hne3 Hs3] & t4 & t5 & -> & Hvis & [Hne5 Hw5]).
  cbn [in_cset] in Hs1, Hs3, Hw5.
  apply type_name_word in Hty. destruct Hty as [Hne2 Hw2].
  apply bol_not_word in Hbol.
  cbn [app last_char] in *.
  pose proof (blanks_last p t1 Hs1 Hbol) as L1.
  rewrite !marks_app, !run_word_start.
  rewrite (blanks_marks q p t1 Hs1).
  rewrite (word_marks q _ Hne2 Hw2 L1).
  rewrite (blanks_marks q _ t3 Hs3).
  set (q3 := last_char (last_char (last_char p t1) t2) t3).
  assert (L3 : word_before q3 = false)
    by (apply blanks_last_nonempty; auto).
  apply visibility_shape in Hvis.
  destruct Hvis as [->|(w & sp & -> & Hnw & Hww & Hnsp & Hsp)].
  - cbn [marks last_char run]. rewrite (word_marks q _ Hne5 Hw5 L3). lia.
  - rewrite marks_app, run_word_start,
      (word_marks q _ Hnw Hww L3), (blanks_marks q _ sp Hsp).
    rewrite last_char_app.
    rewrite (word_marks q _ Hne5 Hw5
               (blanks_last_nonempty (last_char q3 w) Hnsp Hsp)).
    lia.
Qed.

Lemma count_vars_mono (code extra : string) :
  (count storage_vars_re code
   <= count storage_vars_re (String.append code extra))%Z.
Proof.
  apply (@count_mono storage_vars_re word_start_marker 2 3);
    [reflexivity | | | lia | lia]; intros; eapply vars_marks; eassumption.
Qed.

(** *** Patterns that end in a brace after a closing parenthesis *)

(** The text [pre ++ o :: mid ++ [d]], where the marker remembers [o] and
    marks [d], and neither [pre] nor [mid] holds a mark. *)
Lemma gated_marks mk (o d : ascii) (pre mid : list ascii) p :
  (forall q, mk_step mk q o = true) ->
  (forall q p', mk_mark mk q p' o = false) ->
  (forall p', mk_mark mk true p' d = true) ->
  marks mk false p pre = 0 ->
  (forall p', marks mk true p' mid = 0) ->
  run mk true mid = true ->
  (forall q, 1 <= marks mk q p (pre ++ o :: mid ++ [d])) /\
  marks mk false p (pre ++ o :: mid ++ [d]) = 1 /\
  marks mk false p (pre ++ o :: mid) = 0.
Proof.
  intros Ho Hmo Hd Hpre Hmid Hrun.
  assert (E : forall q,
             marks mk q p (pre ++ o :: mid ++ [d]) = marks mk q p pre + 1).
  { intros q. rewrite marks_app. cbn [marks]. rewrite Hmo, Ho.
    rewrite marks_app, Hmid, Hrun. cbn [marks]. rewrite Hd. lia. }
  split; [intros q; rewrite E; lia|].
  split; [rewrite E, Hpre; reflexivity|].
  rewrite marks_app. cbn [marks]. rewrite Hmo, Ho, Hmid, Hpre. reflexivity.
Qed.

Lemma prefix_of_snoc (T : Type) (t u v : list T) (d : T) :
  t ++ [d] = u ++ v -> v <> [] -> exists w, t = u ++ w.
Proof.
  revert u. induction t as [|x t IH]; intros u H Hv.
  - destruct u as [|y u]; [exists []; reflexivity|].
    simpl in H. injection H as _ H.
    destruct u; destruct v; simpl in H; congruence.
  - destruct u as [|y u]; [exists (x :: t); reflexivity|].
    simpl in H. injection H as -> H.
    destruct (IH u H Hv) as [w ->]. exists w. reflexivity.
Qed.

Lemma marks_prefix_zero mk q p (u w : list ascii) :
  marks mk q p (u ++ w) = 0 -> marks mk q p u = 0.
Proof. rewrite marks_app. lia. Qed.

(** Before a closing parenthesis nothing is remembered, in either marker;
    once it is seen, the end of a block is marked where it comes. *)
Lemma block_end_before p t :
  occurrences ")" t = 0 ->
  marks block_end_marker false p t = 0 /\ run block_end_marker false t = false.
Proof.
  revert p. induction t as [|y t IH]; intros p H; simpl; auto.
  simpl in H. destruct (Ascii.eqb y ")") eqn:E; [lia|].
  simpl. apply IH. lia.
Qed.

Lemma block_end_after p t :
  occurrences "}" t = 0 ->
  marks block_end_marker true p t = 0 /\ run block_end_marker true t = true.
Proof.
  revert p. induction t as [|y t IH]; intros p H; simpl; auto.
  simpl in H. destruct (Ascii.eqb y "}") eqn:E; [lia|].
  simpl. apply IH. lia.
Qed.

Lemma loop_marks (kw : string) p t :
  occurrences ")" (list_ascii_of_string kw) = 0 ->
  matches (loop_re kw) p t ->
  (forall q, 1 <= marks block_end_marker q p t) /\
  marks block_end_marker false p t = 1 /\
  (forall u v, t = u ++ v -> v <> [] -> marks block_end_marker false p u = 0).
Proof.
  intros Hkw. unfold loop_re. cbn [matches].
  intros (t1 & r1 & -> & -> & t2 & r2 & -> & H2 & t3 & r3 & -> & ->
          & t4 & r4 & -> & [_ H4] & t5 & r5 & -> & -> & t6 & r6 & -> & H6
          & t7 & r7 & -> & -> & t8 & t9 & -> & [_ H8] & ->).
  set (pre := list_ascii_of_string kw ++ t2 ++ list_ascii_of_string "(" ++ t4).
  set (mid := t6 ++ list_ascii_of_string "{" ++ t8).
  assert (E : list_ascii_of_string kw ++ t2 ++ list_ascii_of_string "(" ++
              t4 ++ list_ascii_of_string ")" ++ t6 ++
              list_ascii_of_string "{" ++ t8 ++ list_ascii_of_string "}"
              = pre ++ ")"%char :: mid ++ ["}"%char]).
  { unfold pre, mid. cbn [list_ascii_of_string].
    rewrite <- !app_assoc. reflexivity. }
  rewrite E. clear E.
  assert (Hpre : occurrences ")" pre = 0).
  { unfold pre. occ_solve. }
  assert (Hmid : occurrences "}" mid = 0).
  { unfold mid. occ_solve. }
  destruct (@gated_marks block_end_marker ")" "}" pre mid p) as (G1 & G2 & G3);
    try reflexivity.
  - intros q. destruct q; reflexivity.
  - intros q p'. destruct q; reflexivity.
  - apply block_end_before. exact Hpre.
  - intros p'. apply block_end_after. exact Hmid.
  - apply (block_end_after None). exact Hmid.
  - split; [exact G1|]. split; [exact G2|].
    intros u v Huv Hv.
    change (pre ++ ")"%char :: mid ++ ["}"%char])
      with (pre ++ (")"%char :: mid) ++ ["}"%char]) in Huv.
    rewrite app_assoc in Huv.
    destruct (prefix_of_snoc _ _ _ Huv Hv) as [w Hw].
    rewrite Hw in G3. eapply marks_prefix_zero. exact G3.
Qed.

(** The loop matches of a text stay, in order, when text is appended. *)
Lemma loops_prefix (kw : string) (code extra : string) :
  occurrences ")" (list_ascii_of_string kw) = 0 ->
  exists more,
    findall (loop_re kw) (String.append code extra) =
    findall (loop_re kw) code ++ more.
Proof.
  intros Hkw. unfold findall. rewrite list_ascii_of_string_app.
  apply (@findall_prefix (loop_re kw) block_end_marker 1).
  - reflexivity.
  - intros q p t H. apply (loop_marks Hkw H).
  - lia.
  - intros p u v H Hv.
    destruct (loop_marks Hkw H) as (_ & _ & G).
    rewrite (G u v eq_refl Hv). lia.
Qed.

(** *** Function headers: the brace that opens the body *)

Lemma zone_quiet q : quiet body_start_marker q zone_char.
Proof.
  intros p y Hy. each_ascii y; vm_compute in Hy; try discriminate Hy;
    destruct q; split; reflexivity.
Qed.

Lemma space_zone (y : ascii) : in_cset Space y = true -> zone_char y = true.
Proof. unfold zone_char. cbn [in_cset]. intros ->. reflexivity. Qed.

Lemma steady_nil mk : steady mk [].
Proof. split; reflexivity. Qed.

Lemma steady_app mk (t1 t2 : list ascii) :
  steady mk t1 -> steady mk t2 -> steady mk (t1 ++ t2).
Proof.
  intros [M1 R1] [M2 R2]. split.
  - intros p. rewrite marks_app, M1, R1, M2. reflexivity.
  - rewrite run_app, R1, R2. reflexivity.
Qed.

Lemma steady_zone (t : list ascii) :
  forallb zone_char t = true -> steady body_start_marker t.
Proof.
  intros H. split; [intros p|];
    apply (@quiet_text body_start_marker true zone_char t None
             (@zone_quiet true) H) ||
    apply (@quiet_text body_start_marker true zone_char t p
             (@zone_quiet true) H).
Qed.

Lemma steady_blanks (t : list ascii) :
  forallb (in_cset Space) t = true -> steady body_start_marker t.
Proof.
  intros H. apply steady_zone. revert H. apply forallb_impl. exact space_zone.
Qed.

Lemma body_start_before p t :
  occurrences ")" t = 0 ->
  marks body_start_marker false p t = 0 /\
  run body_start_marker false t = false.
Proof.
  revert p. induction t as [|y t IH]; intros p H; simpl; auto.
  simpl in H. destruct (Ascii.eqb y ")") eqn:E; [lia|].
  destruct (zone_char y); apply IH; lia.
Qed.

(** The optional keywords of a header are steady. *)
Lemma visibility_steady p t :
  matches (Opt (Group 2 (any_of (Lit "external")
                           [Lit "public"; Lit "internal"; Lit "private"])))
          p t ->
  steady body_start_marker t.
Proof.
  cbn [matches any_of].
  intros [[H|[H|[H|H]]]|H]; subst t; apply steady_zone; reflexivity.
Qed.

Lemma mutability_steady p t :
  matches (Opt (Group 3 (any_of (Lit "view") [Lit "pure"; Lit "payable"])))
          p t ->
  steady body_start_marker t.
Proof.
  cbn [matches any_of].
  intros [[H|[H|H]]|H]; subst t; apply steady_zone; reflexivity.
Qed.

(** So is the optional [returns (...)]: its closing parenthesis sets the
    memory again. *)
Lemma returns_steady p t :
  matches (Opt (Lit "returns" >> Star Space >> Lit "(" >> Star (Not ")") >>
                Lit ")")) p t ->
  steady body_start_marker t.
Proof.
  cbn [matches].
  intros [(t1 & r1 & -> & -> & t2 & r2 & -> & H2 & t3 & r3 & -> & ->
           & t4 & t5 & -> & H4 & ->)| ->]; [|apply steady_nil].
  apply steady_app; [apply steady_zone; reflexivity|].
  apply steady_app; [apply steady_blanks; exact H2|].
  assert (Hocc : occurrences ")" t4 = 0) by occ_solve.
  cbn [list_ascii_of_string app].
  split.
  - intros p'. cbn [marks body_start_marker mk_mark mk_step].
    cbn [Ascii.eqb Bool.eqb andb zone_char is_space is_lower in_range].
    change (zone_char "(") with false. cbv iota.
    rewrite marks_app.
    rewrite (proj1 (@body_start_before _ t4 Hocc)),
            (proj2 (@body_start_before (Some "("%char) t4 Hocc)).
    reflexivity.
  - cbn [run body_start_marker mk_step].
    change (Ascii.eqb "(" ")") with false.
    change (zone_char "(") with false. cbv iota.
    rewrite run_app. reflexivity.
Qed.

Lemma functions_marks p t :
  matches functions_re p t ->
  (forall q, 1 <= marks body_start_marker q p t) /\
  marks body_start_marker false p t = 1.
Proof.
  unfold functions_re. cbn [matches].
  intros (t1 & r1 & -> & -> & t2 & r2 & -> & [_ H2] & t3 & r3 & -> & [_ H3]
          & t4 & r4 & -> & H4 & t5 & r5 & -> & -> & t6 & r6 & -> & H6
          & t7 & r7 & -> & -> & t8 & r8 & -> & H8 & t9 & r9 & -> & H9
          & t10 & r10 & -> & H10 & t11 & r11 & -> & H11
          & t12 & r12 & -> & H12 & t13 & r13 & -> & H13
          & t14 & t15 & -> & H14 & ->).
  apply (@visibility_steady None t9) in H9.
  apply (@mutability_steady None t11) in H11.
  apply (@returns_steady None t13) in H13.
  apply steady_blanks in H8, H10, H12, H14.
  set (pre := list_ascii_of_string "function" ++ t2 ++ t3 ++ t4 ++
              list_ascii_of_string "(" ++ t6).
  set (mid := t8 ++ t9 ++ t10 ++ t11 ++ t12 ++ t13 ++ t14).
  assert (E : list_ascii_of_string "function" ++ t2 ++ t3 ++ t4 ++
              list_ascii_of_string "(" ++ t6 ++ list_ascii_of_string ")" ++
              t8 ++ t9 ++ t10 ++ t11 ++ t12 ++ t13 ++ t14 ++
              list_ascii_of_string "{"
              = pre ++ ")"%char :: mid ++ ["{"%char]).
  { unfold pre, mid. cbn [list_ascii_of_string].
    rewrite <- !app_assoc. reflexivity. }
  rewrite E. clear E.
  assert (Hpre : occurrences ")" pre = 0).
  { unfold pre. occ_solve. }
  assert (Hmid : steady body_start_marker mid).
  { unfold mid. repeat (apply steady_app; [assumption|]). assumption. }
  destruct Hmid as [M R].
  assert (S1 : forall q, mk_step body_start_marker q ")" = true)
    by (intros q; destruct q; reflexivity).
  assert (S2 : forall q p', mk_mark body_start_marker q p' ")" = false)
    by (intros q p'; destruct q; reflexivity).
  assert (S3 : forall p', mk_mark body_start_marker true p' "{" = true)
    by reflexivity.
  destruct (@gated_marks body_start_marker ")" "{" pre mid p S1 S2 S3
              (proj1 (@body_start_before p pre Hpre)) M R) as (G1 & G2 & _).
  split; assumption.
Qed.

Lemma count_functions_mono (code extra : string) :
  (count functions_re code
   <= count functions_re (String.append code extra))%Z.
Proof.
  apply (@count_mono functions_re body_start_marker 1 1);
    [reflexivity | | | lia | lia].
  - intros q p t H. apply (proj1 (functions_marks H)).
  - intros p t H. rewrite (proj2 (functions_marks H)). lia.
Qed.

(** *** Index accesses: reads, writes, and both *)

Lemma take_drop cs (s : list ascii) :
  take_class cs s ++ drop_class cs s = s.
Proof.
  induction s as [|y s IH]; simpl; auto.
  destruct (in_cset cs y); simpl; [rewrite IH|]; reflexivity.
Qed.

Lemma take_all cs (s : list ascii) :
  forallb (in_cset cs) (take_class cs s) = true.
Proof.
  induction s as [|y s IH]; simpl; auto.
  destruct (in_cset cs y) eqn:E; simpl; auto. rewrite E. exact IH.
Qed.

Lemma drop_head cs (s : list ascii) : head_in cs (drop_class cs s) = false.
Proof.
  induction s as [|y s IH]; simpl; auto.
  destruct (in_cset cs y) eqn:E; simpl; auto.
Qed.

Lemma drop_run cs (t v : list ascii) :
  forallb (in_cset cs) t = true -> head_in cs v = false ->
  drop_class cs (t ++ v) = v.
Proof.
  induction t as [|y t IH]; simpl.
  - intros _ H. destruct v as [|z v]; simpl in *; auto. rewrite H. reflexivity.
  - intros H Hv. apply andb_true_iff in H. destruct H as [Hy Ht].
    rewrite Hy. apply IH; auto.
Qed.

Lemma word_not_space (z : ascii) :
  in_cset Word z = true -> in_cset Space z = false.
Proof. each_ascii z; vm_compute; intro; congruence. Qed.

Lemma blank_not_word (z : ascii) :
  in_cset Space z = true -> in_cset Word z = false.
Proof. cbn [in_cset]. apply space_not_word. Qed.

Lemma lit_avoids cs (d z : ascii) :
  in_cset cs d = false -> in_cset cs z = true -> Ascii.eqb d z = false.
Proof.
  intros Hd Hz. destruct (Ascii.eqb d z) eqn:E; auto.
  apply Ascii.eqb_eq in E. subst z. congruence.
Qed.

(** A greedy run gives nothing back when the rest of the pattern cannot
    start with a character of the class. *)
Lemma m_star_greedy (A : Type) cs p s c (k : cont A) :
  (forall p' z rest, in_cset cs z = true -> k p' (z :: rest) c = None) ->
  m_star cs p s c k = k (last_char p (take_class cs s)) (drop_class cs s) c.
Proof.
  intros Hk. revert p.
  induction s as [|y s IH]; intros p;
    cbn [m_star take_class drop_class last_char]; auto.
  destruct (in_cset cs y) eqn:E; cbn [last_char]; auto.
  rewrite IH.
  destruct (k (last_char (Some y) (take_class cs s)) (drop_class cs s) c)
    eqn:K; [reflexivity|].
  apply Hk. exact E.
Qed.

Lemma bracket_m (A : Type) p s c (k : cont A) :
  m bracket_access_re p s c k =
  match s with
  | y :: r =>
      if in_cset Word y then
        match bracket_tail (drop_class Word r) with
        | Some s' => k (Some "]"%char) s' c
        | None => None
        end
      else None
  | [] => None
  end.
Proof.
  unfold bracket_access_re. cbn [m].
  destruct s as [|y r]; [reflexivity|].
  destruct (in_cset Word y); [|reflexivity].
  rewrite m_star_greedy.
  2:{ intros p' z rest Hz. cbn [m_star]. rewrite (word_not_space z Hz).
      cbn [m_lit list_ascii_of_string].
      rewrite (@lit_avoids Word "[" z eq_refl Hz). reflexivity. }
  cbv beta. rewrite m_star_greedy.
  2:{ intros p' z rest Hz. cbn [m_lit list_ascii_of_string].
      rewrite (@lit_avoids Space "[" z eq_refl Hz). reflexivity. }
  cbv beta. unfold bracket_tail.
  destruct (drop_class Space (drop_class Word r)) as [|x v2]; [reflexivity|].
  cbn [m_lit list_ascii_of_string].
  destruct (Ascii.eqb "[" x); [|reflexivity].
  rewrite m_star_greedy.
  2:{ intros p' z rest Hz. rewrite (blank_not_word z Hz). reflexivity. }
  cbv beta.
  destruct (drop_class Space v2) as [|z v4]; [reflexivity|].
  destruct (in_cset Word z); [|reflexivity].
  rewrite m_star_greedy.
  2:{ intros p' z' rest Hz. cbn [m_star]. rewrite (word_not_space z' Hz).
      cbn [m_lit list_ascii_of_string].
      rewrite (@lit_avoids Word "]" z' eq_refl Hz). reflexivity. }
  cbv beta. rewrite m_star_greedy.
  2:{ intros p' z' rest Hz. cbn [m_lit list_ascii_of_string].
      rewrite (@lit_avoids Space "]" z' eq_refl Hz). reflexivity. }
  cbv beta.
  destruct (drop_class Space (drop_class Word v4)) as [|x' s']; [reflexivity|].
  cbn [m_lit list_ascii_of_string].
  destruct (Ascii.eqb "]" x') eqn:E; [|reflexivity].
  apply Ascii.eqb_eq in E. subst x'. reflexivity.
Qed.

Lemma assign_m (A : Type) p s c (k : cont A) :
  m (Star Space >> Lit "=") p s c k =
  match assign_tail s with
  | Some s'' => k (Some "="%char) s'' c
  | None => None
  end.
Proof.
  cbn [m]. rewrite m_star_greedy.
  2:{ intros p' z rest Hz. cbn [m_lit list_ascii_of_string].
      rewrite (@lit_avoids Space "=" z eq_refl Hz). reflexivity. }
  cbv beta. unfold assign_tail.
  destruct (drop_class Space s) as [|x s'']; [reflexivity|].
  cbn [m_lit list_ascii_of_string].
  destruct (Ascii.eqb "=" x) eqn:E; [|reflexivity].
  apply Ascii.eqb_eq in E. subst x. reflexivity.
Qed.

(** A match attempt of each of the three patterns, in closed form. *)
Lemma match_here_access X adv p s :
  match_here (access_re X) adv p s = access_result adv s (access_end X s).
Proof.
  unfold match_here.
  match goal with |- m _ _ _ _ ?k = _ => set (K := k) end.
  destruct X; cbn [access_re].
  - rewrite bracket_m. unfold access_end, access_tail, access_result.
    destruct s as [|y r]; auto. destruct (in_cset Word y); auto.
    destruct (bracket_tail (drop_class Word r)); auto.
  - change (m mapping_reads_re p s [] K)
      with (m bracket_access_re p s []
              (fun p' s' c' =>
                 m (NegLook (Star Space >> Lit "=")) p' s' c' K)).
    rewrite bracket_m. unfold access_end, access_tail, access_result.
    destruct s as [|y r]; auto. destruct (in_cset Word y); auto.
    destruct (bracket_tail (drop_class Word r)) as [s'|]; auto.
    cbn [m].
    change (m_star Space (Some "]"%char) s' []
              (fun p' s'0 c' =>
                 m_lit (list_ascii_of_string "=") p' s'0 c'
                       (fun _ _ _ => Some tt)))
      with (m (Star Space >> Lit "=") (Some "]"%char) s' []
              (fun _ _ _ => Some tt)).
    rewrite assign_m. destruct (assign_tail s'); reflexivity.
  - change (m mapping_writes_re p s [] K)
      with (m bracket_access_re p s []
              (fun p' s' c' => m (Star Space >> Lit "=") p' s' c' K)).
    rewrite bracket_m. unfold access_end, access_tail, access_result.
    destruct s as [|y r]; auto. destruct (in_cset Word y); auto.
    destruct (bracket_tail (drop_class Word r)) as [s'|]; auto.
    rewrite assign_m. destruct (assign_tail s'); reflexivity.
Qed.

(** The scan does not look at the character before the text. *)
Lemma findall_irrel X (s : list ascii) skip p p' :
  findall_from (access_re X) skip p s = findall_from (access_re X) skip p' s.
Proof.
  destruct s as [|y s]; destruct skip; cbn [findall_from];
    rewrite ?match_here_access; reflexivity.
Qed.

Lemma findall_skip r (t s' : list ascii) p :
  findall_from r (List.length t) p (t ++ s') =
  findall_from r 0 (last_char p t) s'.
Proof.
  revert p. induction t as [|y t IH]; intros p; [reflexivity|].
  cbn [List.length app findall_from last_char]. apply IH.
Qed.

Lemma access_fail X y r p :
  access_end X (y :: r) = None ->
  findall_from (access_re X) 0 p (y :: r)
  = findall_from (access_re X) 0 (Some y) r.
Proof.
  intros H. cbn [findall_from]. rewrite match_here_access, H. reflexivity.
Qed.

(** Where no match can start. *)
Lemma zone_nonword X (t s' : list ascii) :
  forallb (fun y => negb (in_cset Word y)) t = true ->
  forall p p',
    findall_from (access_re X) 0 p (t ++ s')
    = findall_from (access_re X) 0 p' s'.
Proof.
  induction t as [|y t IH]; intros H p p'.
  - apply findall_irrel.
  - cbn [forallb] in H. apply andb_true_iff in H. destruct H as [Hy Ht].
    apply negb_true_iff in Hy.
    cbn [app]. rewrite access_fail; [apply IH; exact Ht|].
    unfold access_end. rewrite Hy. reflexivity.
Qed.

Lemma zone_word X (w v : list ascii) :
  forallb (in_cset Word) w = true -> head_in Word v = false ->
  access_tail X v = None ->
  forall p p',
    findall_from (access_re X) 0 p (w ++ v)
    = findall_from (access_re X) 0 p' v.
Proof.
  intros Hw Hv HX. induction w as [|y w IH]; intros p p'.
  - apply findall_irrel.
  - cbn [forallb] in Hw. apply andb_true_iff in Hw. destruct Hw as [Hy Hw].
    cbn [app]. rewrite access_fail; [apply IH; exact Hw|].
    unfold access_end. rewrite Hy, (drop_run Word w v Hw Hv). exact HX.
Qed.

Lemma zone_first_word X (r : list ascii) :
  access_tail X (drop_class Word r) = None ->
  forall p p',
    findall_from (access_re X) 0 p r
    = findall_from (access_re X) 0 p' (drop_class Word r).
Proof.
  intros HX p p'. rewrite <- (take_drop Word r) at 1.
  apply zone_word; auto using take_all, drop_head.
Qed.

Lemma blanks_nonword (t : list ascii) :
  forallb (in_cset Space) t = true ->
  forallb (fun y => negb (in_cset Word y)) t = true.
Proof.
  apply forallb_impl. intros y Hy. rewrite (blank_not_word y Hy). reflexivity.
Qed.

(** Inside [\s*\[\s*\w+\s*\]] no match of the three patterns starts. *)
Lemma tail_dead X (v s' : list ascii) :
  bracket_tail v = Some s' ->
  (exists t, v = t ++ s') /\
  forall p p',
    findall_from (access_re X) 0 p v = findall_from (access_re X) 0 p' s'.
Proof.
  unfold bracket_tail. intros H.
  pose proof (take_drop Space v) as E1.
  pose proof (take_all Space v) as A1.
  destruct (drop_class Space v) as [|x v2]; [discriminate|].
  destruct (Ascii.eqb "[" x) eqn:Ex; [|discriminate].
  apply Ascii.eqb_eq in Ex. subst x.
  pose proof (take_drop Space v2) as E2.
  pose proof (take_all Space v2) as A2.
  destruct (drop_class Space v2) as [|z v4]; [discriminate|].
  destruct (in_cset Word z) eqn:Hz; [|discriminate].
  pose proof (take_drop Word v4) as E3.
  pose proof (take_all Word v4) as A3.
  pose proof (take_drop Space (drop_class Word v4)) as E4.
  pose proof (take_all Space (drop_class Word v4)) as A4.
  destruct (drop_class Space (drop_class Word v4)) as [|x' s0];
    [discriminate|].
  destruct (Ascii.eqb "]" x') eqn:Ex'; [|discriminate].
  apply Ascii.eqb_eq in Ex'. subst x'. injection H as ->.
  remember (take_class Space v) as a1.
  remember (take_class Space v2) as a2.
  remember (take_class Word v4) as w.
  remember (take_class Space (drop_class Word v4)) as a3.
  rewrite <- E4 in E3. rewrite <- E3 in E2. rewrite <- E2 in E1.
  clear - E1 A1 A2 A3 A4 Hz. subst v.
  assert (E : a1 ++ "["%char :: a2 ++ z :: w ++ a3 ++ "]"%char :: s'
              = (a1 ++ "["%char :: a2) ++ (z :: w) ++ (a3 ++ ["]"%char]) ++ s').
  { rewrite <- ?app_assoc. cbn [app]. rewrite <- ?app_assoc. reflexivity. }
  rewrite E. clear E.
  split.
  - exists ((a1 ++ "["%char :: a2) ++ (z :: w) ++ (a3 ++ ["]"%char])).
    rewrite <- ?app_assoc. reflexivity.
  - intros p p'.
    rewrite (@zone_nonword X (a1 ++ "["%char :: a2) _) with (p' := None).
    2:{ rewrite forallb_app. cbn [forallb].
        rewrite (blanks_nonword _ A1), (blanks_nonword _ A2). reflexivity. }
    rewrite (@zone_word X (z :: w) _) with (p' := None).
    + apply zone_nonword. rewrite forallb_app, (blanks_nonword _ A4).
      reflexivity.
    + cbn [forallb]. rewrite Hz. exact A3.
    + destruct a3 as [|y a3]; [reflexivity|].
      cbn [forallb] in A4. apply andb_true_iff in A4. destruct A4 as [Hy _].
      cbn [app head_in]. apply blank_not_word. exact Hy.
    + unfold access_tail, bracket_tail. rewrite <- app_assoc.
      rewrite (drop_run Space a3 (["]"%char] ++ s') A4 eq_refl).
      reflexivity.
Qed.

Lemma assign_tail_shape (s s'' : list ascii) :
  assign_tail s = Some s'' ->
  exists a,
    s = a ++ s'' /\ forallb (fun y => negb (in_cset Word y)) a = true.
Proof.
  unfold assign_tail. intros H.
  pose proof (take_drop Space s) as E. pose proof (take_all Space s) as A.
  destruct (drop_class Space s) as [|x s0]; [discriminate|].
  destruct (Ascii.eqb "=" x) eqn:Ex; [|discriminate].
  apply Ascii.eqb_eq in Ex. subst x. injection H as ->.
  exists (take_class Space s ++ ["="%char]). split.
  - rewrite <- app_assoc. symmetry. exact E.
  - rewrite forallb_app, (blanks_nonword _ A). reflexivity.
Qed.

Lemma access_end_shape X (s s' : list ascii) :
  access_end X s = Some s' -> exists y t, s = y :: t ++ s'.
Proof.
  unfold access_end. destruct s as [|y r]; [discriminate|].
  destruct (in_cset Word y); [|discriminate].
  unfold access_tail.
  destruct (bracket_tail (drop_class Word r)) as [s1|] eqn:T; [|discriminate].
  destruct (tail_dead AnyAccess _ T) as [[t Ht] _].
  pose proof (take_drop Word r) as E. rewrite Ht in E.
  intros H. exists y. destruct X.
  - injection H as ->. exists (take_class Word r ++ t).
    rewrite <- app_assoc, E. reflexivity.
  - destruct (assign_tail s1); [discriminate|]. injection H as ->.
    exists (take_class Word r ++ t). rewrite <- app_assoc, E. reflexivity.
  - destruct (assign_tail_shape _ H) as [a [Ha _]]. subst s1.
    exists (take_class Word r ++ t ++ a).
    rewrite <- ?app_assoc. rewrite E. reflexivity.
Qed.

(** A match is counted, and the scan goes on after it. *)
Lemma access_step X (s s' : list ascii) p p' :
  access_end X s = Some s' ->
  List.length (findall_from (access_re X) 0 p s)
  = S (List.length (findall_from (access_re X) 0 p' s')).
Proof.
  intros H. destruct (access_end_shape _ _ H) as (y & t & ->).
  cbn [findall_from]. rewrite match_here_access, H.
  unfold access_result. cbn [andb].
  assert (L : List.length (y :: t ++ s') - List.length s'
              = S (List.length t)).
  { cbn [List.length]. rewrite length_app. lia. }
  rewrite L. cbn [List.length]. f_equal.
  rewrite findall_skip. f_equal. apply findall_irrel.
Qed.

(** Every index access is counted once: as a write when [\s*=] follows
    it, as a read when not. *)
Lemma access_split_upto (n : nat) :
  forall (s : list ascii) p,
    List.length s <= n ->
    List.length (findall_from mapping_reads_re 0 p s)
    + List.length (findall_from mapping_writes_re 0 p s)
    = List.length (findall_from bracket_access_re 0 p s).
Proof.
  change mapping_reads_re with (access_re ReadAccess).
  change mapping_writes_re with (access_re WriteAccess).
  change bracket_access_re with (access_re AnyAccess).
  induction n as [|n IH]; intros s p Hn.
  - destruct s; [|simpl in Hn; lia].
    cbn [findall_from]. rewrite !match_here_access. reflexivity.
  - destruct s as [|y r].
    + cbn [findall_from]. rewrite !match_here_access. reflexivity.
    + cbn [List.length] in Hn.
      destruct (in_cset Word y) eqn:Hy.
      2:{ rewrite !access_fail by (unfold access_end; rewrite Hy; reflexivity).
          apply IH. lia. }
      destruct (bracket_tail (drop_class Word r)) as [s'|] eqn:T.
      2:{ rewrite !access_fail
            by (unfold access_end, access_tail; rewrite Hy, T; reflexivity).
          apply IH. lia. }
      assert (HB : access_end AnyAccess (y :: r) = Some s')
        by (unfold access_end, access_tail; rewrite Hy, T; reflexivity).
      destruct (access_end_shape _ _ HB) as (y' & t & Et).
      injection Et as <- Er.
      assert (Ls : List.length s' <= n).
      { rewrite Er, length_app in Hn. lia. }
      destruct (tail_dead ReadAccess _ T) as [_ DR].
      destruct (tail_dead WriteAccess _ T) as [_ DW].
      destruct (assign_tail s') as [s''|] eqn:As.
      * assert (HW : access_end WriteAccess (y :: r) = Some s'')
          by (unfold access_end, access_tail; rewrite Hy, T; exact As).
        assert (HR : access_end ReadAccess (y :: r) = None)
          by (unfold access_end, access_tail; rewrite Hy, T, As; reflexivity).
        destruct (assign_tail_shape _ As) as (a & Ea & Na).
        assert (Ls' : List.length s'' <= n).
        { rewrite Ea, length_app in Ls. lia. }
        rewrite (@access_step AnyAccess _ _ p None HB).
        rewrite (@access_step WriteAccess _ _ p None HW).
        rewrite (@access_fail ReadAccess y r p HR).
        rewrite (@zone_first_word ReadAccess r) with (p' := None)
          by (unfold access_tail; rewrite T, As; reflexivity).
        rewrite (DR None None).
        rewrite Ea.
        rewrite (@zone_nonword ReadAccess a s'' Na None None).
        rewrite (@zone_nonword AnyAccess a s'' Na None None).
        rewrite <- (IH s'' None Ls'). lia.
      * assert (HR : access_end ReadAccess (y :: r) = Some s')
          by (unfold access_end, access_tail; rewrite Hy, T, As; reflexivity).
        assert (HW : access_end WriteAccess (y :: r) = None)
          by (unfold access_end, access_tail; rewrite Hy, T; exact As).
        rewrite (@access_step AnyAccess _ _ p None HB).
        rewrite (@access_step ReadAccess _ _ p None HR).
        rewrite (@access_fail WriteAccess y r p HW).
        rewrite (@zone_first_word WriteAccess r) with (p' := None)
          by (unfold access_tail; rewrite T; exact As).
        rewrite (DW None None).
        rewrite <- (IH s' None Ls). lia.
Qed.

Lemma access_split (code : string) :
  (count mapping_reads_re code + count mapping_writes_re code
   = count bracket_access_re code)%Z.
Proof.
  unfold count, len, findall, Re.findall.
  rewrite <- (@access_split_upto _ (list_ascii_of_string code) None (le_n _)).
  lia.
Qed.

Lemma bracket_marks p t :
  matches bracket_access_re p t -> occurrences "[" t = 1.
Proof.
  unfold bracket_access_re. cbn [matches].
  intros (t1 & r1 & -> & [_ H1] & t2 & r2 & -> & H2 & t3 & r3 & -> & ->
          & t4 & r4 & -> & H4 & t5 & r5 & -> & [_ H5] & t6 & t7 & -> & H6
          & ->).
  occ_solve.
Qed.

Lemma count_bracket_mono (code extra : string) :
  (count bracket_access_re code
   <= count bracket_access_re (String.append code extra))%Z.
Proof.
  apply (@char_count_mono _ "["); [reflexivity|exact bracket_marks].
Qed.

End Append.

(* ================================================================== *)
(** ** The cost of a category when text is appended *)
(* ================================================================== *)

Module Categories.
Import Re Patterns GasAnalyzer Spec Props Append.
Local Open Scope Z_scope.

Lemma category_cost_nil T : category_cost T [] = 0.
Proof. reflexivity. Qed.

Lemma category_cost_one T (h : Hotspot) :
  category_cost T [h] = if type_eqb (h_type h) T then estimated_cost h else 0.
Proof.
  unfold category_cost. cbn [filter].
  destruct (type_eqb (h_type h) T); [|reflexivity].
  cbn [map]. rewrite sum_cons. unfold sum. simpl. lia.
Qed.

Lemma category_cost_app T (l1 l2 : list Hotspot) :
  category_cost T (l1 ++ l2) = category_cost T l1 + category_cost T l2.
Proof.
  unfold category_cost. rewrite filter_app, map_app, sum_app. reflexivity.
Qed.

Lemma storage_mono T (code extra : string) :
  category_cost T (gas_hotspots (analyze_storage_usage code init))
  <= category_cost T
       (gas_hotspots (analyze_storage_usage (String.append code extra) init)).
Proof.
  unfold analyze_storage_usage. cbv zeta.
  cbn [gas_hotspots add_hotspot init app].
  rewrite !category_cost_one. cbn [h_type estimated_cost].
  destruct (type_eqb STORAGE_USAGE T); [|lia].
  unfold storage_cost.
  pose proof (count_writes_mono code extra).
  pose proof (count_vars_mono code extra).
  unfold count in *. lia.
Qed.

Lemma functions_mono T (code extra : string) :
  category_cost T (gas_hotspots (analyze_function_patterns code init))
  <= category_cost T
       (gas_hotspots (analyze_function_patterns (String.append code extra)
                                                init)).
Proof.
  unfold analyze_function_patterns. cbv zeta.
  cbn [gas_hotspots add_hotspot init app].
  rewrite !category_cost_one. cbn [h_type estimated_cost].
  destruct (type_eqb FUNCTION_CALLS T); [|lia].
  pose proof (count_functions_mono code extra).
  pose proof (count_dotted_call_mono code extra).
  pose proof (count_delegatecall_mono code extra).
  unfold count in *. lia.
Qed.

Lemma arrays_mono T (code extra : string) :
  category_cost T (gas_hotspots (analyze_array_operations code init))
  <= category_cost T
       (gas_hotspots (analyze_array_operations (String.append code extra)
                                               init)).
Proof.
  unfold analyze_array_operations. cbv zeta.
  pose proof (count_push_mono code extra).
  pose proof (count_pop_mono code extra).
  pose proof (count_access_mono code extra).
  pose proof (count_nonneg array_push_re code).
  pose proof (count_nonneg array_pop_re code).
  pose proof (count_nonneg array_access_re code).
  set (u := count array_push_re code) in *.
  set (o := count array_pop_re code) in *.
  set (a := count array_access_re code) in *.
  set (u' := count array_push_re (String.append code extra)) in *.
  set (o' := count array_pop_re (String.append code extra)) in *.
  set (a' := count array_access_re (String.append code extra)) in *.
  clearbody u o a u' o' a'.
  destruct (Z.ltb_spec 0 (u + o + a)), (Z.ltb_spec 0 (u' + o' + a'));
    cbn [gas_hotspots add_hotspot init app];
    rewrite ?category_cost_one, ?category_cost_nil;
    cbn [h_type estimated_cost];
    destruct (type_eqb ARRAY_OPERATIONS T); lia.
Qed.

Lemma mappings_mono T (code extra : string) :
  category_cost T (gas_hotspots (analyze_mapping_operations code init))
  <= category_cost T
       (gas_hotspots (analyze_mapping_operations (String.append code extra)
                                                 init)).
Proof.
  unfold analyze_mapping_operations. cbv zeta.
  pose proof (access_split code) as S1.
  pose proof (access_split (String.append code extra)) as S2.
  pose proof (count_bracket_mono code extra) as HB.
  pose proof (count_indexed_assign_mono code extra) as HW.
  change indexed_assign_re with mapping_writes_re in HW.
  pose proof (count_nonneg mapping_reads_re code).
  pose proof (count_nonneg mapping_writes_re code).
  pose proof (count_nonneg mapping_reads_re (String.append code extra)).
  pose proof (count_nonneg mapping_writes_re (String.append code extra)).
  set (b := count bracket_access_re code) in *.
  set (b' := count bracket_access_re (String.append code extra)) in *.
  set (r := count mapping_reads_re code) in *.
  set (w := count mapping_writes_re code) in *.
  set (r' := count mapping_reads_re (String.append code extra)) in *.
  set (w' := count mapping_writes_re (String.append code extra)) in *.
  clearbody b b' r w r' w'.
  destruct (Z.ltb_spec 0 (r + w)), (Z.ltb_spec 0 (r' + w'));
    cbn [gas_hotspots add_hotspot init app];
    rewrite ?category_cost_one, ?category_cost_nil;
    cbn [h_type estimated_cost];
    destruct (type_eqb MAPPING_OPERATIONS T); lia.
Qed.

Lemma count_expensive_grows (F MF W MW : list (list ascii)) :
  count_expensive (F ++ W) <= count_expensive ((F ++ MF) ++ (W ++ MW)).
Proof.
  rewrite !count_expensive_split, !filter_app, !len_app.
  pose proof (len_nonneg (filter (Re.search indexed_assign_re) MF)).
  pose proof (len_nonneg (filter (Re.search indexed_assign_re) MW)).
  pose proof (len_nonneg (filter (Re.search dotted_call_re) MF)).
  pose proof (len_nonneg (filter (Re.search dotted_call_re) MW)).
  lia.
Qed.

Lemma loops_mono T (code extra : string) :
  category_cost T (gas_hotspots (analyze_loop_patterns code init))
  <= category_cost T
       (gas_hotspots (analyze_loop_patterns (String.append code extra) init)).
Proof.
  unfold analyze_loop_patterns. cbv zeta.
  destruct (@loops_prefix "for" code extra eq_refl) as [mf Ef].
  destruct (@loops_prefix "while" code extra eq_refl) as [mw Ew].
  change (loop_re "for") with for_loops_re in Ef.
  change (loop_re "while") with while_loops_re in Ew.
  rewrite Ef, Ew, !map_app.
  generalize (map (group 1) (findall for_loops_re code)).
  generalize (map (group 1) (findall while_loops_re code)).
  generalize (map (group 1) mf). generalize (map (group 1) mw).
  clear. intros MW MF W F.
  pose proof (count_expensive_grows F MF W MW) as HE.
  pose proof (count_expensive_nonneg (F ++ W)) as E0.
  pose proof (count_expensive_nonneg ((F ++ MF) ++ (W ++ MW))) as E1.
  pose proof (len_app F MF) as L1. pose proof (len_app W MW) as L2.
  pose proof (len_nonneg F). pose proof (len_nonneg W).
  pose proof (len_nonneg MF). pose proof (len_nonneg MW).
  destruct F, W, MF, MW; cbn [app] in *;
    cbn [gas_hotspots add_hotspot init app];
    rewrite ?category_cost_one, ?category_cost_nil;
    cbn [h_type estimated_cost];
    destruct (type_eqb LOOP_OPERATIONS T); lia.
Qed.

(** C7.  Appending text to the source, whatever it is, never lowers the
    estimated cost of any category in the report: the cost that the
    hotspots of type [T] add up to for [code ++ extra] is at least the one
    for [code]. *)
Theorem category_cost_monotone
        (path now path' now' code extra : string) (T : hotspot_type) :
  category_cost T (report_hotspots (analyze path now code))
  <= category_cost T
       (report_hotspots (analyze path' now' (String.append code extra))).
Proof.
  unfold analyze, gas_report. cbn [report_hotspots].
  rewrite !run_hotspots, !category_cost_app.
  pose proof (storage_mono T code extra).
  pose proof (loops_mono T code extra).
  pose proof (functions_mono T code extra).
  pose proof (arrays_mono T code extra).
  pose proof (mappings_mono T code extra).
  lia.
Qed.

(** One more assignment statement, as an instance: the storage cost goes
    from 5000 to 10000 and no other category moves. *)
Remark one_more_assignment :
  map (fun T => category_cost T (report_hotspots (analyze "" "" "x = 1;")))
      [STORAGE_USAGE; LOOP_OPERATIONS; FUNCTION_CALLS; ARRAY_OPERATIONS;
       MAPPING_OPERATIONS]
  = [5000; 0; 0; 0; 0] /\
  map (fun T =>
         category_cost T
           (report_hotspots (analyze "" "" (String.append "x = 1;" " y = 2;"))))
      [STORAGE_USAGE; LOOP_OPERATIONS; FUNCTION_CALLS; ARRAY_OPERATIONS;
       MAPPING_OPERATIONS]
  = [10000; 0; 0; 0; 0].
Proof. split; vm_compute; reflexivity. Qed.

End Categories.

(* ================================================================== *)
(** ** Accesses with a literal index *)
(* ================================================================== *)

Module Indexing.
Import Re Patterns GasAnalyzer Spec Terms Props Append.
Local Open Scope nat_scope.

(** *** The scan of a pattern that starts with a word *)

Section WordHeaded.
Variable r : regex.
Variable T : list ascii -> option (list ascii).
Hypothesis r_here :
  forall adv p s, match_here r adv p s = access_result adv s (word_then T s).
Hypothesis T_shape : forall v s', T v = Some s' -> exists t, v = t ++ s'.
Hypothesis T_closing :
  forall b rest,
    forallb (in_cset Space) b = true -> T (b ++ "]"%char :: rest) = None.

Lemma headed_irrel (s : list ascii) skip p p' :
  findall_from r skip p s = findall_from r skip p' s.
Proof.
  destruct s as [|y s]; destruct skip; cbn [findall_from];
    rewrite ?r_here; reflexivity.
Qed.

Lemma headed_fail y rest p :
  word_then T (y :: rest) = None ->
  findall_from r 0 p (y :: rest) = findall_from r 0 (Some y) rest.
Proof. intros H. cbn [findall_from]. rewrite r_here, H. reflexivity. Qed.

Lemma headed_nonword (t s' : list ascii) :
  forallb (fun y => negb (in_cset Word y)) t = true ->
  forall p p', findall_from r 0 p (t ++ s') = findall_from r 0 p' s'.
Proof.
  induction t as [|y t IH]; intros H p p'.
  - apply headed_irrel.
  - cbn [forallb] in H. apply andb_true_iff in H. destruct H as [Hy Ht].
    apply negb_true_iff in Hy.
    cbn [app]. rewrite headed_fail; [apply IH; exact Ht|].
    unfold word_then. rewrite Hy. reflexivity.
Qed.

Lemma headed_word (w v : list ascii) :
  forallb (in_cset Word) w = true -> head_in Word v = false ->
  T v = None ->
  forall p p', findall_from r 0 p (w ++ v) = findall_from r 0 p' v.
Proof.
  intros Hw Hv HT. induction w as [|y w IH]; intros p p'.
  - apply headed_irrel.
  - cbn [forallb] in Hw. apply andb_true_iff in Hw. destruct Hw as [Hy Hw].
    cbn [app]. rewrite headed_fail; [apply IH; exact Hw|].
    unfold word_then. rewrite Hy, (drop_run Word w v Hw Hv). exact HT.
Qed.

Lemma headed_first_word (rest : list ascii) :
  T (drop_class Word rest) = None ->
  forall p p',
    findall_from r 0 p rest = findall_from r 0 p' (drop_class Word rest).
Proof.
  intros HT p p'. rewrite <- (take_drop Word rest) at 1.
  apply headed_word; auto using take_all, drop_head.
Qed.

Lemma headed_step (s s' : list ascii) p p' :
  word_then T s = Some s' ->
  List.length (findall_from r 0 p s)
  = S (List.length (findall_from r 0 p' s')).
Proof.
  intros H.
  assert (Hs : exists y t, s = y :: t ++ s').
  { unfold word_then in H. destruct s as [|y rest]; [discriminate|].
    destruct (in_cset Word y); [|discriminate].
    destruct (T_shape H) as [t Ht].
    exists y, (take_class Word rest ++ t).
    rewrite <- app_assoc, <- Ht, take_drop. reflexivity. }
  destruct Hs as (y & t & ->).
  cbn [findall_from]. rewrite r_here, H.
  unfold access_result. cbn [andb].
  assert (L : List.length (y :: t ++ s') - List.length s'
              = S (List.length t)).
  { cbn [List.length]. rewrite length_app. lia. }
  rewrite L. cbn [List.length]. f_equal.
  rewrite findall_skip. f_equal. apply headed_irrel.
Qed.

(** Inside [\s*\[\s*\w+\s*\]] no match of the pattern starts. *)
Lemma headed_tail_dead (v s' : list ascii) :
  bracket_tail v = Some s' ->
  forall p p', findall_from r 0 p v = findall_from r 0 p' s'.
Proof.
  unfold bracket_tail. intros H.
  pose proof (take_drop Space v) as E1.
  pose proof (take_all Space v) as A1.
  destruct (drop_class Space v) as [|x v2]; [discriminate|].
  destruct (Ascii.eqb "[" x) eqn:Ex; [|discriminate].
  apply Ascii.eqb_eq in Ex. subst x.
  pose proof (take_drop Space v2) as E2.
  pose proof (take_all Space v2) as A2.
  destruct (drop_class Space v2) as [|z v4]; [discriminate|].
  destruct (in_cset Word z) eqn:Hz; [|discriminate].
  pose proof (take_drop Word v4) as E3.
  pose proof (take_all Word v4) as A3.
  pose proof (take_drop Space (drop_class Word v4)) as E4.
  pose proof (take_all Space (drop_class Word v4)) as A4.
  destruct (drop_class Space (drop_class Word v4)) as [|x' s0];
    [discriminate|].
  destruct (Ascii.eqb "]" x') eqn:Ex'; [|discriminate].
  apply Ascii.eqb_eq in Ex'. subst x'. injection H as ->.
  remember (take_class Space v) as a1.
  remember (take_class Space v2) as a2.
  remember (take_class Word v4) as w.
  remember (take_class Space (drop_class Word v4)) as a3.
  rewrite <- E4 in E3. rewrite <- E3 in E2. rewrite <- E2 in E1.
  clear - E1 A1 A2 A3 A4 Hz r_here T_closing. subst v.
  assert (E : a1 ++ "["%char :: a2 ++ z :: w ++ a3 ++ "]"%char :: s'
              = (a1 ++ "["%char :: a2) ++ (z :: w) ++ (a3 ++ ["]"%char]) ++ s').
  { rewrite <- ?app_assoc. cbn [app]. rewrite <- ?app_assoc. reflexivity. }
  rewrite E. clear E.
  intros p p'.
  rewrite (@headed_nonword (a1 ++ "["%char :: a2) _) with (p' := None).
  2:{ rewrite forallb_app. cbn [forallb].
      rewrite (blanks_nonword _ A1), (blanks_nonword _ A2). reflexivity. }
  rewrite (@headed_word (z :: w) _) with (p' := None).
  - apply headed_nonword. rewrite forallb_app, (blanks_nonword _ A4).
    reflexivity.
  - cbn [forallb]. rewrite Hz. exact A3.
  - destruct a3 as [|y a3]; [reflexivity|].
    cbn [forallb] in A4. apply andb_true_iff in A4. destruct A4 as [Hy _].
    cbn [app head_in]. apply blank_not_word. exact Hy.
  - rewrite <- app_assoc. apply T_closing. exact A4.
Qed.

End WordHeaded.

(** *** The pattern of the array detector *)

Lemma blank_not_digit (z : ascii) :
  in_cset Space z = true -> in_cset Digit z = false.
Proof.
  intros H. destruct (in_cset Digit z) eqn:D; [|reflexivity].
  cbn [in_cset] in D. apply digit_is_word in D.
  pose proof (blank_not_word z H) as W. cbn [in_cset] in W. congruence.
Qed.

Lemma digit_is_word_char (z : ascii) :
  in_cset Digit z = true -> in_cset Word z = true.
Proof. cbn [in_cset]. apply digit_is_word. Qed.

Lemma array_access_m (A : Type) p s c (k : cont A) :
  m array_access_re p s c k =
  match s with
  | y :: rest =>
      if in_cset Word y then
        match literal_index_tail (drop_class Word rest) with
        | Some s' => k (Some "]"%char) s' c
        | None => None
        end
      else None
  | [] => None
  end.
Proof.
  unfold array_access_re. cbn [m].
  destruct s as [|y rest]; [reflexivity|].
  destruct (in_cset Word y); [|reflexivity].
  rewrite m_star_greedy.
  2:{ intros p' z tl Hz. cbn [m_star]. rewrite (word_not_space z Hz).
      cbn [m_lit list_ascii_of_string].
      rewrite (@lit_avoids Word "[" z eq_refl Hz). reflexivity. }
  cbv beta. rewrite m_star_greedy.
  2:{ intros p' z tl Hz. cbn [m_lit list_ascii_of_string].
      rewrite (@lit_avoids Space "[" z eq_refl Hz). reflexivity. }
  cbv beta. unfold literal_index_tail.
  destruct (drop_class Space (drop_class Word rest)) as [|x v2];
    [reflexivity|].
  cbn [m_lit list_ascii_of_string].
  destruct (Ascii.eqb "[" x); [|reflexivity].
  rewrite m_star_greedy.
  2:{ intros p' z tl Hz. rewrite (blank_not_digit z Hz). reflexivity. }
  cbv beta.
  destruct (drop_class Space v2) as [|z v4]; [reflexivity|].
  destruct (in_cset Digit z); [|reflexivity].
  rewrite m_star_greedy.
  2:{ intros p' z' tl Hz. cbn [m_star].
      rewrite (word_not_space z' (digit_is_word_char z' Hz)).
      cbn [m_lit list_ascii_of_string].
      rewrite (@lit_avoids Digit "]" z' eq_refl Hz). reflexivity. }
  cbv beta. rewrite m_star_greedy.
  2:{ intros p' z' tl Hz. cbn [m_lit list_ascii_of_string].
      rewrite (@lit_avoids Space "]" z' eq_refl Hz). reflexivity. }
  cbv beta.
  destruct (drop_class Space (drop_class Digit v4)) as [|x' s'];
    [reflexivity|].
  cbn [m_lit list_ascii_of_string].
  destruct (Ascii.eqb "]" x') eqn:E; [|reflexivity].
  apply Ascii.eqb_eq in E. subst x'. reflexivity.
Qed.

Lemma array_access_here adv p s :
  match_here array_access_re adv p s
  = access_result adv s (word_then literal_index_tail s).
Proof.
  unfold match_here. rewrite array_access_m.
  unfold word_then, access_result.
  destruct s as [|y rest]; [reflexivity|].
  destruct (in_cset Word y); [|reflexivity].
  destruct (literal_index_tail (drop_class Word rest)); reflexivity.
Qed.

(** Where the pattern with a literal index goes on, the pattern with any
    word as index goes on as well, and to the same place. *)
Lemma literal_is_bracket (v s' : list ascii) :
  literal_index_tail v = Some s' -> bracket_tail v = Some s'.
Proof.
  unfold literal_index_tail, bracket_tail.
  destruct (drop_class Space v) as [|x v2]; [discriminate|].
  destruct (Ascii.eqb "[" x); [|discriminate].
  destruct (drop_class Space v2) as [|z v4]; [discriminate|].
  destruct (in_cset Digit z) eqn:Hz; [|discriminate].
  rewrite (digit_is_word_char z Hz).
  pose proof (take_drop Digit v4) as E.
  pose proof (take_all Digit v4) as A.
  pose proof (take_drop Space (drop_class Digit v4)) as E2.
  pose proof (take_all Space (drop_class Digit v4)) as A2.
  destruct (drop_class Space (drop_class Digit v4)) as [|x' s0] eqn:D;
    [discriminate|].
  destruct (Ascii.eqb "]" x') eqn:Ex; [|discriminate].
  apply Ascii.eqb_eq in Ex. subst x'. intros H. injection H as ->.
  assert (W : drop_class Word v4 = drop_class Digit v4).
  { rewrite <- E at 1. apply drop_run.
    - revert A. apply forallb_impl. exact digit_is_word_char.
    - rewrite <- E2.
      destruct (take_class Space (drop_class Digit v4)) as [|b bs];
        [reflexivity|].
      cbn [forallb] in A2. apply andb_true_iff in A2.
      destruct A2 as [Hb _]. cbn [app head_in].
      apply blank_not_word. exact Hb. }
  rewrite W, D. reflexivity.
Qed.

Lemma literal_shape (v s' : list ascii) :
  literal_index_tail v = Some s' -> exists t, v = t ++ s'.
Proof.
  intros H. apply literal_is_bracket in H.
  exact (proj1 (tail_dead AnyAccess _ H)).
Qed.

Lemma literal_closing (b rest : list ascii) :
  forallb (in_cset Space) b = true ->
  literal_index_tail (b ++ "]"%char :: rest) = None.
Proof.
  intros H. unfold literal_index_tail.
  rewrite (drop_run Space b ("]"%char :: rest) H eq_refl). reflexivity.
Qed.

Lemma literal_le_bracket (n : nat) :
  forall (s : list ascii) p,
    List.length s <= n ->
    List.length (findall_from array_access_re 0 p s)
    <= List.length (findall_from bracket_access_re 0 p s).
Proof.
  change bracket_access_re with (access_re AnyAccess).
  induction n as [|n IH]; intros s p Hn.
  - destruct s; [|simpl in Hn; lia].
    cbn [findall_from].
    rewrite array_access_here, match_here_access. simpl. lia.
  - destruct s as [|y rest].
    + cbn [findall_from].
      rewrite array_access_here, match_here_access. simpl. lia.
    + cbn [List.length] in Hn.
      destruct (in_cset Word y) eqn:Hy.
      2:{ rewrite (@headed_fail _ _ array_access_here y rest p)
            by (unfold word_then; rewrite Hy; reflexivity).
          rewrite (@access_fail AnyAccess y rest p)
            by (unfold access_end; rewrite Hy; reflexivity).
          apply IH. lia. }
      destruct (bracket_tail (drop_class Word rest)) as [s'|] eqn:TB.
      2:{ assert (TA : literal_index_tail (drop_class Word rest) = None).
          { destruct (literal_index_tail (drop_class Word rest)) eqn:TA;
              [|reflexivity].
            apply literal_is_bracket in TA. congruence. }
          rewrite (@headed_fail _ _ array_access_here y rest p)
            by (unfold word_then; rewrite Hy; exact TA).
          rewrite (@access_fail AnyAccess y rest p)
            by (unfold access_end, access_tail; rewrite Hy, TB; reflexivity).
          apply IH. lia. }
      assert (HB : access_end AnyAccess (y :: rest) = Some s')
        by (unfold access_end, access_tail; rewrite Hy, TB; reflexivity).
      destruct (access_end_shape _ _ HB) as (y' & t & Et).
      injection Et as <- Er.
      assert (Ls : List.length s' <= n).
      { rewrite Er, length_app in Hn. lia. }
      rewrite (@access_step AnyAccess _ _ p None HB).
      pose proof (IH s' None Ls) as IHs.
      destruct (literal_index_tail (drop_class Word rest)) as [s2|] eqn:TA.
      * pose proof (literal_is_bracket _ TA) as TB'.
        rewrite TB in TB'. injection TB' as <-.
        rewrite (@headed_step _ _ array_access_here literal_shape
                   (y :: rest) s' p None)
          by (unfold word_then; rewrite Hy; exact TA).
        lia.
      * rewrite (@headed_fail _ _ array_access_here y rest p)
          by (unfold word_then; rewrite Hy; exact TA).
        rewrite (@headed_first_word _ _ array_access_here rest TA
                   (Some y) None).
        rewrite (@headed_tail_dead _ _ array_access_here literal_closing
                   _ _ TB None None).
        lia.
Qed.

End Indexing.

(* ================================================================== *)
(** ** The totals of the report, and what else the code shows *)
(* ================================================================== *)

Module Further.
Import Re Patterns GasAnalyzer Spec Console Terms Props Append Categories
       Indexing.
Local Open Scope Z_scope.

(** *** The suggestions of a run, method by method *)

Lemma no_suggestion_storage code :
  optimizations (analyze_storage_usage code init) = [].
Proof. reflexivity. Qed.

Lemma no_suggestion_loops code :
  optimizations (analyze_loop_patterns code init) = [].
Proof.
  unfold analyze_loop_patterns.
  destruct (map (group 1) (findall for_loops_re code));
    [destruct (map (group 1) (findall while_loops_re code))|]; reflexivity.
Qed.

Lemma no_suggestion_functions code :
  optimizations (analyze_function_patterns code init) = [].
Proof. reflexivity. Qed.

Lemma no_suggestion_arrays code :
  optimizations (analyze_array_operations code init) = [].
Proof.
  unfold analyze_array_operations. destruct (Z.ltb 0 _); reflexivity.
Qed.

Lemma no_suggestion_mappings code :
  optimizations (analyze_mapping_operations code init) = [].
Proof.
  unfold analyze_mapping_operations. destruct (Z.ltb 0 _); reflexivity.
Qed.

Lemma run_optimizations code :
  optimizations (run_detectors code init) =
  optimizations (analyze_data_types code init) ++
  optimizations (_check_constant_variables code init) ++
  optimizations (_check_function_visibility code init) ++
  optimizations (_check_require_statements code init) ++
  optimizations (_check_event_usage code init) ++
  optimizations (_check_struct_packing code init).
Proof.
  unfold run_detectors, suggest_optimizations. cbv zeta.
  rewrite (proj2 (appends_structs code _)).
  rewrite (proj2 (appends_events code _)).
  rewrite (proj2 (appends_require code _)).
  rewrite (proj2 (appends_visibility code _)).
  rewrite (proj2 (appends_constants code _)).
  rewrite (proj2 (appends_mappings code _)).
  rewrite (proj2 (appends_arrays code _)).
  rewrite (proj2 (appends_data_types code _)).
  rewrite (proj2 (appends_functions code _)).
  rewrite (proj2 (appends_loops code _)).
  rewrite no_suggestion_storage, no_suggestion_loops,
    no_suggestion_functions, no_suggestion_arrays, no_suggestion_mappings.
  cbn [app]. rewrite !app_nil_r, <- !app_assoc. reflexivity.
Qed.

Lemma constants_suggested code :
  optimizations (_check_constant_variables code init) =
  map (fun mt => constant_suggestion (group 1 mt)) (constant_candidates_of code).
Proof.
  unfold _check_constant_variables, constant_candidates_of.
  exact (proj1 (fold_suggestions
                  (fun mt => Re.search literal_re (group 2 mt))
                  (fun mt => constant_suggestion (group 1 mt)) _ init)).
Qed.

Lemma structs_suggested code :
  optimizations (_check_struct_packing code init) =
  map (fun _ =>
         mkOptimization STRUCT_PACKING
           "Struct may benefit from variable packing (reorder smaller types together)"
           2000)
      (mixed_structs_of code).
Proof.
  unfold _check_struct_packing, mixed_structs_of.
  exact (proj1 (fold_suggestions mixed_struct
                  (fun _ => mkOptimization STRUCT_PACKING _ 2000) _ init)).
Qed.

Lemma sum_map_const (T : Type) (f : T -> Z) (c : Z) (l : list T) :
  (forall x, f x = c) -> sum (map f l) = c * len l.
Proof.
  intros H. induction l as [|x l IH].
  - unfold len, sum. simpl. lia.
  - cbn [map]. rewrite sum_cons, len_cons, IH, H. lia.
Qed.

Lemma sum_one (x : Z) : sum [x] = x.
Proof. rewrite sum_cons. unfold sum. simpl. lia. Qed.

(** *** The two totals, in closed form *)

Lemma storage_total code :
  sum (map estimated_cost (gas_hotspots (analyze_storage_usage code init))) =
  count storage_vars_re code * 20000 + count storage_writes_re code * 5000.
Proof.
  unfold analyze_storage_usage. cbv zeta.
  cbn [gas_hotspots add_hotspot init app map estimated_cost].
  rewrite sum_one. reflexivity.
Qed.

Lemma loops_total code :
  sum (map estimated_cost (gas_hotspots (analyze_loop_patterns code init))) =
  len (loop_bodies code) * 1000 + count_expensive (loop_bodies code) * 10000.
Proof.
  unfold analyze_loop_patterns, loop_bodies. cbv zeta.
  generalize (map (group 1) (findall for_loops_re code)).
  generalize (map (group 1) (findall while_loops_re code)).
  intros W F.
  destruct F as [|f F]; [destruct W as [|w W]|];
    cbn [gas_hotspots add_hotspot init app map estimated_cost];
    rewrite ?sum_one; try reflexivity;
    unfold len; cbn [List.length]; rewrite ?length_app; lia.
Qed.

Lemma functions_total code :
  sum (map estimated_cost
           (gas_hotspots (analyze_function_patterns code init))) =
  count functions_re code * 500 + count dotted_call_re code * 700 +
  count delegatecall_re code * 700.
Proof.
  unfold analyze_function_patterns. cbv zeta.
  cbn [gas_hotspots add_hotspot init app map estimated_cost].
  rewrite sum_one. reflexivity.
Qed.

Lemma arrays_total code :
  sum (map estimated_cost
           (gas_hotspots (analyze_array_operations code init))) =
  count array_push_re code * 20000 + count array_pop_re code * 5000 +
  count array_access_re code * 800.
Proof.
  unfold analyze_array_operations. cbv zeta.
  pose proof (count_nonneg array_push_re code).
  pose proof (count_nonneg array_pop_re code).
  pose proof (count_nonneg array_access_re code).
  destruct (Z.ltb_spec 0 (count array_push_re code + count array_pop_re code
                          + count array_access_re code));
    cbn [gas_hotspots add_hotspot init app map estimated_cost].
  - rewrite sum_one. reflexivity.
  - change (sum []) with 0. lia.
Qed.

Lemma mappings_total code :
  sum (map estimated_cost
           (gas_hotspots (analyze_mapping_operations code init))) =
  count mapping_reads_re code * 800 + count mapping_writes_re code * 20000.
Proof.
  unfold analyze_mapping_operations. cbv zeta.
  pose proof (count_nonneg mapping_reads_re code).
  pose proof (count_nonneg mapping_writes_re code).
  destruct (Z.ltb_spec 0 (count mapping_reads_re code
                          + count mapping_writes_re code));
    cbn [gas_hotspots add_hotspot init app map estimated_cost].
  - rewrite sum_one. reflexivity.
  - change (sum []) with 0. lia.
Qed.

(** The total cost of a report is one linear form of the match counts:
    the tests that decide whether the loop, array and mapping hotspots are
    listed do not show in it. *)
Theorem total_cost_formula (path now code : string) :
  total_estimated_cost (summary (analyze path now code)) =
    count storage_vars_re code * 20000 + count storage_writes_re code * 5000
    + len (loop_bodies code) * 1000
    + count_expensive (loop_bodies code) * 10000
    + count functions_re code * 500 + count dotted_call_re code * 700
    + count delegatecall_re code * 700
    + count array_push_re code * 20000 + count array_pop_re code * 5000
    + count array_access_re code * 800
    + count mapping_reads_re code * 800
    + count mapping_writes_re code * 20000.
Proof.
  unfold analyze, gas_report. cbn [summary total_estimated_cost].
  rewrite run_hotspots, !map_app, !sum_app.
  rewrite storage_total, loops_total, functions_total, arrays_total,
    mappings_total.
  lia.
Qed.

Lemma data_types_total code :
  sum (map gas_savings (optimizations (analyze_data_types code init))) =
  (if Z.ltb (count bytes_re code) (count (whole_word "string") code)
   then count (whole_word "string") code * 20 else 0) +
  (if Z.ltb (count uint_re code * 2) (count (whole_word "uint256") code)
   then count (whole_word "uint256") code * 5 else 0).
Proof.
  unfold analyze_data_types. cbv zeta.
  destruct (Z.ltb (count bytes_re code) (count (whole_word "string") code));
    destruct (Z.ltb (count uint_re code * 2)
                    (count (whole_word "uint256") code));
    cbn [optimizations add_optimization init app map gas_savings];
    rewrite ?sum_cons; change (sum []) with 0; lia.
Qed.

Lemma visibility_total code :
  sum (map gas_savings (optimizations (_check_function_visibility code init)))
  = count public_functions_re code * 50.
Proof.
  unfold _check_function_visibility. cbv zeta.
  pose proof (count_nonneg public_functions_re code).
  destruct (Z.ltb_spec 0 (count public_functions_re code));
    cbn [optimizations add_optimization init app map gas_savings].
  - rewrite sum_one. reflexivity.
  - change (sum []) with 0. lia.
Qed.

Lemma require_total code :
  sum (map gas_savings (optimizations (_check_require_statements code init)))
  = if Re.search (keyword_name "error") (list_ascii_of_string code)
    then 0 else count require_re code * 100.
Proof.
  unfold _check_require_statements. cbv zeta.
  pose proof (count_nonneg require_re code).
  destruct (Z.ltb_spec 0 (count require_re code));
    destruct (Re.search (keyword_name "error") (list_ascii_of_string code));
    cbn [andb negb optimizations add_optimization init app map gas_savings];
    rewrite ?sum_one; change (sum []) with 0; lia.
Qed.

Lemma events_total code :
  sum (map gas_savings (optimizations (_check_event_usage code init)))
  = Z.max 0 (count (keyword_name "event") code
             - count (keyword_name "emit") code) * 375.
Proof.
  unfold _check_event_usage. cbv zeta.
  destruct (Z.ltb_spec (count (keyword_name "emit") code)
                       (count (keyword_name "event") code));
    cbn [optimizations add_optimization init app map gas_savings].
  - rewrite sum_one. lia.
  - change (sum []) with 0. lia.
Qed.

(** The total of the savings: 20 per [string] when strings outnumber
    [bytes], 5 per [uint256] when they outnumber twice the [uint], 2300 per
    constant candidate, 50 per public function, 100 per [require] unless
    [error <name>] occurs somewhere, 375 per event declared and not
    emitted, 2000 per struct that mixes [uint256] with a smaller type. *)
Theorem total_savings_formula (path now code : string) :
  total_potential_savings (summary (analyze path now code)) =
    (if Z.ltb (count bytes_re code) (count (whole_word "string") code)
     then count (whole_word "string") code * 20 else 0)
    + (if Z.ltb (count uint_re code * 2) (count (whole_word "uint256") code)
       then count (whole_word "uint256") code * 5 else 0)
    + 2300 * len (constant_candidates_of code)
    + count public_functions_re code * 50
    + (if Re.search (keyword_name "error") (list_ascii_of_string code)
       then 0 else count require_re code * 100)
    + Z.max 0 (count (keyword_name "event") code
               - count (keyword_name "emit") code) * 375
    + 2000 * len (mixed_structs_of code).
Proof.
  unfold analyze, gas_report. cbn [summary total_potential_savings].
  rewrite run_optimizations, !map_app, !sum_app.
  rewrite data_types_total, visibility_total, require_total, events_total.
  rewrite constants_suggested, structs_suggested, !map_map.
  rewrite (@sum_map_const _ _ 2300) by reflexivity.
  rewrite (@sum_map_const _ _ 2000) by reflexivity.
  lia.
Qed.

(** *** More text, more cost *)

Lemma category_cost_cons T (h : Hotspot) (hs : list Hotspot) :
  category_cost T (h :: hs) =
  (if type_eqb (h_type h) T then estimated_cost h else 0)
  + category_cost T hs.
Proof.
  change (h :: hs) with ([h] ++ hs).
  rewrite category_cost_app, category_cost_one. reflexivity.
Qed.

Lemma total_as_categories (hs : list Hotspot) :
  sum (map estimated_cost hs) =
  category_cost STORAGE_USAGE hs + category_cost LOOP_OPERATIONS hs +
  category_cost FUNCTION_CALLS hs + category_cost ARRAY_OPERATIONS hs +
  category_cost MAPPING_OPERATIONS hs.
Proof.
  induction hs as [|h hs IH].
  - reflexivity.
  - cbn [map]. rewrite sum_cons, IH, !category_cost_cons.
    destruct (h_type h); cbn [type_eqb]; lia.
Qed.

Lemma hotspots_category_mono T (code extra : string) :
  category_cost T (gas_hotspots (run_detectors code init))
  <= category_cost T
       (gas_hotspots (run_detectors (String.append code extra) init)).
Proof.
  rewrite !run_hotspots, !category_cost_app.
  pose proof (storage_mono T code extra).
  pose proof (loops_mono T code extra).
  pose proof (functions_mono T code extra).
  pose proof (arrays_mono T code extra).
  pose proof (mappings_mono T code extra).
  lia.
Qed.

(** Appending text to the source, whatever it is, never lowers the total
    estimated cost of the summary and never raises the efficiency
    score. *)
Theorem more_text_lower_score (path now path' now' code extra : string) :
  total_estimated_cost (summary (analyze path now code))
  <= total_estimated_cost
       (summary (analyze path' now' (String.append code extra))) /\
  efficiency_score (summary (analyze path' now' (String.append code extra)))
  <= efficiency_score (summary (analyze path now code)).
Proof.
  unfold analyze, gas_report.
  cbn [summary total_estimated_cost efficiency_score].
  rewrite !total_as_categories.
  pose proof (hotspots_category_mono STORAGE_USAGE code extra).
  pose proof (hotspots_category_mono LOOP_OPERATIONS code extra).
  pose proof (hotspots_category_mono FUNCTION_CALLS code extra).
  pose proof (hotspots_category_mono ARRAY_OPERATIONS code extra).
  pose proof (hotspots_category_mono MAPPING_OPERATIONS code extra).
  match goal with
  | |- ?a <= ?b /\ _ =>
      assert (Hab : a <= b) by lia;
      pose proof (Z.div_le_mono a b 1000 ltac:(lia) Hab)
  end.
  split; [assumption|]. lia.
Qed.

(** *** Reads and writes of the mapping detector *)

(** Every index access [\w+\s*\[\s*\w+\s*\]] that the scan meets is
    counted once by the mapping detector, as a write when [\s*=] follows
    it and as a read when not; the cost of the category is 800 per access
    and 19200 more per write. *)
Theorem index_access_counted_once (path now code : string) :
  count mapping_reads_re code + count mapping_writes_re code
    = count bracket_access_re code /\
  category_cost MAPPING_OPERATIONS (report_hotspots (analyze path now code))
    = count bracket_access_re code * 800
      + count mapping_writes_re code * 19200.
Proof.
  pose proof (access_split code) as E. split; [exact E|].
  unfold analyze, gas_report. cbn [report_hotspots].
  pose proof (total_as_categories
                (gas_hotspots (analyze_mapping_operations code init))) as T.
  rewrite mappings_total in T.
  rewrite run_hotspots, !category_cost_app.
  assert (Z1 : category_cost MAPPING_OPERATIONS
                 (gas_hotspots (analyze_storage_usage code init)) = 0)
    by reflexivity.
  assert (Z2 : category_cost MAPPING_OPERATIONS
                 (gas_hotspots (analyze_function_patterns code init)) = 0)
    by reflexivity.
  assert (Z3 : category_cost MAPPING_OPERATIONS
                 (gas_hotspots (analyze_loop_patterns code init)) = 0).
  { unfold analyze_loop_patterns.
    destruct (map (group 1) (findall for_loops_re code));
      [destruct (map (group 1) (findall while_loops_re code))|];
      reflexivity. }
  assert (Z4 : category_cost MAPPING_OPERATIONS
                 (gas_hotspots (analyze_array_operations code init)) = 0).
  { unfold analyze_array_operations. destruct (Z.ltb 0 _); reflexivity. }
  assert (Z5 : forall K, K <> MAPPING_OPERATIONS ->
                 category_cost K
                   (gas_hotspots (analyze_mapping_operations code init)) = 0).
  { intros K HK. unfold analyze_mapping_operations.
    destruct (Z.ltb 0 _); [|reflexivity].
    cbn [gas_hotspots add_hotspot init app].
    rewrite category_cost_one. cbn [h_type].
    destruct K; try reflexivity. congruence. }
  rewrite Z1, Z2, Z3, Z4.
  rewrite !Z5 in T by discriminate. lia.
Qed.

(** *** What an entry of the report is worth *)

Lemma sum_positive (l : list Z) :
  Forall (fun x => 0 < x) l -> l <> [] -> 0 < sum l.
Proof.
  intros H. induction H as [|x l Hx Hl IH]; [congruence|].
  intros _. rewrite sum_cons. destruct l as [|y l].
  - change (sum []) with 0. lia.
  - assert (0 < sum (y :: l)) by (apply IH; discriminate). lia.
Qed.

Ltac each_entry :=
  repeat first [apply Forall_nil | apply Forall_cons].

Lemma Forall_app_intro (T : Type) (P : T -> Prop) (l1 l2 : list T) :
  Forall P l1 -> Forall P l2 -> Forall P (l1 ++ l2).
Proof. intros H1 H2. apply Forall_app. split; assumption. Qed.

Lemma savings_positive_run code :
  Forall (fun o => 0 < gas_savings o) (optimizations (run_detectors code init)).
Proof.
  rewrite run_optimizations.
  apply Forall_app_intro;
    [|apply Forall_app_intro;
      [|apply Forall_app_intro;
        [|apply Forall_app_intro; [|apply Forall_app_intro]]]].
  - unfold analyze_data_types. cbv zeta.
    pose proof (count_nonneg bytes_re code).
    pose proof (count_nonneg uint_re code).
    destruct (Z.ltb_spec (count bytes_re code)
                         (count (whole_word "string") code));
      destruct (Z.ltb_spec (count uint_re code * 2)
                           (count (whole_word "uint256") code));
      cbn [optimizations add_optimization init app];
      each_entry; cbn [gas_savings]; lia.
  - rewrite constants_suggested. apply Forall_forall. intros o Ho.
    apply in_map_iff in Ho. destruct Ho as [mt [<- _]].
    cbn [gas_savings constant_suggestion]. lia.
  - unfold _check_function_visibility. cbv zeta.
    destruct (Z.ltb_spec 0 (count public_functions_re code));
      cbn [optimizations add_optimization init app];
      each_entry; cbn [gas_savings]; lia.
  - unfold _check_require_statements. cbv zeta.
    destruct (Z.ltb_spec 0 (count require_re code));
      destruct (Re.search (keyword_name "error") (list_ascii_of_string code));
      cbn [andb negb optimizations add_optimization init app];
      each_entry; cbn [gas_savings]; lia.
  - unfold _check_event_usage. cbv zeta.
    destruct (Z.ltb_spec (count (keyword_name "emit") code)
                         (count (keyword_name "event") code));
      cbn [optimizations add_optimization init app];
      each_entry; cbn [gas_savings]; lia.
  - rewrite structs_suggested. apply Forall_forall. intros o Ho.
    apply in_map_iff in Ho. destruct Ho as [mt [<- _]].
    cbn [gas_savings]. lia.
Qed.

(** Every suggestion of a report saves something: its [gas_savings] is
    above zero.  So the total of the savings is zero only when there is
    no suggestion at all. *)
Theorem suggestions_save_gas (path now code : string) :
  Forall (fun o => 0 < gas_savings o)
         (report_optimizations (analyze path now code)) /\
  (total_potential_savings (summary (analyze path now code)) = 0 <->
   report_optimizations (analyze path now code) = []).
Proof.
  unfold analyze, gas_report.
  cbn [report_optimizations summary total_potential_savings].
  pose proof (savings_positive_run code) as P.
  split; [exact P|].
  split.
  - intros Hz.
    destruct (optimizations (run_detectors code init)) as [|o l] eqn:E;
      [reflexivity|].
    assert (0 < sum (map gas_savings (o :: l))).
    { apply sum_positive; [|discriminate].
      apply Forall_forall. intros x Hx. apply in_map_iff in Hx.
      destruct Hx as [o' [<- Ho']].
      exact (proj1 (Forall_forall _ _) P o' Ho'). }
    lia.
  - intros ->. reflexivity.
Qed.

(** The loop, array and mapping hotspots are listed only when they cost
    something: a loop hotspot costs at least 1000, an array or mapping
    hotspot at least 800.  A hotspot of cost zero is the storage or the
    function one. *)
Theorem listed_hotspots_cost (path now code : string) :
  Forall (fun h =>
            match h_type h with
            | LOOP_OPERATIONS => 1000 <= estimated_cost h
            | ARRAY_OPERATIONS | MAPPING_OPERATIONS => 800 <= estimated_cost h
            | STORAGE_USAGE | FUNCTION_CALLS => 0 <= estimated_cost h
            end)
         (report_hotspots (analyze path now code)).
Proof.
  unfold analyze, gas_report. cbn [report_hotspots].
  rewrite run_hotspots.
  apply Forall_app_intro;
    [|apply Forall_app_intro;
      [|apply Forall_app_intro; [|apply Forall_app_intro]]].
  - unfold analyze_storage_usage. cbv zeta.
    cbn [gas_hotspots add_hotspot init app].
    each_entry. cbn [h_type estimated_cost]. unfold storage_cost.
    pose proof (count_nonneg storage_vars_re code).
    pose proof (count_nonneg storage_writes_re code).
    unfold count in *. lia.
  - unfold analyze_loop_patterns. cbv zeta.
    generalize (map (group 1) (findall for_loops_re code)).
    generalize (map (group 1) (findall while_loops_re code)).
    intros W F.
    pose proof (count_expensive_nonneg (F ++ W)).
    destruct F as [|f F]; [destruct W as [|w W]|];
      cbn [gas_hotspots add_hotspot init app] in *;
      each_entry; cbn [h_type estimated_cost]; rewrite ?len_cons.
    + pose proof (len_nonneg W).
      change (len (@nil (list ascii))) with 0. lia.
    + pose proof (len_nonneg F). pose proof (len_nonneg W). lia.
  - unfold analyze_function_patterns. cbv zeta.
    cbn [gas_hotspots add_hotspot init app].
    each_entry. cbn [h_type estimated_cost].
    pose proof (count_nonneg functions_re code).
    pose proof (count_nonneg dotted_call_re code).
    pose proof (count_nonneg delegatecall_re code).
    unfold count in *. lia.
  - unfold analyze_array_operations. cbv zeta.
    pose proof (count_nonneg array_push_re code).
    pose proof (count_nonneg array_pop_re code).
    pose proof (count_nonneg array_access_re code).
    destruct (Z.ltb_spec 0 (count array_push_re code + count array_pop_re code
                            + count array_access_re code));
      cbn [gas_hotspots add_hotspot init app];
      each_entry; cbn [h_type estimated_cost]; lia.
  - unfold analyze_mapping_operations. cbv zeta.
    pose proof (count_nonneg mapping_reads_re code).
    pose proof (count_nonneg mapping_writes_re code).
    destruct (Z.ltb_spec 0 (count mapping_reads_re code
                            + count mapping_writes_re code));
      cbn [gas_hotspots add_hotspot init app];
      each_entry; cbn [h_type estimated_cost]; lia.
Qed.

(** *** The order of the suggestions *)

Lemma map_const_repeat (T U : Type) (f : T -> U) (c : U) (l : list T) :
  (forall x, f x = c) -> map f l = repeat c (List.length l).
Proof.
  intros H. induction l as [|x l IH]; simpl; [reflexivity|].
  rewrite H, IH. reflexivity.
Qed.

(** The suggestions of a report stand in the order of the checks: at most
    two on data types, one per constant candidate, at most one each on
    visibility, on error style and on events, one per struct that mixes
    [uint256] with a smaller type. *)
Theorem suggestion_order (path now code : string) :
  exists (d : nat) (v e ev : bool),
    (d <= 2)%nat /\
    map o_type (report_optimizations (analyze path now code)) =
      repeat DATA_TYPE_OPTIMIZATION d ++
      repeat CONSTANT_OPTIMIZATION (List.length (constant_candidates_of code)) ++
      (if v then [VISIBILITY_OPTIMIZATION] else []) ++
      (if e then [ERROR_OPTIMIZATION] else []) ++
      (if ev then [EVENT_OPTIMIZATION] else []) ++
      repeat STRUCT_PACKING (List.length (mixed_structs_of code)).
Proof.
  unfold analyze, gas_report. cbn [report_optimizations].
  rewrite run_optimizations, !map_app.
  assert (Hc : map o_type (optimizations (_check_constant_variables code init))
               = repeat CONSTANT_OPTIMIZATION
                        (List.length (constant_candidates_of code))).
  { rewrite constants_suggested, map_map. apply map_const_repeat.
    reflexivity. }
  assert (Hs : map o_type (optimizations (_check_struct_packing code init))
               = repeat STRUCT_PACKING (List.length (mixed_structs_of code))).
  { rewrite structs_suggested, map_map. apply map_const_repeat.
    reflexivity. }
  rewrite Hc, Hs.
  assert (Hd : exists d : nat,
             (d <= 2)%nat /\
             map o_type (optimizations (analyze_data_types code init)) =
             repeat DATA_TYPE_OPTIMIZATION d).
  { unfold analyze_data_types. cbv zeta.
    destruct (Z.ltb (count bytes_re code) (count (whole_word "string") code));
      destruct (Z.ltb (count uint_re code * 2)
                      (count (whole_word "uint256") code));
      [exists 2%nat | exists 1%nat | exists 1%nat | exists 0%nat];
      split; (lia || reflexivity). }
  assert (Hv : exists b : bool,
             map o_type (optimizations (_check_function_visibility code init))
             = if b then [VISIBILITY_OPTIMIZATION] else []).
  { unfold _check_function_visibility.
    destruct (Z.ltb 0 _); [exists true | exists false]; reflexivity. }
  assert (He : exists b : bool,
             map o_type (optimizations (_check_require_statements code init))
             = if b then [ERROR_OPTIMIZATION] else []).
  { unfold _check_require_statements.
    destruct (andb _ _); [exists true | exists false]; reflexivity. }
  assert (Hev : exists b : bool,
             map o_type (optimizations (_check_event_usage code init))
             = if b then [EVENT_OPTIMIZATION] else []).
  { unfold _check_event_usage.
    destruct (Z.ltb _ _); [exists true | exists false]; reflexivity. }
  destruct Hd as (d & Hd2 & Hd), Hv as [v Hv], He as [e He], Hev as [ev Hev].
  exists d, v, e, ev. split; [exact Hd2|].
  rewrite Hd, Hv, He, Hev. reflexivity.
Qed.

(** *** An analyzer used twice *)

(** The two lists of an instance are never emptied, and a report holds
    the lists themselves.  After a second call of [analyze_contract] on
    the same instance and the same file, the second report holds every
    entry of a single pass twice and its totals and counts are twice
    those of the first; the first report, read again, shows the same
    lengthened lists under its old summary, whose counts are then half
    of what it lists. *)
Theorem reuse_accumulates (fs : string -> read_result)
        (now1 now2 path code : string) :
  fs path = FileText code ->
  exists r1 r2,
    snd (analyze_contract fs true now1 path init) = Returned r1 /\
    snd (analyze_contract fs true now2 path
           (fst (analyze_contract fs true now1 path init))) = Returned r2 /\
    report_hotspots r2 =
      gas_hotspots (run_detectors code init) ++
      gas_hotspots (run_detectors code init) /\
    report_optimizations r2 =
      optimizations (run_detectors code init) ++
      optimizations (run_detectors code init) /\
    total_estimated_cost (summary r2) = 2 * total_estimated_cost (summary r1) /\
    total_potential_savings (summary r2)
      = 2 * total_potential_savings (summary r1) /\
    hotspot_count (summary r2) = 2 * hotspot_count (summary r1) /\
    optimization_count (summary r2) = 2 * optimization_count (summary r1) /\
    let later :=
      read_report
        (fst (analyze_contract fs true now2 path
                (fst (analyze_contract fs true now1 path init)))) r1 in
    report_hotspots later = report_hotspots r2 /\
    report_optimizations later = report_optimizations r2 /\
    summary later = summary r1 /\
    len (report_hotspots later) = 2 * hotspot_count (summary later) /\
    len (report_optimizations later) = 2 * optimization_count (summary later).
Proof.
  intros H. unfold analyze_contract, generate_gas_report. rewrite H.
  cbn [fst snd].
  eexists. eexists. split; [reflexivity|]. split; [reflexivity|].
  unfold read_report, gas_report.
  cbn [report_hotspots report_optimizations summary total_estimated_cost
       total_potential_savings hotspot_count optimization_count].
  destruct (appends_run code (run_detectors code init)) as [Hh Ho].
  rewrite Hh, Ho, !map_app, !sum_app, !len_app.
  repeat split; lia.
Qed.

Lemma reuse_accumulates_witness :
  one_file "x = 1;" "a.sol" = FileText "x = 1;" /\
  exists r1 r2,
    snd (analyze_contract (one_file "x = 1;") true "t1" "a.sol" init)
      = Returned r1 /\
    snd (analyze_contract (one_file "x = 1;") true "t2" "a.sol"
           (fst (analyze_contract (one_file "x = 1;") true "t1" "a.sol" init)))
      = Returned r2 /\
    report_hotspots r2 =
      gas_hotspots (run_detectors "x = 1;" init) ++
      gas_hotspots (run_detectors "x = 1;" init) /\
    report_optimizations r2 =
      optimizations (run_detectors "x = 1;" init) ++
      optimizations (run_detectors "x = 1;" init) /\
    total_estimated_cost (summary r2) = 2 * total_estimated_cost (summary r1) /\
    total_potential_savings (summary r2)
      = 2 * total_potential_savings (summary r1) /\
    hotspot_count (summary r2) = 2 * hotspot_count (summary r1) /\
    optimization_count (summary r2) = 2 * optimization_count (summary r1) /\
    let later :=
      read_report
        (fst (analyze_contract (one_file "x = 1;") true "t2" "a.sol"
                (fst (analyze_contract (one_file "x = 1;") true "t1" "a.sol"
                        init)))) r1 in
    report_hotspots later = report_hotspots r2 /\
    report_optimizations later = report_optimizations r2 /\
    summary later = summary r1 /\
    len (report_hotspots later) = 2 * hotspot_count (summary later) /\
    len (report_optimizations later) = 2 * optimization_count (summary later).
Proof.
  split; [reflexivity|].
  apply (@reuse_accumulates (one_file "x = 1;") "t1" "t2" "a.sol" "x = 1;").
  reflexivity.
Defined.

(** *** The lookahead of the [uint] count *)

Lemma findall_same (r1 r2 : regex) :
  (forall adv p s, match_here r1 adv p s = match_here r2 adv p s) ->
  forall s skip p, findall_from r1 skip p s = findall_from r2 skip p s.
Proof.
  intros H. induction s as [|y s IH]; intros skip p.
  - destruct skip; cbn [findall_from]; rewrite ?H; reflexivity.
  - destruct skip; cbn [findall_from]; rewrite ?H, ?IH; [|reflexivity].
    destruct (match_here r2 false p (y :: s)) as [[[|n] mt]|];
      rewrite ?IH; try reflexivity.
    destruct (match_here r2 true p (y :: s)) as [[n2 mt2]|];
      rewrite ?IH; reflexivity.
Qed.

Lemma digit_not_after_word (s : list ascii) :
  word_after s = false ->
  match s with
  | y :: _ => if in_cset Digit y then Some tt else None
  | [] => None
  end = None.
Proof.
  destruct s as [|y s]; [reflexivity|]. cbn [word_after]. intros H.
  destruct (in_cset Digit y) eqn:D; [|reflexivity].
  cbn [in_cset] in D. rewrite (digit_is_word y D) in H. discriminate.
Qed.

Lemma uint_lookahead_idle (A : Type) p s c (k : cont A) :
  m uint_re p s c k = m (whole_word "uint") p s c k.
Proof.
  unfold uint_re, whole_word. cbn [m list_ascii_of_string].
  destruct (xorb (word_before p) (word_after s)); [|reflexivity].
  cbn [m_lit].
  destruct s as [|a1 s]; [reflexivity|].
  destruct (Ascii.eqb "u" a1); [|reflexivity].
  destruct s as [|a2 s]; [reflexivity|].
  destruct (Ascii.eqb "i" a2); [|reflexivity].
  destruct s as [|a3 s]; [reflexivity|].
  destruct (Ascii.eqb "n" a3); [|reflexivity].
  destruct s as [|a4 s]; [reflexivity|].
  destruct (Ascii.eqb "t" a4) eqn:E; [|reflexivity].
  apply Ascii.eqb_eq in E. subst a4.
  change (word_before (Some "t"%char)) with true.
  destruct (word_after s) eqn:W; cbn [xorb]; [reflexivity|].
  rewrite (digit_not_after_word s W). reflexivity.
Qed.

(** The count of [uint] in the data type check is the count of the whole
    word [uint]: after [\buint\b] the lookahead [(?!\d)] never fails, a
    digit being a word character. *)
Theorem uint_count_is_whole_word (code : string) :
  count uint_re code = count (whole_word "uint") code.
Proof.
  unfold count, findall, Re.findall. f_equal.
  apply findall_same. intros adv p s. unfold match_here.
  apply uint_lookahead_idle.
Qed.

(** *** Declarations and lines *)

Lemma line_start_marks q p (t : list ascii) :
  (marks line_start_marker q p t
   <= (if at_bol p then 1 else 0) + occurrences newline t)%nat.
Proof.
  revert q p. induction t as [|y t IH]; intros q p.
  - simpl. lia.
  - cbn [marks line_start_marker mk_mark mk_step occurrences].
    specialize (IH q (Some y)). cbn [at_bol] in IH.
    change (mk_mark line_start_marker) with (fun (_ : bool) (p0 : option ascii)
                                               (_ : ascii) => at_bol p0) in *.
    change (mk_step line_start_marker) with (fun (q0 : bool) (_ : ascii) => q0)
      in *.
    cbv beta in *. unfold newline in *.
    destruct (at_bol p); lia.
Qed.

Lemma vars_line_start q p (t : list ascii) :
  matches storage_vars_re p t -> (1 <= marks line_start_marker q p t)%nat.
Proof.
  intros H. pose proof (@vars_marks q p t H) as W.
  assert (B : at_bol p = true).
  { unfold storage_vars_re in H. cbn [matches] in H.
    destruct H as (t0 & r0 & _ & [_ Hb] & _). exact Hb. }
  destruct t as [|y t]; [simpl in W; lia|].
  cbn [marks line_start_marker mk_mark]. rewrite B. lia.
Qed.

(** The declarations of state variables that are counted start on
    different lines: there are never more of them than there are lines
    in the text, whatever stands on the lines. *)
Theorem declarations_within_lines (code : string) :
  count storage_vars_re code
  <= 1 + Z.of_nat (occurrences newline (list_ascii_of_string code)).
Proof.
  unfold count, len, findall, Re.findall.
  pose proof (@count_le_marks storage_vars_re line_start_marker 1
                vars_line_start (le_n 1)
                (list_ascii_of_string code) 0%nat None false) as H.
  cbn [firstn skipn run last_char] in H.
  pose proof (line_start_marks false None (list_ascii_of_string code)) as L.
  cbn [at_bol] in L. lia.
Qed.

(** *** An access counted twice *)

(** Every access with a literal index that the array detector counts,
    [\w+\s*\[\s*\d+\s*\]], is counted by the mapping detector as well, as
    a read or as a write. *)
Theorem literal_index_counted_twice (code : string) :
  count array_access_re code
  <= count mapping_reads_re code + count mapping_writes_re code.
Proof.
  rewrite access_split. unfold count, len, findall, Re.findall.
  apply Nat2Z.inj_le.
  apply (@literal_le_bracket _ (list_ascii_of_string code) None (le_n _)).
Qed.

End Further.

(* ================================================================== *)
(** ** The printed report and the end of a run *)
(* ================================================================== *)

Module Printing.
Import Re Patterns GasAnalyzer Spec Console Terms Props Append.
Local Open Scope Z_scope.

(** *** The rating *)

Lemma rating_line_of_cost (t : Z) :
  rating_line (Z.max 0 (100 - t / 1000)) = rating_of_cost t.
Proof.
  unfold rating_line, rating_of_cost.
  pose proof (Z.div_mod t 1000 ltac:(lia)) as D.
  pose proof (Z.mod_pos_bound t 1000 ltac:(lia)) as B.
  set (q := t / 1000) in *. set (r := t mod 1000) in *. clearbody q r.
  destruct (Z.leb_spec 90 (Z.max 0 (100 - q))),
           (Z.leb_spec 75 (Z.max 0 (100 - q))),
           (Z.leb_spec 50 (Z.max 0 (100 - q))),
           (Z.ltb_spec t 11000), (Z.ltb_spec t 26000), (Z.ltb_spec t 51000);
    try reflexivity; lia.
Qed.

(** The rating that [print_gas_report] prints for the report of an
    instance is fixed by the total cost: EXCELLENT below 11000 gas, GOOD
    from there up to 25999, NEEDS IMPROVEMENT up to 50999, CRITICAL from
    51000 on.  It is the ninth thing printed. *)
Theorem rating_by_cost (path now : string) (self : State) :
  nth_error (print_gas_report self (gas_report path now self)) 8 =
  Some (rating_of_cost
          (total_estimated_cost (summary (gas_report path now self)))).
Proof.
  unfold print_gas_report, head_lines. cbn [app nth_error].
  unfold gas_report. cbn [summary efficiency_score total_estimated_cost].
  rewrite rating_line_of_cost. reflexivity.
Qed.

(** *** Numbers with commas *)

Lemma group3_four (a b c e : ascii) (l : list ascii) :
  group3 (a :: b :: c :: e :: l) = a :: b :: c :: ","%char :: group3 (e :: l).
Proof. reflexivity. Qed.

Lemma group3_snoc (rd : list ascii) (d : ascii) :
  group3 (rd ++ [d]) =
  group3 rd ++
  (if (Nat.eqb (List.length rd mod 3) 0
       && negb (Nat.eqb (List.length rd) 0))%bool
   then [","%char; d] else [d]).
Proof.
  assert (H : forall n rd, (List.length rd <= n)%nat ->
                group3 (rd ++ [d]) =
                group3 rd ++
                (if (Nat.eqb (List.length rd mod 3) 0
                     && negb (Nat.eqb (List.length rd) 0))%bool
                 then [","%char; d] else [d])).
  { clear rd. induction n as [|n IH]; intros rd Hn.
    - destruct rd; [reflexivity|simpl in Hn; lia].
    - destruct rd as [|a [|b [|c rest]]]; try reflexivity.
      destruct rest as [|e rest]; [reflexivity|].
      change ((a :: b :: c :: e :: rest) ++ [d])
        with (a :: b :: c :: e :: (rest ++ [d])).
      rewrite !group3_four.
      change (e :: rest ++ [d]) with ((e :: rest) ++ [d]).
      rewrite IH by (simpl in Hn |- *; lia).
      cbn [app]. do 4 f_equal. f_equal.
      change (List.length (a :: b :: c :: e :: rest))
        with (3 + List.length (e :: rest))%nat.
      replace ((3 + List.length (e :: rest)) mod 3)%nat
        with (List.length (e :: rest) mod 3)%nat.
      + reflexivity.
      + rewrite Nat.add_comm.
        rewrite <- (Nat.Div0.mod_add (List.length (e :: rest)) 1 3).
        reflexivity. }
  apply (H (List.length rd)). lia.
Qed.

Lemma commas_two_ways (digits : list ascii) :
  rev (group3 (rev digits)) = commas_from_left digits.
Proof.
  induction digits as [|d rest IH]; [reflexivity|].
  cbn [rev commas_from_left]. rewrite group3_snoc, length_rev.
  destruct (Nat.eqb (List.length rest mod 3) 0
            && negb (Nat.eqb (List.length rest) 0))%bool;
    rewrite rev_app_distr; cbn [rev app]; rewrite IH; reflexivity.
Qed.

Lemma strip_from_left (digits : list ascii) :
  filter (fun c => negb (Ascii.eqb c ",")) (commas_from_left digits)
  = filter (fun c => negb (Ascii.eqb c ",")) digits.
Proof.
  induction digits as [|d rest IH]; [reflexivity|].
  cbn [commas_from_left filter].
  destruct (Nat.eqb (List.length rest mod 3) 0
            && negb (Nat.eqb (List.length rest) 0))%bool;
    cbn [filter Ascii.eqb Bool.eqb negb]; rewrite IH; reflexivity.
Qed.

Lemma uint_digits (d : Decimal.uint) :
  filter (fun c => negb (Ascii.eqb c ","))
         (list_ascii_of_string (NilEmpty.string_of_uint d))
  = list_ascii_of_string (NilEmpty.string_of_uint d).
Proof.
  induction d; cbn [NilEmpty.string_of_uint list_ascii_of_string filter];
    try reflexivity;
    cbn [Ascii.eqb Bool.eqb negb]; rewrite IHd; reflexivity.
Qed.

Lemma fmt_digits (z : Z) :
  0 <= z ->
  filter (fun c => negb (Ascii.eqb c ",")) (list_ascii_of_string (fmt z))
  = list_ascii_of_string (fmt z).
Proof.
  intros H. destruct z as [|q|q]; [reflexivity| |lia].
  unfold fmt. apply uint_digits.
Qed.

Lemma fmt_sign (z : Z) :
  fmt z = (if Z.ltb z 0 then "-" else "") ^^ fmt (Z.abs z).
Proof. destruct z; reflexivity. Qed.

(** [f"{n:,}"] is the decimal text of the number with a comma after each
    digit that has a multiple of three digits, and at least three, after
    it; the sign comes first.  Taking the commas out gives the decimal
    text back. *)
Theorem thousands_grouping (z : Z) :
  thousands z =
    (if Z.ltb z 0 then "-" else "") ^^
    string_of_list_ascii
      (commas_from_left (list_ascii_of_string (fmt (Z.abs z)))) /\
  strip_commas (thousands z) = fmt z.
Proof.
  assert (E : thousands z =
              (if Z.ltb z 0 then "-" else "") ^^
              string_of_list_ascii
                (commas_from_left (list_ascii_of_string (fmt (Z.abs z))))).
  { unfold thousands, with_commas. rewrite commas_two_ways. reflexivity. }
  split; [exact E|].
  unfold strip_commas. rewrite E, list_ascii_of_string_app.
  rewrite list_ascii_of_string_of_list_ascii, filter_app, strip_from_left.
  rewrite fmt_digits by lia.
  rewrite (fmt_sign z) at 1.
  destruct (Z.ltb z 0);
    cbn [list_ascii_of_string filter Ascii.eqb Bool.eqb negb app
         string_of_list_ascii String.append];
    rewrite string_of_list_ascii_of_string; reflexivity.
Qed.

(** *** The entries, numbered *)

Lemma nth_error_after (T : Type) (l1 l2 : list T) (n : nat) :
  nth_error (l1 ++ l2) (List.length l1 + n) = nth_error l2 n.
Proof.
  rewrite nth_error_app2 by lia. f_equal. lia.
Qed.

Lemma nth_error_within (T : Type) (l1 l2 : list T) (n : nat) (x : T) :
  nth_error l1 n = Some x -> nth_error (l1 ++ l2) n = Some x.
Proof.
  intros H. rewrite nth_error_app1; [exact H|].
  apply nth_error_Some. congruence.
Qed.

Section Blocks.
Variable T : Type.
Variable lines : Z * T -> list string.
Variable width : nat.
Hypothesis lines_width : forall ix, List.length (lines ix) = width.

Lemma block_at (l : list T) (rest : list string) :
  forall (i : Z) (k : nat) (x : T) (j : nat) (line : string),
    nth_error l k = Some x ->
    nth_error (lines (i + Z.of_nat k, x)) j = Some line ->
    nth_error (flat_map lines (enumerate i l) ++ rest) (width * k + j)
    = Some line.
Proof.
  induction l as [|y l IH]; intros i k x j line Hk Hj.
  - destruct k; discriminate.
  - cbn [enumerate flat_map]. rewrite <- app_assoc.
    destruct k as [|k].
    + injection Hk as ->. rewrite Z.add_0_r in Hj.
      rewrite Nat.mul_0_r. cbn [Nat.add].
      apply nth_error_within. exact Hj.
    + replace (width * S k + j)%nat
        with (List.length (lines (i, y)) + (width * k + j))%nat
        by (rewrite lines_width; lia).
      rewrite nth_error_after.
      apply (IH (i + 1) k x j line Hk).
      replace (i + 1 + Z.of_nat k) with (i + Z.of_nat (S k)) by lia.
      exact Hj.
Qed.

End Blocks.

Lemma hotspot_lines_width (ih : Z * Hotspot) :
  List.length (hotspot_lines ih) = 5%nat.
Proof. destruct ih. reflexivity. Qed.

(** The hotspots are printed in the order of the list and numbered from
    1: the block of the hotspot at index [k] starts at line [11 + 5 k]
    with its number, severity and type, and its third line carries the
    cost with commas. *)
Theorem hotspots_numbered (self : State) (report : Report)
        (k : nat) (h : Hotspot) :
  nth_error (gas_hotspots self) k = Some h ->
  nth_error (print_gas_report self report) (hotspot_line_index k) =
    Some (fmt (Z.of_nat k + 1) ^^ ". [" ^^ severity_name (h_severity h) ^^
          "] " ^^ hotspot_type_name (h_type h)) /\
  nth_error (print_gas_report self report) (hotspot_line_index k + 2) =
    Some ("   Estimated Cost: " ^^ thousands (estimated_cost h) ^^ " gas").
Proof.
  intros H. unfold print_gas_report, hotspot_line_index.
  destruct (gas_hotspots self) as [|h0 hs] eqn:E;
    [destruct k; discriminate|].
  rewrite <- E in *. clear E h0 hs.
  change (11 + 5 * k)%nat with (9 + (2 + 5 * k))%nat.
  replace (9 + (2 + 5 * k) + 2)%nat with (9 + (2 + (5 * k + 2)))%nat by lia.
  change 9%nat with (List.length (head_lines report)).
  rewrite !nth_error_after, <- !app_assoc.
  change (2 + 5 * k)%nat
    with (List.length [nl ^^ " GAS HOTSPOTS:"; rule "-" 40] + 5 * k)%nat.
  change (2 + (5 * k + 2))%nat
    with (List.length [nl ^^ " GAS HOTSPOTS:"; rule "-" 40] + (5 * k + 2))%nat.
  rewrite !nth_error_after.
  split.
  - rewrite <- (Nat.add_0_r (5 * k)).
    apply (@block_at Hotspot hotspot_lines 5 hotspot_lines_width
                     (gas_hotspots self) _ 1 k h 0%nat _ H).
    cbn [hotspot_lines nth_error]. do 5 f_equal. f_equal. lia.
  - apply (@block_at Hotspot hotspot_lines 5 hotspot_lines_width
                     (gas_hotspots self) _ 1 k h 2%nat _ H).
    reflexivity.
Qed.

Lemma hotspots_numbered_witness :
  nth_error (gas_hotspots two_hotspots) 1 =
    Some (mkHotspot FUNCTION_CALLS MEDIUM
            "Found 0 functions, 0 external calls, 0 delegate calls" 0
            "Use internal functions when possible, batch external calls") /\
  nth_error (print_gas_report two_hotspots
               (gas_report "a.sol" "now" two_hotspots))
            (hotspot_line_index 1) =
    Some "2. [MEDIUM] FUNCTION_CALLS" /\
  nth_error (print_gas_report two_hotspots
               (gas_report "a.sol" "now" two_hotspots))
            (hotspot_line_index 1 + 2) =
    Some "   Estimated Cost: 0 gas".
Proof.
  split; [vm_compute; reflexivity|].
  apply (@hotspots_numbered two_hotspots
           (gas_report "a.sol" "now" two_hotspots) 1
           (mkHotspot FUNCTION_CALLS MEDIUM
              "Found 0 functions, 0 external calls, 0 delegate calls" 0
              "Use internal functions when possible, batch external calls")).
  vm_compute. reflexivity.
Defined.

Lemma optimization_lines_width (io : Z * Optimization) :
  List.length (optimization_lines io) = 4%nat.
Proof. destruct io. reflexivity. Qed.

Lemma flat_map_width (T : Type) (lines : Z * T -> list string) (width : nat)
      (l : list T) :
  (forall ix, List.length (lines ix) = width) ->
  forall i, List.length (flat_map lines (enumerate i l)) = (width * List.length l)%nat.
Proof.
  intros W. induction l as [|x l IH]; intros i.
  - simpl. lia.
  - cbn [enumerate flat_map List.length]. rewrite length_app, W, IH. lia.
Qed.

(** The suggestions are printed after the hotspots, in the order of the
    list and numbered from 1: the block of the suggestion at index [k]
    starts with its number and type, and its third line carries the
    saving with commas. *)
Theorem suggestions_numbered (self : State) (report : Report)
        (k : nat) (o : Optimization) :
  nth_error (optimizations self) k = Some o ->
  nth_error (print_gas_report self report) (optimization_line_index self k) =
    Some (fmt (Z.of_nat k + 1) ^^ ". " ^^ optimization_type_name (o_type o)) /\
  nth_error (print_gas_report self report)
            (optimization_line_index self k + 2) =
    Some ("   Potential Savings: " ^^ thousands (gas_savings o) ^^ " gas").
Proof.
  intros H. unfold print_gas_report, optimization_line_index.
  set (hot := match gas_hotspots self with
              | [] => []
              | _ :: _ =>
                  [nl ^^ " GAS HOTSPOTS:"; rule "-" 40] ++
                  flat_map hotspot_lines (enumerate 1 (gas_hotspots self))
              end).
  assert (L : (match gas_hotspots self with
               | [] => 9
               | _ :: _ => 11 + 5 * List.length (gas_hotspots self)
               end = 9 + List.length hot)%nat).
  { unfold hot. destruct (gas_hotspots self) as [|h0 hs]; [reflexivity|].
    rewrite length_app,
      (@flat_map_width Hotspot hotspot_lines 5 (h0 :: hs)
         hotspot_lines_width 1).
    cbn [List.length]. lia. }
  rewrite L. clear L.
  destruct (optimizations self) as [|o0 os] eqn:E;
    [destruct k; discriminate|].
  rewrite <- E in *. clear E o0 os.
  replace (9 + List.length hot + 2 + 4 * k)%nat
    with (List.length (head_lines report) +
          (List.length hot +
           (List.length [nl ^^ " OPTIMIZATION SUGGESTIONS:"; rule "-" 40] +
            (4 * k + 0))))%nat
    by (cbn [List.length head_lines]; lia).
  replace (List.length (head_lines report) +
           (List.length hot +
            (List.length [nl ^^ " OPTIMIZATION SUGGESTIONS:"; rule "-" 40] +
             (4 * k + 0))) + 2)%nat
    with (List.length (head_lines report) +
          (List.length hot +
           (List.length [nl ^^ " OPTIMIZATION SUGGESTIONS:"; rule "-" 40] +
            (4 * k + 2))))%nat
    by lia.
  rewrite !nth_error_after, <- !app_assoc, !nth_error_after.
  split.
  - apply (@block_at Optimization optimization_lines 4
                     optimization_lines_width
                     (optimizations self) _ 1 k o 0%nat _ H).
    cbn [optimization_lines nth_error]. do 3 f_equal. f_equal. lia.
  - apply (@block_at Optimization optimization_lines 4
                     optimization_lines_width
                     (optimizations self) _ 1 k o 2%nat _ H).
    reflexivity.
Qed.

Lemma suggestions_numbered_witness :
  nth_error (optimizations two_hotspots) 0 =
    Some (constant_suggestion (list_ascii_of_string "x")) /\
  nth_error (print_gas_report two_hotspots
               (gas_report "a.sol" "now" two_hotspots))
            (optimization_line_index two_hotspots 0) =
    Some "1. CONSTANT_OPTIMIZATION" /\
  nth_error (print_gas_report two_hotspots
               (gas_report "a.sol" "now" two_hotspots))
            (optimization_line_index two_hotspots 0 + 2) =
    Some "   Potential Savings: 2,300 gas".
Proof.
  split; [vm_compute; reflexivity|].
  apply (@suggestions_numbered two_hotspots
           (gas_report "a.sol" "now" two_hotspots) 0
           (constant_suggestion (list_ascii_of_string "x"))).
  vm_compute. reflexivity.
Defined.

(** *** How a run ends *)

(** A run ends with the usage text and status 1 exactly when the command
    line does not hold one argument.  It ends normally, with status 0,
    when the file is read and the report written, and also when the file
    is missing: then two lines are printed and nothing is written.  A
    report file is written only in the first of these cases; it is named
    after the time of the run and holds the report of the text. *)
Theorem run_endings (argv : list string) (fs : string -> read_result)
        (can_save : bool) (now stamp : string) :
  (run_end (run_program argv fs can_save now stamp) = UsageExit <->
   List.length argv <> 2%nat) /\
  (run_end (run_program argv fs can_save now stamp) = Completed <->
   exists prog path,
     argv = [prog; path] /\
     (fs path = FileNotFound \/
      (can_save = true /\ exists code, fs path = FileText code))) /\
  (forall prog path,
     argv = [prog; path] -> fs path = FileNotFound ->
     run_program argv fs can_save now stamp =
       mkRun [" Analyzing gas usage: " ^^ path; " File not found: " ^^ path]
             Completed None) /\
  (forall name report,
     saved (run_program argv fs can_save now stamp) = Some (name, report) <->
     name = save_name stamp /\
     can_save = true /\
     exists prog path code,
       argv = [prog; path] /\ fs path = FileText code /\
       report = analyze path now code).
Proof.
  unfold run_program, main, analyze_contract, generate_gas_report, analyze.
  destruct argv as [|prog [|path [|third more]]];
    try (repeat split;
         try (intros; cbn [List.length]; lia);
         try (intros; discriminate);
         try (intros (? & ? & ? & _); discriminate);
         try (intros (_ & _ & ? & ? & ? & ? & _); discriminate);
         fail).
  destruct (fs path) as [code| |] eqn:F; destruct can_save;
    cbn [run_end saved stdout fst snd].
  all: repeat split.
  all: try (intros; discriminate).
  all: try (intros; cbn [List.length] in *; lia).
  all: try (intros (? & ? & E & [?|[? [? ?]]]);
            injection E as <- <-; congruence).
  all: try (intros (_ & ? & _); discriminate).
  all: try (intros (_ & _ & ? & ? & ? & E & ? & _);
            injection E as <- <-; congruence).
  all: try (intros ? ? E ?; injection E as <- <-; congruence).
  - intros _. exists prog, path. split; [reflexivity|].
    right. split; [reflexivity|]. exists code. exact F.
  - match goal with H : Some _ = Some _ |- _ => injection H as <- <- end.
    reflexivity.
  - match goal with H : Some _ = Some _ |- _ => injection H as <- <- end.
    exists prog, path, code. auto.
  - intros (-> & _ & p' & q' & c' & E & Fc & ->).
    injection E as <- <-. rewrite F in Fc. injection Fc as <-. reflexivity.
  - intros _. exists prog, path. split; [reflexivity|]. left. exact F.
  - intros _. exists prog, path. split; [reflexivity|]. left. exact F.
Qed.

End Printing.

(* ================================================================== *)
(** ** Calls of [analyze_contract] *)
(* ================================================================== *)

Module Calls.
Import Re Patterns GasAnalyzer Spec Console Terms Props Further.
Local Open Scope Z_scope.

(** A pass lists the storage and the function hotspot, whatever the
    text. *)
Lemma pass_adds_two (code : string) :
  2 <= len (gas_hotspots (run_detectors code init)).
Proof.
  rewrite run_hotspots.
  unfold analyze_storage_usage, analyze_function_patterns.
  cbn [gas_hotspots add_hotspot init app].
  rewrite len_cons, len_app, len_cons.
  pose proof (len_nonneg (gas_hotspots (analyze_loop_patterns code init))).
  pose proof (len_nonneg
                (gas_hotspots (analyze_array_operations code init) ++
                 gas_hotspots (analyze_mapping_operations code init))).
  lia.
Qed.

(** *** One text, two passes *)




(** *** A report, or none *)

(** C8, counterexample.  The file is read and the report file cannot be
    written: every detector has run, the report is built and printed, and
    the run ends on the exception of the write, with nothing returned and
    nothing written.  The run has not stopped at the reading of the
    file, and it has produced no report. *)
Lemma write_failure_after_pass :
  main (one_file "x = 1;") false "now" "a.sol" =
    (run_detectors "x = 1;" init,
     SaveFailed (analyze "a.sol" "now" "x = 1;")) /\
  List.length (gas_hotspots (run_detectors "x = 1;" init)) = 2%nat /\
  run_end (run_program ["gas-analyzer.py"; "a.sol"] (one_file "x = 1;")
             false "now" "stamp") = Uncaught /\
  saved (run_program ["gas-analyzer.py"; "a.sol"] (one_file "x = 1;")
           false "now" "stamp") = None /\
  nth_error (stdout (run_program ["gas-analyzer.py"; "a.sol"]
                       (one_file "x = 1;") false "now" "stamp")) 9
    = Some " GAS USAGE ANALYSIS REPORT" /\
  List.length (stdout (run_program ["gas-analyzer.py"; "a.sol"]
                         (one_file "x = 1;") false "now" "stamp")) = 47%nat.
Proof. vm_compute. repeat split. Qed.

(** C8, amended.  A call ends in one of three ways.  When the file is
    missing or its reading raises, no detector runs, the instance is as
    it was and no report is built.  When the file is read, the whole
    pass runs and the report is full: after what the instance held come
    the entries of the five hotspot detectors and of the six suggestion
    checks, in the order of the calls, and the summary counts and adds up
    exactly these lists.  That report is returned when its file can be
    written; when the write raises, the report is built and printed but
    the call returns nothing. *)
Theorem report_full_or_none (fs : string -> read_result) (can_save : bool)
        (now path : string) (self : State) :
  (exists code,
      fs path = FileText code /\
      fst (analyze_contract fs can_save now path self)
        = run_detectors code self /\
      (exists r,
          snd (analyze_contract fs can_save now path self)
            = (if can_save then Returned r else SaveFailed r) /\
          report_hotspots r =
            gas_hotspots self ++
            gas_hotspots (analyze_storage_usage code init) ++
            gas_hotspots (analyze_loop_patterns code init) ++
            gas_hotspots (analyze_function_patterns code init) ++
            gas_hotspots (analyze_array_operations code init) ++
            gas_hotspots (analyze_mapping_operations code init) /\
          report_optimizations r =
            optimizations self ++
            optimizations (analyze_data_types code init) ++
            optimizations (_check_constant_variables code init) ++
            optimizations (_check_function_visibility code init) ++
            optimizations (_check_require_statements code init) ++
            optimizations (_check_event_usage code init) ++
            optimizations (_check_struct_packing code init) /\
          hotspot_count (summary r) = len (report_hotspots r) /\
          optimization_count (summary r) = len (report_optimizations r) /\
          total_estimated_cost (summary r)
            = sum (map estimated_cost (report_hotspots r)) /\
          total_potential_savings (summary r)
            = sum (map gas_savings (report_optimizations r)) /\
          2 <= hotspot_count (summary r)))
  \/
  ((forall code, fs path <> FileText code) /\
   (analyze_contract fs can_save now path self = (self, ReturnedEmpty) \/
    analyze_contract fs can_save now path self = (self, Raised))).
Proof.
  unfold analyze_contract, generate_gas_report.
  destruct (fs path) as [code| |].
  - left. exists code. split; [reflexivity|]. split; [reflexivity|].
    exists (gas_report path now (run_detectors code self)).
    split; [destruct can_save; reflexivity|].
    unfold gas_report.
    cbn [report_hotspots report_optimizations summary hotspot_count
         optimization_count total_estimated_cost total_potential_savings].
    destruct (appends_run code self) as [Hh Ho].
    rewrite Hh, Ho, run_hotspots, run_optimizations.
    repeat split.
    rewrite <- run_hotspots, len_app.
    pose proof (len_nonneg (gas_hotspots self)).
    pose proof (pass_adds_two code). lia.
  - right. split; [intros; discriminate|]. left. reflexivity.
  - right. split; [intros; discriminate|]. right. reflexivity.
Qed.

End Calls.
